(** * The streaming session hook [useAudioStream]

    A shallow embedding of [src/app/src/hooks/useAudioStream.ts] and of the
    types of [src/app/src/types.ts].

    The hook is a bundle of callbacks over React state cells and refs.  The
    embedding keeps one record, [Hook], with a field per [useState] value and
    per [useRef] cell (same names as in the source), followed by the browser
    objects the callbacks create (recorders, file readers, timers, decode
    jobs, buffer sources) and a log of the calls made on the outside world.
    Every callback of the source is a function [Hook -> Hook]; the host event
    loop is the function [step], which delivers one event to its callback and
    then lets React commit the render ([commit]).

    Modelling conventions:
    - a JS [string | undefined] is an [option string]; [if (x)] on it is
      [truthy x] (defined and non-empty);
    - a [Blob] and an [ArrayBuffer] are lists of bytes;
    - [performance.now()] is an integer number of milliseconds supplied by
      the event that reads it; [Date.now()] and [toLocaleTimeString] are
      supplied as a [Stamp];
    - an [await] is a suspension point: the callback is cut there and the rest
      runs when the matching completion event is delivered
      ([EvUserMedia] or [EvRecorderFailure], [EvDecoded], [EvLoadEnd]);
    - the [AudioContext] is taken to exist and to be running once created, so
      the [resume()] branch is not a suspension point. *)

From Stdlib Require Import ZArith Lia Ascii.
From Stdlib Require String.
From Stdlib.Strings Require Import Byte.
From stdpp Require Import base numbers list strings option.

Local Open Scope Z_scope.

(** ** [types.ts] *)

Inductive Role := user | ai.

Inductive Emotion := HAPPY | SAD | NEUTRAL | THINKING | SURPRISED | ANGRY.

Inductive AppState := idle | listening | processing | speaking.

#[global] Instance Role_eq_dec : EqDecision Role.
Proof. solve_decision. Defined.

#[global] Instance Emotion_eq_dec : EqDecision Emotion.
Proof. solve_decision. Defined.

#[global] Instance AppState_eq_dec : EqDecision AppState.
Proof. solve_decision. Defined.

(** [interface Message].  The optional [isTemporary] is never written by the
    hook and is left out. *)
Module Message.
Record t := mk {
  id : string;
  type : Role;
  text : string;
  timestamp : string;
  audioData : option string
}.
End Message.

(** [interface WebSocketMessage]: the inbound frame after [JSON.parse].
    [unknown] stands for any [type] tag outside the ten the switch names. *)
Module WebSocketMessage.
Inductive tag :=
  | transcript | ai_response | ai_stream_chunk | ai_processing | audio
  | recording_started | recording_stopped | error | stt_error | user_speaking
  | unknown.
Record t := mk {
  type : tag;
  text : option string;
  isFinal : option bool;
  emotion : option Emotion;
  data : option string;
  message : option string;
  isProcessing : option bool
}.
End WebSocketMessage.

(** ** JavaScript and browser primitives *)

(** [if (x)] for an optional string: [undefined] and [""] are falsy. *)
Definition truthy (x : option string) : bool :=
  match x with
  | Some s => negb (String.eqb s "")
  | None => false
  end.

(** [if (x)] for an optional boolean. *)
Definition truthy_bool (x : option bool) : bool :=
  match x with
  | Some b => b
  | None => false
  end.

Definition Blob := list byte.
Definition ArrayBuffer := list byte.
Definition AnalyserNode := nat.

(** [new Blob(parts, ...)]: the parts laid end to end. *)
Definition new_Blob (parts : list Blob) : Blob := concat parts.

(** [Array.prototype.join]. *)
Fixpoint join (sep : string) (l : list string) : string :=
  match l with
  | [] => ""
  | [x] => x
  | x :: rest => x +:+ sep +:+ join sep rest
  end.

(** The base64 alphabet of RFC 4648, used by [readAsDataURL] and [atob]. *)
Definition b64_alphabet : list ascii :=
  String.list_ascii_of_string
    "ABCDEFGHIJKLMNOPQRSTUVWXYZabcdefghijklmnopqrstuvwxyz0123456789+/".

Definition b64_digit (n : N) : ascii :=
  nth (N.to_nat (N.land n 63)) b64_alphabet "A"%char.

(** Base64 of a byte sequence, three bytes to four digits, [=] padded. *)
Fixpoint base64 (bs : list byte) : string :=
  match bs with
  | [] => ""
  | [a] =>
      let n := N.shiftl (Byte.to_N a) 16 in
      String (b64_digit (N.shiftr n 18))
        (String (b64_digit (N.shiftr n 12)) "==")
  | [a; b] =>
      let n := N.lor (N.shiftl (Byte.to_N a) 16) (N.shiftl (Byte.to_N b) 8) in
      String (b64_digit (N.shiftr n 18))
        (String (b64_digit (N.shiftr n 12))
           (String (b64_digit (N.shiftr n 6)) "="))
  | a :: b :: c :: rest =>
      let n := N.lor (N.lor (N.shiftl (Byte.to_N a) 16)
                            (N.shiftl (Byte.to_N b) 8)) (Byte.to_N c) in
      String (b64_digit (N.shiftr n 18))
        (String (b64_digit (N.shiftr n 12))
           (String (b64_digit (N.shiftr n 6))
              (String (b64_digit n) (base64 rest))))
  end.

(** [FileReader.readAsDataURL] of a blob of the given MIME type. *)
Definition readAsDataURL (mime : string) (b : Blob) : string :=
  "data:" +:+ mime +:+ ";base64," +:+ base64 b.

(** [s.split(',')]: the pieces of [s] between commas; [acc] is the piece
    read so far. *)
Fixpoint split_comma_aux (acc : string) (s : string) : list string :=
  match s with
  | EmptyString => [acc]
  | String c rest =>
      if Ascii.eqb c ","%char
      then acc :: split_comma_aux "" rest
      else split_comma_aux (acc +:+ String c "") rest
  end.

Definition split_comma (s : string) : list string := split_comma_aux "" s.

(** [(reader.result as string).split(',')[1]]. *)
Definition dataURL_payload (result : string) : option string :=
  split_comma result !! 1%nat.

(** [window.atob]: forgiving base64 decoding.  ASCII whitespace is dropped,
    up to two trailing [=] are removed when the length is a multiple of four,
    a length of 1 modulo 4 or a character outside the alphabet throws
    ([None]); the remaining digits are read six bits at a time. *)
Definition is_ascii_whitespace (c : ascii) : bool :=
  let n := N_of_ascii c in
  (n =? 9)%N || (n =? 10)%N || (n =? 12)%N || (n =? 13)%N || (n =? 32)%N.

Fixpoint index_of (c : ascii) (l : list ascii) (i : N) : option N :=
  match l with
  | [] => None
  | x :: rest => if Ascii.eqb c x then Some i else index_of c rest (N.succ i)
  end.

Definition b64_value (c : ascii) : option N := index_of c b64_alphabet 0%N.

Definition byte_of_N (n : N) : byte :=
  match Byte.of_N (N.land n 255) with
  | Some b => b
  | None => "000"%byte
  end.

Fixpoint decode_sextets (l : list N) : list byte :=
  match l with
  | a :: b :: c :: d :: rest =>
      let n := N.lor (N.lor (N.shiftl a 18) (N.shiftl b 12))
                     (N.lor (N.shiftl c 6) d) in
      byte_of_N (N.shiftr n 16) :: byte_of_N (N.shiftr n 8) :: byte_of_N n
        :: decode_sextets rest
  | [a; b; c] =>
      let n := N.lor (N.lor (N.shiftl a 18) (N.shiftl b 12)) (N.shiftl c 6) in
      [byte_of_N (N.shiftr n 16); byte_of_N (N.shiftr n 8)]
  | [a; b] =>
      let n := N.lor (N.shiftl a 18) (N.shiftl b 12) in
      [byte_of_N (N.shiftr n 16)]
  | _ => []
  end.

Definition strip_padding (l : list ascii) : list ascii :=
  if (length l mod 4 =? 0)%nat then
    match rev l with
    | "="%char :: "="%char :: r => rev r
    | "="%char :: r => rev r
    | _ => l
    end
  else l.

Definition atob (s : string) : option ArrayBuffer :=
  let l := filter (fun c => is_ascii_whitespace c = false) (String.list_ascii_of_string s) in
  let l := strip_padding l in
  if (length l mod 4 =? 1)%nat then None
  else decode_sextets <$> mapM b64_value l.

(** [String.prototype.trim]: white space and line terminators are removed
    at both ends.  A string is held as its UTF-8 bytes, so a white-space
    character is one to three bytes long:
    - one byte: U+0009 to U+000D (tab, line feed, vertical tab, form feed,
      carriage return) and U+0020 (space);
    - two bytes: U+00A0 (C2 A0);
    - three bytes: U+1680 (E1 9A 80), U+2000 to U+200A (E2 80 80 to
      E2 80 8A), U+2028 and U+2029 (E2 80 A8, E2 80 A9), U+202F (E2 80 AF),
      U+205F (E2 81 9F), U+3000 (E3 80 80) and U+FEFF (EF BB BF). *)
Definition is_js_whitespace (c : ascii) : bool :=
  let n := N_of_ascii c in
  ((9 <=? n) && (n <=? 13))%N || (n =? 32)%N.

Definition is_js_whitespace2 (a b : ascii) : bool :=
  ((N_of_ascii a =? 194) && (N_of_ascii b =? 160))%N.

Definition is_js_whitespace3 (a b c : ascii) : bool :=
  let a := N_of_ascii a in
  let b := N_of_ascii b in
  let c := N_of_ascii c in
  ((a =? 225) && (b =? 154) && (c =? 128)
   || (a =? 226) && (b =? 128)
      && ((128 <=? c) && (c <=? 138) || (c =? 168) || (c =? 169) || (c =? 175))
   || (a =? 226) && (b =? 129) && (c =? 159)
   || (a =? 227) && (b =? 128) && (c =? 128)
   || (a =? 239) && (b =? 187) && (c =? 191))%N.

(** White space removed at the start. *)
Fixpoint trim_left (s : string) : string :=
  match s with
  | String a rest =>
      if is_js_whitespace a then trim_left rest
      else
        match rest with
        | String b rest2 =>
            if is_js_whitespace2 a b then trim_left rest2
            else
              match rest2 with
              | String c rest3 =>
                  if is_js_whitespace3 a b c then trim_left rest3 else s
              | EmptyString => s
              end
        | EmptyString => s
        end
  | EmptyString => s
  end.

(** White space removed at the start of a string given back to front: the
    bytes of a character come last byte first. *)
Fixpoint trim_left_reversed (s : string) : string :=
  match s with
  | String c rest =>
      if is_js_whitespace c then trim_left_reversed rest
      else
        match rest with
        | String b rest2 =>
            if is_js_whitespace2 b c then trim_left_reversed rest2
            else
              match rest2 with
              | String a rest3 =>
                  if is_js_whitespace3 a b c then trim_left_reversed rest3 else s
              | EmptyString => s
              end
        | EmptyString => s
        end
  | EmptyString => s
  end.

Definition string_rev (s : string) : string :=
  String.string_of_list_ascii (rev (String.list_ascii_of_string s)).

Definition trim (s : string) : string :=
  string_rev (trim_left_reversed (string_rev (trim_left s))).

(** ** Browser objects the hook creates *)

(** [WebSocket.readyState]. *)
Inductive ReadyState := CONNECTING | OPEN | CLOSING | CLOSED.

(** [MediaRecorder.state]. *)
Inductive RecordingState := inactive | recording | paused.

#[global] Instance WsTag_eq_dec : EqDecision WebSocketMessage.tag.
Proof. solve_decision. Defined.

#[global] Instance ReadyState_eq_dec : EqDecision ReadyState.
Proof. solve_decision. Defined.

#[global] Instance RecordingState_eq_dec : EqDecision RecordingState.
Proof. solve_decision. Defined.

(** A [MediaRecorder] with the [chunks] array its two handlers close over.
    [stop_pending] holds between the call of [stop()] and the dispatch of
    the recorder's [stop] event. *)
Record MediaRecorder := mkRecorder {
  rec_state : RecordingState;
  chunks : list Blob;
  stop_pending : bool
}.

(** What a [FileReader]'s [onloadend] does: the reader of
    [mediaRecorder.onstop] sends the segment, the reader of the final
    transcript attaches the capture to a new user message with that text. *)
Inductive OnLoadEnd :=
  | send_audio_complete
  | attach_user_audio (text : string).

Record FileReader := mkReader {
  reader_blob : Blob;
  onloadend : OnLoadEnd;
  loaded : bool
}.

(** A call of [decodeAudioData] and its outcome. *)
Inductive DecodeStatus := decoding | decoded | rejected.

#[global] Instance DecodeStatus_eq_dec : EqDecision DecodeStatus.
Proof. solve_decision. Defined.

Record Decode := mkDecode {
  dec_buffer : ArrayBuffer;
  dec_status : DecodeStatus
}.

(** An [AudioBufferSourceNode] that was started; [ended] once [onended]
    has fired. *)
Record BufferSource := mkSource {
  src_buffer : ArrayBuffer;
  ended : bool
}.

(** Outbound frames ([socket.send(JSON.stringify(...))]). *)
Inductive OutFrame :=
  | audio_complete (data : option string) (mimeType : string)
  | chat_message (text : string)
  | update_settings (settings : string).

(** Calls made on the outside world, logged in the order they happen. *)
Inductive Effect :=
  | socket_send (frame : OutFrame)
  | getUserMedia
  | recorder_stop (r : nat)
  | tracks_stop (stream : nat)
  | source_start (src : nat).

(** [Date.now().toString()] and [new Date().toLocaleTimeString(...)] as read
    by [addMessage]. *)
Record Stamp := mkStamp {
  Date_now : string;
  toLocaleTimeString : string
}.

(** ** The state of the hook *)

(** First the [useState] values, then the [useRef] cells, the [isMounted]
    variable of the connection effect, the dependencies and the interval of
    the silence-detection effect, and the browser side: pending timers,
    recorders, device streams (true while their tracks are live), number of
    analysers created, file readers, decode jobs, started sources, pending
    [getUserMedia] requests and the log of calls. *)
Record Hook := mkHook {
  isConnected : bool;
  appState : AppState;
  transcript : string;
  emotion : Emotion;
  messages : list Message.t;
  error : option string;
  streamingAiText : string;
  isAiProcessing : bool;
  isConversationActive : bool;
  inputAnalyser : option AnalyserNode;
  outputAnalyser : option AnalyserNode;
  socketRef : option ReadyState;
  reconnectTimeoutRef : option positive;
  reconnectAttemptRef : Z;
  mediaRecorderRef : option nat;
  audioContextRef : bool;
  audioQueueRef : list ArrayBuffer;
  isPlayingRef : bool;
  mediaStreamRef : option nat;
  isConversationActiveRef : bool;
  lastVoiceActivityAtRef : option Z;
  didAutoStopSegmentRef : bool;
  currentAiAudioChunksRef : list string;
  userRecordedAudioRef : list Blob;
  isConnectingRef : bool;
  appStateRef : AppState;
  isMounted : bool;
  silenceDeps : option (AppState * option AnalyserNode);
  silenceInterval : option AnalyserNode;
  timers : list (positive * Z);
  nextTimerId : positive;
  recorders : list MediaRecorder;
  streams : list bool;
  analysers : nat;
  readers : list FileReader;
  decodes : list Decode;
  sources : list BufferSource;
  pendingUserMedia : nat;
  effects : list Effect
}.

Definition set_isConnected (v : bool) (s : Hook) : Hook :=
  let '(mkHook q0 q1 q2 q3 q4 q5 q6 q7 q8 q9 q10 q11 q12 q13 q14 q15 q16 q17 q18 q19 q20 q21 q22 q23 q24 q25 q26 q27 q28 q29 q30 q31 q32 q33 q34 q35 q36 q37 q38) := s in
  mkHook v q1 q2 q3 q4 q5 q6 q7 q8 q9 q10 q11 q12 q13 q14 q15 q16 q17 q18 q19 q20 q21 q22 q23 q24 q25 q26 q27 q28 q29 q30 q31 q32 q33 q34 q35 q36 q37 q38.
Definition set_appState (v : AppState) (s : Hook) : Hook :=
  let '(mkHook q0 q1 q2 q3 q4 q5 q6 q7 q8 q9 q10 q11 q12 q13 q14 q15 q16 q17 q18 q19 q20 q21 q22 q23 q24 q25 q26 q27 q28 q29 q30 q31 q32 q33 q34 q35 q36 q37 q38) := s in
  mkHook q0 v q2 q3 q4 q5 q6 q7 q8 q9 q10 q11 q12 q13 q14 q15 q16 q17 q18 q19 q20 q21 q22 q23 q24 q25 q26 q27 q28 q29 q30 q31 q32 q33 q34 q35 q36 q37 q38.
Definition set_transcript (v : string) (s : Hook) : Hook :=
  let '(mkHook q0 q1 q2 q3 q4 q5 q6 q7 q8 q9 q10 q11 q12 q13 q14 q15 q16 q17 q18 q19 q20 q21 q22 q23 q24 q25 q26 q27 q28 q29 q30 q31 q32 q33 q34 q35 q36 q37 q38) := s in
  mkHook q0 q1 v q3 q4 q5 q6 q7 q8 q9 q10 q11 q12 q13 q14 q15 q16 q17 q18 q19 q20 q21 q22 q23 q24 q25 q26 q27 q28 q29 q30 q31 q32 q33 q34 q35 q36 q37 q38.
Definition set_emotion (v : Emotion) (s : Hook) : Hook :=
  let '(mkHook q0 q1 q2 q3 q4 q5 q6 q7 q8 q9 q10 q11 q12 q13 q14 q15 q16 q17 q18 q19 q20 q21 q22 q23 q24 q25 q26 q27 q28 q29 q30 q31 q32 q33 q34 q35 q36 q37 q38) := s in
  mkHook q0 q1 q2 v q4 q5 q6 q7 q8 q9 q10 q11 q12 q13 q14 q15 q16 q17 q18 q19 q20 q21 q22 q23 q24 q25 q26 q27 q28 q29 q30 q31 q32 q33 q34 q35 q36 q37 q38.
Definition set_messages (v : list Message.t) (s : Hook) : Hook :=
  let '(mkHook q0 q1 q2 q3 q4 q5 q6 q7 q8 q9 q10 q11 q12 q13 q14 q15 q16 q17 q18 q19 q20 q21 q22 q23 q24 q25 q26 q27 q28 q29 q30 q31 q32 q33 q34 q35 q36 q37 q38) := s in
  mkHook q0 q1 q2 q3 v q5 q6 q7 q8 q9 q10 q11 q12 q13 q14 q15 q16 q17 q18 q19 q20 q21 q22 q23 q24 q25 q26 q27 q28 q29 q30 q31 q32 q33 q34 q35 q36 q37 q38.
Definition set_error (v : option string) (s : Hook) : Hook :=
  let '(mkHook q0 q1 q2 q3 q4 q5 q6 q7 q8 q9 q10 q11 q12 q13 q14 q15 q16 q17 q18 q19 q20 q21 q22 q23 q24 q25 q26 q27 q28 q29 q30 q31 q32 q33 q34 q35 q36 q37 q38) := s in
  mkHook q0 q1 q2 q3 q4 v q6 q7 q8 q9 q10 q11 q12 q13 q14 q15 q16 q17 q18 q19 q20 q21 q22 q23 q24 q25 q26 q27 q28 q29 q30 q31 q32 q33 q34 q35 q36 q37 q38.
Definition set_streamingAiText (v : string) (s : Hook) : Hook :=
  let '(mkHook q0 q1 q2 q3 q4 q5 q6 q7 q8 q9 q10 q11 q12 q13 q14 q15 q16 q17 q18 q19 q20 q21 q22 q23 q24 q25 q26 q27 q28 q29 q30 q31 q32 q33 q34 q35 q36 q37 q38) := s in
  mkHook q0 q1 q2 q3 q4 q5 v q7 q8 q9 q10 q11 q12 q13 q14 q15 q16 q17 q18 q19 q20 q21 q22 q23 q24 q25 q26 q27 q28 q29 q30 q31 q32 q33 q34 q35 q36 q37 q38.
Definition set_isAiProcessing (v : bool) (s : Hook) : Hook :=
  let '(mkHook q0 q1 q2 q3 q4 q5 q6 q7 q8 q9 q10 q11 q12 q13 q14 q15 q16 q17 q18 q19 q20 q21 q22 q23 q24 q25 q26 q27 q28 q29 q30 q31 q32 q33 q34 q35 q36 q37 q38) := s in
  mkHook q0 q1 q2 q3 q4 q5 q6 v q8 q9 q10 q11 q12 q13 q14 q15 q16 q17 q18 q19 q20 q21 q22 q23 q24 q25 q26 q27 q28 q29 q30 q31 q32 q33 q34 q35 q36 q37 q38.
Definition set_isConversationActive (v : bool) (s : Hook) : Hook :=
  let '(mkHook q0 q1 q2 q3 q4 q5 q6 q7 q8 q9 q10 q11 q12 q13 q14 q15 q16 q17 q18 q19 q20 q21 q22 q23 q24 q25 q26 q27 q28 q29 q30 q31 q32 q33 q34 q35 q36 q37 q38) := s in
  mkHook q0 q1 q2 q3 q4 q5 q6 q7 v q9 q10 q11 q12 q13 q14 q15 q16 q17 q18 q19 q20 q21 q22 q23 q24 q25 q26 q27 q28 q29 q30 q31 q32 q33 q34 q35 q36 q37 q38.
Definition set_inputAnalyser (v : option AnalyserNode) (s : Hook) : Hook :=
  let '(mkHook q0 q1 q2 q3 q4 q5 q6 q7 q8 q9 q10 q11 q12 q13 q14 q15 q16 q17 q18 q19 q20 q21 q22 q23 q24 q25 q26 q27 q28 q29 q30 q31 q32 q33 q34 q35 q36 q37 q38) := s in
  mkHook q0 q1 q2 q3 q4 q5 q6 q7 q8 v q10 q11 q12 q13 q14 q15 q16 q17 q18 q19 q20 q21 q22 q23 q24 q25 q26 q27 q28 q29 q30 q31 q32 q33 q34 q35 q36 q37 q38.
Definition set_outputAnalyser (v : option AnalyserNode) (s : Hook) : Hook :=
  let '(mkHook q0 q1 q2 q3 q4 q5 q6 q7 q8 q9 q10 q11 q12 q13 q14 q15 q16 q17 q18 q19 q20 q21 q22 q23 q24 q25 q26 q27 q28 q29 q30 q31 q32 q33 q34 q35 q36 q37 q38) := s in
  mkHook q0 q1 q2 q3 q4 q5 q6 q7 q8 q9 v q11 q12 q13 q14 q15 q16 q17 q18 q19 q20 q21 q22 q23 q24 q25 q26 q27 q28 q29 q30 q31 q32 q33 q34 q35 q36 q37 q38.
Definition set_socketRef (v : option ReadyState) (s : Hook) : Hook :=
  let '(mkHook q0 q1 q2 q3 q4 q5 q6 q7 q8 q9 q10 q11 q12 q13 q14 q15 q16 q17 q18 q19 q20 q21 q22 q23 q24 q25 q26 q27 q28 q29 q30 q31 q32 q33 q34 q35 q36 q37 q38) := s in
  mkHook q0 q1 q2 q3 q4 q5 q6 q7 q8 q9 q10 v q12 q13 q14 q15 q16 q17 q18 q19 q20 q21 q22 q23 q24 q25 q26 q27 q28 q29 q30 q31 q32 q33 q34 q35 q36 q37 q38.
Definition set_reconnectTimeoutRef (v : option positive) (s : Hook) : Hook :=
  let '(mkHook q0 q1 q2 q3 q4 q5 q6 q7 q8 q9 q10 q11 q12 q13 q14 q15 q16 q17 q18 q19 q20 q21 q22 q23 q24 q25 q26 q27 q28 q29 q30 q31 q32 q33 q34 q35 q36 q37 q38) := s in
  mkHook q0 q1 q2 q3 q4 q5 q6 q7 q8 q9 q10 q11 v q13 q14 q15 q16 q17 q18 q19 q20 q21 q22 q23 q24 q25 q26 q27 q28 q29 q30 q31 q32 q33 q34 q35 q36 q37 q38.
Definition set_reconnectAttemptRef (v : Z) (s : Hook) : Hook :=
  let '(mkHook q0 q1 q2 q3 q4 q5 q6 q7 q8 q9 q10 q11 q12 q13 q14 q15 q16 q17 q18 q19 q20 q21 q22 q23 q24 q25 q26 q27 q28 q29 q30 q31 q32 q33 q34 q35 q36 q37 q38) := s in
  mkHook q0 q1 q2 q3 q4 q5 q6 q7 q8 q9 q10 q11 q12 v q14 q15 q16 q17 q18 q19 q20 q21 q22 q23 q24 q25 q26 q27 q28 q29 q30 q31 q32 q33 q34 q35 q36 q37 q38.
Definition set_mediaRecorderRef (v : option nat) (s : Hook) : Hook :=
  let '(mkHook q0 q1 q2 q3 q4 q5 q6 q7 q8 q9 q10 q11 q12 q13 q14 q15 q16 q17 q18 q19 q20 q21 q22 q23 q24 q25 q26 q27 q28 q29 q30 q31 q32 q33 q34 q35 q36 q37 q38) := s in
  mkHook q0 q1 q2 q3 q4 q5 q6 q7 q8 q9 q10 q11 q12 q13 v q15 q16 q17 q18 q19 q20 q21 q22 q23 q24 q25 q26 q27 q28 q29 q30 q31 q32 q33 q34 q35 q36 q37 q38.
Definition set_audioContextRef (v : bool) (s : Hook) : Hook :=
  let '(mkHook q0 q1 q2 q3 q4 q5 q6 q7 q8 q9 q10 q11 q12 q13 q14 q15 q16 q17 q18 q19 q20 q21 q22 q23 q24 q25 q26 q27 q28 q29 q30 q31 q32 q33 q34 q35 q36 q37 q38) := s in
  mkHook q0 q1 q2 q3 q4 q5 q6 q7 q8 q9 q10 q11 q12 q13 q14 v q16 q17 q18 q19 q20 q21 q22 q23 q24 q25 q26 q27 q28 q29 q30 q31 q32 q33 q34 q35 q36 q37 q38.
Definition set_audioQueueRef (v : list ArrayBuffer) (s : Hook) : Hook :=
  let '(mkHook q0 q1 q2 q3 q4 q5 q6 q7 q8 q9 q10 q11 q12 q13 q14 q15 q16 q17 q18 q19 q20 q21 q22 q23 q24 q25 q26 q27 q28 q29 q30 q31 q32 q33 q34 q35 q36 q37 q38) := s in
  mkHook q0 q1 q2 q3 q4 q5 q6 q7 q8 q9 q10 q11 q12 q13 q14 q15 v q17 q18 q19 q20 q21 q22 q23 q24 q25 q26 q27 q28 q29 q30 q31 q32 q33 q34 q35 q36 q37 q38.
Definition set_isPlayingRef (v : bool) (s : Hook) : Hook :=
  let '(mkHook q0 q1 q2 q3 q4 q5 q6 q7 q8 q9 q10 q11 q12 q13 q14 q15 q16 q17 q18 q19 q20 q21 q22 q23 q24 q25 q26 q27 q28 q29 q30 q31 q32 q33 q34 q35 q36 q37 q38) := s in
  mkHook q0 q1 q2 q3 q4 q5 q6 q7 q8 q9 q10 q11 q12 q13 q14 q15 q16 v q18 q19 q20 q21 q22 q23 q24 q25 q26 q27 q28 q29 q30 q31 q32 q33 q34 q35 q36 q37 q38.
Definition set_mediaStreamRef (v : option nat) (s : Hook) : Hook :=
  let '(mkHook q0 q1 q2 q3 q4 q5 q6 q7 q8 q9 q10 q11 q12 q13 q14 q15 q16 q17 q18 q19 q20 q21 q22 q23 q24 q25 q26 q27 q28 q29 q30 q31 q32 q33 q34 q35 q36 q37 q38) := s in
  mkHook q0 q1 q2 q3 q4 q5 q6 q7 q8 q9 q10 q11 q12 q13 q14 q15 q16 q17 v q19 q20 q21 q22 q23 q24 q25 q26 q27 q28 q29 q30 q31 q32 q33 q34 q35 q36 q37 q38.
Definition set_isConversationActiveRef (v : bool) (s : Hook) : Hook :=
  let '(mkHook q0 q1 q2 q3 q4 q5 q6 q7 q8 q9 q10 q11 q12 q13 q14 q15 q16 q17 q18 q19 q20 q21 q22 q23 q24 q25 q26 q27 q28 q29 q30 q31 q32 q33 q34 q35 q36 q37 q38) := s in
  mkHook q0 q1 q2 q3 q4 q5 q6 q7 q8 q9 q10 q11 q12 q13 q14 q15 q16 q17 q18 v q20 q21 q22 q23 q24 q25 q26 q27 q28 q29 q30 q31 q32 q33 q34 q35 q36 q37 q38.
Definition set_lastVoiceActivityAtRef (v : option Z) (s : Hook) : Hook :=
  let '(mkHook q0 q1 q2 q3 q4 q5 q6 q7 q8 q9 q10 q11 q12 q13 q14 q15 q16 q17 q18 q19 q20 q21 q22 q23 q24 q25 q26 q27 q28 q29 q30 q31 q32 q33 q34 q35 q36 q37 q38) := s in
  mkHook q0 q1 q2 q3 q4 q5 q6 q7 q8 q9 q10 q11 q12 q13 q14 q15 q16 q17 q18 q19 v q21 q22 q23 q24 q25 q26 q27 q28 q29 q30 q31 q32 q33 q34 q35 q36 q37 q38.
Definition set_didAutoStopSegmentRef (v : bool) (s : Hook) : Hook :=
  let '(mkHook q0 q1 q2 q3 q4 q5 q6 q7 q8 q9 q10 q11 q12 q13 q14 q15 q16 q17 q18 q19 q20 q21 q22 q23 q24 q25 q26 q27 q28 q29 q30 q31 q32 q33 q34 q35 q36 q37 q38) := s in
  mkHook q0 q1 q2 q3 q4 q5 q6 q7 q8 q9 q10 q11 q12 q13 q14 q15 q16 q17 q18 q19 q20 v q22 q23 q24 q25 q26 q27 q28 q29 q30 q31 q32 q33 q34 q35 q36 q37 q38.
Definition set_currentAiAudioChunksRef (v : list string) (s : Hook) : Hook :=
  let '(mkHook q0 q1 q2 q3 q4 q5 q6 q7 q8 q9 q10 q11 q12 q13 q14 q15 q16 q17 q18 q19 q20 q21 q22 q23 q24 q25 q26 q27 q28 q29 q30 q31 q32 q33 q34 q35 q36 q37 q38) := s in
  mkHook q0 q1 q2 q3 q4 q5 q6 q7 q8 q9 q10 q11 q12 q13 q14 q15 q16 q17 q18 q19 q20 q21 v q23 q24 q25 q26 q27 q28 q29 q30 q31 q32 q33 q34 q35 q36 q37 q38.
Definition set_userRecordedAudioRef (v : list Blob) (s : Hook) : Hook :=
  let '(mkHook q0 q1 q2 q3 q4 q5 q6 q7 q8 q9 q10 q11 q12 q13 q14 q15 q16 q17 q18 q19 q20 q21 q22 q23 q24 q25 q26 q27 q28 q29 q30 q31 q32 q33 q34 q35 q36 q37 q38) := s in
  mkHook q0 q1 q2 q3 q4 q5 q6 q7 q8 q9 q10 q11 q12 q13 q14 q15 q16 q17 q18 q19 q20 q21 q22 v q24 q25 q26 q27 q28 q29 q30 q31 q32 q33 q34 q35 q36 q37 q38.
Definition set_isConnectingRef (v : bool) (s : Hook) : Hook :=
  let '(mkHook q0 q1 q2 q3 q4 q5 q6 q7 q8 q9 q10 q11 q12 q13 q14 q15 q16 q17 q18 q19 q20 q21 q22 q23 q24 q25 q26 q27 q28 q29 q30 q31 q32 q33 q34 q35 q36 q37 q38) := s in
  mkHook q0 q1 q2 q3 q4 q5 q6 q7 q8 q9 q10 q11 q12 q13 q14 q15 q16 q17 q18 q19 q20 q21 q22 q23 v q25 q26 q27 q28 q29 q30 q31 q32 q33 q34 q35 q36 q37 q38.
Definition set_appStateRef (v : AppState) (s : Hook) : Hook :=
  let '(mkHook q0 q1 q2 q3 q4 q5 q6 q7 q8 q9 q10 q11 q12 q13 q14 q15 q16 q17 q18 q19 q20 q21 q22 q23 q24 q25 q26 q27 q28 q29 q30 q31 q32 q33 q34 q35 q36 q37 q38) := s in
  mkHook q0 q1 q2 q3 q4 q5 q6 q7 q8 q9 q10 q11 q12 q13 q14 q15 q16 q17 q18 q19 q20 q21 q22 q23 q24 v q26 q27 q28 q29 q30 q31 q32 q33 q34 q35 q36 q37 q38.
Definition set_isMounted (v : bool) (s : Hook) : Hook :=
  let '(mkHook q0 q1 q2 q3 q4 q5 q6 q7 q8 q9 q10 q11 q12 q13 q14 q15 q16 q17 q18 q19 q20 q21 q22 q23 q24 q25 q26 q27 q28 q29 q30 q31 q32 q33 q34 q35 q36 q37 q38) := s in
  mkHook q0 q1 q2 q3 q4 q5 q6 q7 q8 q9 q10 q11 q12 q13 q14 q15 q16 q17 q18 q19 q20 q21 q22 q23 q24 q25 v q27 q28 q29 q30 q31 q32 q33 q34 q35 q36 q37 q38.
Definition set_silenceDeps (v : option (AppState * option AnalyserNode)) (s : Hook) : Hook :=
  let '(mkHook q0 q1 q2 q3 q4 q5 q6 q7 q8 q9 q10 q11 q12 q13 q14 q15 q16 q17 q18 q19 q20 q21 q22 q23 q24 q25 q26 q27 q28 q29 q30 q31 q32 q33 q34 q35 q36 q37 q38) := s in
  mkHook q0 q1 q2 q3 q4 q5 q6 q7 q8 q9 q10 q11 q12 q13 q14 q15 q16 q17 q18 q19 q20 q21 q22 q23 q24 q25 q26 v q28 q29 q30 q31 q32 q33 q34 q35 q36 q37 q38.
Definition set_silenceInterval (v : option AnalyserNode) (s : Hook) : Hook :=
  let '(mkHook q0 q1 q2 q3 q4 q5 q6 q7 q8 q9 q10 q11 q12 q13 q14 q15 q16 q17 q18 q19 q20 q21 q22 q23 q24 q25 q26 q27 q28 q29 q30 q31 q32 q33 q34 q35 q36 q37 q38) := s in
  mkHook q0 q1 q2 q3 q4 q5 q6 q7 q8 q9 q10 q11 q12 q13 q14 q15 q16 q17 q18 q19 q20 q21 q22 q23 q24 q25 q26 q27 v q29 q30 q31 q32 q33 q34 q35 q36 q37 q38.
Definition set_timers (v : list (positive * Z)) (s : Hook) : Hook :=
  let '(mkHook q0 q1 q2 q3 q4 q5 q6 q7 q8 q9 q10 q11 q12 q13 q14 q15 q16 q17 q18 q19 q20 q21 q22 q23 q24 q25 q26 q27 q28 q29 q30 q31 q32 q33 q34 q35 q36 q37 q38) := s in
  mkHook q0 q1 q2 q3 q4 q5 q6 q7 q8 q9 q10 q11 q12 q13 q14 q15 q16 q17 q18 q19 q20 q21 q22 q23 q24 q25 q26 q27 q28 v q30 q31 q32 q33 q34 q35 q36 q37 q38.
Definition set_nextTimerId (v : positive) (s : Hook) : Hook :=
  let '(mkHook q0 q1 q2 q3 q4 q5 q6 q7 q8 q9 q10 q11 q12 q13 q14 q15 q16 q17 q18 q19 q20 q21 q22 q23 q24 q25 q26 q27 q28 q29 q30 q31 q32 q33 q34 q35 q36 q37 q38) := s in
  mkHook q0 q1 q2 q3 q4 q5 q6 q7 q8 q9 q10 q11 q12 q13 q14 q15 q16 q17 q18 q19 q20 q21 q22 q23 q24 q25 q26 q27 q28 q29 v q31 q32 q33 q34 q35 q36 q37 q38.
Definition set_recorders (v : list MediaRecorder) (s : Hook) : Hook :=
  let '(mkHook q0 q1 q2 q3 q4 q5 q6 q7 q8 q9 q10 q11 q12 q13 q14 q15 q16 q17 q18 q19 q20 q21 q22 q23 q24 q25 q26 q27 q28 q29 q30 q31 q32 q33 q34 q35 q36 q37 q38) := s in
  mkHook q0 q1 q2 q3 q4 q5 q6 q7 q8 q9 q10 q11 q12 q13 q14 q15 q16 q17 q18 q19 q20 q21 q22 q23 q24 q25 q26 q27 q28 q29 q30 v q32 q33 q34 q35 q36 q37 q38.
Definition set_streams (v : list bool) (s : Hook) : Hook :=
  let '(mkHook q0 q1 q2 q3 q4 q5 q6 q7 q8 q9 q10 q11 q12 q13 q14 q15 q16 q17 q18 q19 q20 q21 q22 q23 q24 q25 q26 q27 q28 q29 q30 q31 q32 q33 q34 q35 q36 q37 q38) := s in
  mkHook q0 q1 q2 q3 q4 q5 q6 q7 q8 q9 q10 q11 q12 q13 q14 q15 q16 q17 q18 q19 q20 q21 q22 q23 q24 q25 q26 q27 q28 q29 q30 q31 v q33 q34 q35 q36 q37 q38.
Definition set_analysers (v : nat) (s : Hook) : Hook :=
  let '(mkHook q0 q1 q2 q3 q4 q5 q6 q7 q8 q9 q10 q11 q12 q13 q14 q15 q16 q17 q18 q19 q20 q21 q22 q23 q24 q25 q26 q27 q28 q29 q30 q31 q32 q33 q34 q35 q36 q37 q38) := s in
  mkHook q0 q1 q2 q3 q4 q5 q6 q7 q8 q9 q10 q11 q12 q13 q14 q15 q16 q17 q18 q19 q20 q21 q22 q23 q24 q25 q26 q27 q28 q29 q30 q31 q32 v q34 q35 q36 q37 q38.
Definition set_readers (v : list FileReader) (s : Hook) : Hook :=
  let '(mkHook q0 q1 q2 q3 q4 q5 q6 q7 q8 q9 q10 q11 q12 q13 q14 q15 q16 q17 q18 q19 q20 q21 q22 q23 q24 q25 q26 q27 q28 q29 q30 q31 q32 q33 q34 q35 q36 q37 q38) := s in
  mkHook q0 q1 q2 q3 q4 q5 q6 q7 q8 q9 q10 q11 q12 q13 q14 q15 q16 q17 q18 q19 q20 q21 q22 q23 q24 q25 q26 q27 q28 q29 q30 q31 q32 q33 v q35 q36 q37 q38.
Definition set_decodes (v : list Decode) (s : Hook) : Hook :=
  let '(mkHook q0 q1 q2 q3 q4 q5 q6 q7 q8 q9 q10 q11 q12 q13 q14 q15 q16 q17 q18 q19 q20 q21 q22 q23 q24 q25 q26 q27 q28 q29 q30 q31 q32 q33 q34 q35 q36 q37 q38) := s in
  mkHook q0 q1 q2 q3 q4 q5 q6 q7 q8 q9 q10 q11 q12 q13 q14 q15 q16 q17 q18 q19 q20 q21 q22 q23 q24 q25 q26 q27 q28 q29 q30 q31 q32 q33 q34 v q36 q37 q38.
Definition set_sources (v : list BufferSource) (s : Hook) : Hook :=
  let '(mkHook q0 q1 q2 q3 q4 q5 q6 q7 q8 q9 q10 q11 q12 q13 q14 q15 q16 q17 q18 q19 q20 q21 q22 q23 q24 q25 q26 q27 q28 q29 q30 q31 q32 q33 q34 q35 q36 q37 q38) := s in
  mkHook q0 q1 q2 q3 q4 q5 q6 q7 q8 q9 q10 q11 q12 q13 q14 q15 q16 q17 q18 q19 q20 q21 q22 q23 q24 q25 q26 q27 q28 q29 q30 q31 q32 q33 q34 q35 v q37 q38.
Definition set_pendingUserMedia (v : nat) (s : Hook) : Hook :=
  let '(mkHook q0 q1 q2 q3 q4 q5 q6 q7 q8 q9 q10 q11 q12 q13 q14 q15 q16 q17 q18 q19 q20 q21 q22 q23 q24 q25 q26 q27 q28 q29 q30 q31 q32 q33 q34 q35 q36 q37 q38) := s in
  mkHook q0 q1 q2 q3 q4 q5 q6 q7 q8 q9 q10 q11 q12 q13 q14 q15 q16 q17 q18 q19 q20 q21 q22 q23 q24 q25 q26 q27 q28 q29 q30 q31 q32 q33 q34 q35 q36 v q38.
Definition set_effects (v : list Effect) (s : Hook) : Hook :=
  let '(mkHook q0 q1 q2 q3 q4 q5 q6 q7 q8 q9 q10 q11 q12 q13 q14 q15 q16 q17 q18 q19 q20 q21 q22 q23 q24 q25 q26 q27 q28 q29 q30 q31 q32 q33 q34 q35 q36 q37 q38) := s in
  mkHook q0 q1 q2 q3 q4 q5 q6 q7 q8 q9 q10 q11 q12 q13 q14 q15 q16 q17 q18 q19 q20 q21 q22 q23 q24 q25 q26 q27 q28 q29 q30 q31 q32 q33 q34 q35 q36 q37 v.

(** The state before the first effect runs: the initialisers of every
    [useState] and [useRef]. *)
Definition fresh : Hook := {|
  isConnected := false;
  appState := idle;
  transcript := "";
  emotion := NEUTRAL;
  messages := [];
  error := None;
  streamingAiText := "";
  isAiProcessing := false;
  isConversationActive := false;
  inputAnalyser := None;
  outputAnalyser := None;
  socketRef := None;
  reconnectTimeoutRef := None;
  reconnectAttemptRef := 0;
  mediaRecorderRef := None;
  audioContextRef := false;
  audioQueueRef := [];
  isPlayingRef := false;
  mediaStreamRef := None;
  isConversationActiveRef := false;
  lastVoiceActivityAtRef := None;
  didAutoStopSegmentRef := false;
  currentAiAudioChunksRef := [];
  userRecordedAudioRef := [];
  isConnectingRef := false;
  appStateRef := idle;
  isMounted := true;
  silenceDeps := None;
  silenceInterval := None;
  timers := [];
  nextTimerId := 1%positive;
  recorders := [];
  streams := [];
  analysers := 0%nat;
  readers := [];
  decodes := [];
  sources := [];
  pendingUserMedia := 0%nat;
  effects := []
|}.

Definition perform (e : Effect) (s : Hook) : Hook :=
  set_effects (effects s ++ [e]) s.

(** ** WebSocket connection *)

(** [socket.send(...)] behind [socketRef.current?.readyState === WebSocket.OPEN]. *)
Definition socket_is_open (s : Hook) : bool :=
  bool_decide (socketRef s = Some OPEN).

(** [window.setTimeout(callback, delayMs)] stored in [reconnectTimeoutRef]. *)
Definition setTimeout (delayMs : Z) (s : Hook) : Hook :=
  let id := nextTimerId s in
  let s := set_timers (timers s ++ [(id, delayMs)]) s in
  let s := set_nextTimerId (Pos.succ id) s in
  set_reconnectTimeoutRef (Some id) s.

Definition clearTimeout (id : positive) (s : Hook) : Hook :=
  set_timers (filter (fun t => t.1 <> id) (timers s)) s.

(** The delay of the pending timer [reconnectTimeoutRef] points to (the
    most recent one of that id). *)
Definition scheduledDelay (s : Hook) : option Z :=
  match reconnectTimeoutRef s with
  | Some id => snd <$> head (filter (fun t => t.1 = id) (reverse (timers s)))
  | None => None
  end.

(** [connect]: guarded against re-entrance; cancels a pending reconnect,
    drops the previous socket ([onclose = null; close()]) and opens a new
    one, which starts in [CONNECTING]. *)
Definition connect (s : Hook) : Hook :=
  if isConnectingRef s then s
  else
    let s := set_isConnectingRef true s in
    let s := match reconnectTimeoutRef s with
             | Some id => set_reconnectTimeoutRef None (clearTimeout id s)
             | None => s
             end in
    let s := match socketRef s with
             | Some _ => set_socketRef None s
             | None => s
             end in
    set_socketRef (Some CONNECTING) s.

Definition socket_onopen (s : Hook) : Hook :=
  if negb (isMounted s) then s
  else
    let s := set_isConnected true s in
    let s := set_error None s in
    let s := set_reconnectAttemptRef 0 s in
    set_isConnectingRef false s.

Definition socket_onclose (s : Hook) : Hook :=
  if negb (isMounted s) then s
  else
    let s := set_isConnected false s in
    let s := set_isConnectingRef false s in
    let attempt := reconnectAttemptRef s + 1 in
    let s := set_reconnectAttemptRef attempt s in
    let delayMs := Z.min 5000 (500 * attempt) in
    setTimeout delayMs s.

(** The callback given to [setTimeout] in [socket.onclose]. *)
Definition reconnect_callback (s : Hook) : Hook :=
  if isMounted s then connect s else s.

(** [socket.onerror]; its [socket.close()] moves the socket to [CLOSING]. *)
Definition socket_onerror (s : Hook) : Hook :=
  let s := if isMounted s
           then set_error (Some "Kết nối thất bại. Đang thử lại...") s
           else s in
  let s := set_isConnectingRef false s in
  set_socketRef (Some CLOSING) s.

(** ** Messages *)

Definition addMessage (type : Role) (text : string) (audioData : option string)
    (now : Stamp) (s : Hook) : Hook :=
  set_messages
    (messages s ++
       [ {| Message.id := Date_now now;
            Message.type := type;
            Message.text := text;
            Message.timestamp := toLocaleTimeString now;
            Message.audioData := audioData |} ]) s.

(** ** Recording *)

(** [mediaRecorderRef.current?.state]. *)
Definition mediaRecorder_state (s : Hook) : option RecordingState :=
  match mediaRecorderRef s with
  | Some r => rec_state <$> recorders s !! r
  | None => None
  end.

(** [mediaRecorder.stop()] on recorder [r]: the state becomes [inactive] at
    once, the final [dataavailable] and the [stop] event follow later. *)
Definition MediaRecorder_stop (r : nat) (s : Hook) : Hook :=
  match recorders s !! r with
  | Some rec =>
      let s := set_recorders
                 (<[r := mkRecorder inactive (chunks rec) true]> (recorders s)) s in
      perform (recorder_stop r) s
  | None => s
  end.

(** [mediaStreamRef.current.getTracks().forEach(track => track.stop())]
    followed by [mediaStreamRef.current = null], when the ref is set. *)
Definition release_stream (s : Hook) : Hook :=
  match mediaStreamRef s with
  | Some st =>
      let s := set_streams (<[st := false]> (streams s)) s in
      let s := perform (tracks_stop st) s in
      set_mediaStreamRef None s
  | None => s
  end.

(** [_startMediaRecorder] up to [await getUserMedia]: nothing to do when
    the current recorder is recording, else the device is requested. *)
Definition _startMediaRecorder (s : Hook) : Hook :=
  if bool_decide (mediaRecorder_state s = Some recording) then s
  else
    let s := set_pendingUserMedia (S (pendingUserMedia s)) s in
    perform getUserMedia s.

(** [_startMediaRecorder] after [getUserMedia] has resolved with a stream:
    analyser, voice-activity clock and guard flag, a new recorder with an
    empty [chunks] array, then [listening]. *)
Definition _startMediaRecorder_resolved (now : Z) (s : Hook) : Hook :=
  let stream := length (streams s) in
  let s := set_streams (streams s ++ [true]) s in
  let s := set_mediaStreamRef (Some stream) s in
  let s := set_audioContextRef true s in
  let analyser := analysers s in
  let s := set_analysers (S analyser) s in
  let s := set_inputAnalyser (Some analyser) s in
  let s := set_lastVoiceActivityAtRef (Some now) s in
  let s := set_didAutoStopSegmentRef false s in
  let mediaRecorder := length (recorders s) in
  let s := set_recorders (recorders s ++ [mkRecorder recording [] false]) s in
  let s := set_mediaRecorderRef (Some mediaRecorder) s in
  let s := set_appState listening s in
  set_transcript "" s.

(** The [catch] block of [_startMediaRecorder]. *)
Definition _startMediaRecorder_rejected (s : Hook) : Hook :=
  let s := set_error (Some "Không thể truy cập microphone") s in
  set_isConversationActiveRef false s.

(** [_startMediaRecorder] after [getUserMedia] has resolved with a stream,
    when [new MediaRecorder(...)] or [mediaRecorder.start(100)] throws: the
    stream, the analyser, the voice-activity clock and the guard flag have
    been set, no recorder is stored and the state is not changed; the
    [catch] block runs and the stream stays live. *)
Definition _startMediaRecorder_failed (now : Z) (s : Hook) : Hook :=
  let stream := length (streams s) in
  let s := set_streams (streams s ++ [true]) s in
  let s := set_mediaStreamRef (Some stream) s in
  let s := set_audioContextRef true s in
  let analyser := analysers s in
  let s := set_analysers (S analyser) s in
  let s := set_inputAnalyser (Some analyser) s in
  let s := set_lastVoiceActivityAtRef (Some now) s in
  let s := set_didAutoStopSegmentRef false s in
  _startMediaRecorder_rejected s.

Definition startRecording (s : Hook) : Hook :=
  let s := set_isConversationActiveRef true s in
  let s := set_isConversationActive true s in
  _startMediaRecorder s.

Definition stopMediaRecorder (s : Hook) : Hook :=
  let s := match mediaRecorderRef s, mediaRecorder_state s with
           | Some r, Some st =>
               if bool_decide (st <> inactive) then MediaRecorder_stop r s else s
           | _, _ => s
           end in
  release_stream s.

Definition stopRecording (s : Hook) : Hook :=
  let s := set_isConversationActiveRef false s in
  let s := set_isConversationActive false s in
  stopMediaRecorder s.

(** [mediaRecorder.ondataavailable] of recorder [r]. *)
Definition ondataavailable (r : nat) (data : Blob) (s : Hook) : Hook :=
  if (0 <? length data)%nat then
    match recorders s !! r with
    | Some rec =>
        let s := set_recorders
                   (<[r := mkRecorder (rec_state rec) (chunks rec ++ [data])
                             (stop_pending rec)]> (recorders s)) s in
        set_userRecordedAudioRef (userRecordedAudioRef s ++ [data]) s
    | None => s
    end
  else s.

(** [mediaRecorder.onstop] of recorder [r]: nothing when no chunk was
    kept, else one blob of all chunks is handed to a [FileReader]. *)
Definition onstop (r : nat) (s : Hook) : Hook :=
  match recorders s !! r with
  | Some rec =>
      if (length (chunks rec) =? 0)%nat then s
      else
        let audioBlob := new_Blob (chunks rec) in
        set_readers (readers s ++ [mkReader audioBlob send_audio_complete false]) s
  | None => s
  end.

(** [reader.onloadend] of the reader created in [onstop]. *)
Definition onloadend_send (rd : FileReader) (s : Hook) : Hook :=
  let base64Audio := dataURL_payload (readAsDataURL "audio/webm" (reader_blob rd)) in
  if socket_is_open s
  then perform (socket_send (audio_complete base64Audio "audio/webm")) s
  else s.

(** [reader.onloadend] of the reader created for a final transcript. *)
Definition onloadend_attach (rd : FileReader) (text : string) (now : Stamp)
    (s : Hook) : Hook :=
  let base64String := dataURL_payload (readAsDataURL "audio/webm" (reader_blob rd)) in
  let s := addMessage user text base64String now s in
  set_userRecordedAudioRef [] s.

(** ** Playback queue *)

(** The updater given to [setMessages] when the queue has drained. *)
Definition backfill (combinedAudio : string) (prev : list Message.t)
    : list Message.t :=
  match list.last prev with
  | Some lastMsg =>
      match Message.type lastMsg with
      | ai =>
          if truthy (Message.audioData lastMsg) then prev
          else
            <[pred (length prev) :=
                {| Message.id := Message.id lastMsg;
                   Message.type := Message.type lastMsg;
                   Message.text := Message.text lastMsg;
                   Message.timestamp := Message.timestamp lastMsg;
                   Message.audioData := Some combinedAudio |}]> prev
      | user => prev
      end
  | None => prev
  end.

(** [playNextInQueue] up to [await decodeAudioData]. *)
Definition playNextInQueue (s : Hook) : Hook :=
  match audioQueueRef s with
  | [] =>
      let s := set_isPlayingRef false s in
      let s := set_outputAnalyser None s in
      let s :=
        if (0 <? length (currentAiAudioChunksRef s))%nat then
          let combinedAudio := join "|" (currentAiAudioChunksRef s) in
          let s := set_messages (backfill combinedAudio (messages s)) s in
          set_currentAiAudioChunksRef [] s
        else s in
      if bool_decide (appStateRef s = speaking) then
        if isConversationActiveRef s then _startMediaRecorder s
        else
          let s := set_appState idle s in
          set_emotion NEUTRAL s
      else s
  | nextBuffer :: rest =>
      let s := set_isPlayingRef true s in
      let s := set_appState speaking s in
      let s := set_audioContextRef true s in
      let s := set_audioQueueRef rest s in
      set_decodes (decodes s ++ [mkDecode nextBuffer decoding]) s
  end.

(** [playNextInQueue] after [decodeAudioData] has resolved: a source with
    a new analyser is started. *)
Definition playNextInQueue_decoded (nextBuffer : ArrayBuffer) (s : Hook) : Hook :=
  let analyser := analysers s in
  let s := set_analysers (S analyser) s in
  let s := set_outputAnalyser (Some analyser) s in
  let source := length (sources s) in
  let s := set_sources (sources s ++ [mkSource nextBuffer false]) s in
  perform (source_start source) s.

Definition queueAudio (buffer : ArrayBuffer) (s : Hook) : Hook :=
  let s := set_audioQueueRef (audioQueueRef s ++ [buffer]) s in
  if negb (isPlayingRef s) then playNextInQueue s else s.

(** ** Inbound frames *)

Definition handleWebSocketMessage (data : WebSocketMessage.t) (now : Stamp)
    (s : Hook) : Hook :=
  match WebSocketMessage.type data with
  | WebSocketMessage.recording_started =>
      let s := set_appState listening s in
      let s := set_transcript "" s in
      set_userRecordedAudioRef [] s
  | WebSocketMessage.recording_stopped => s
  | WebSocketMessage.transcript =>
      if truthy (WebSocketMessage.text data) then
        let text := default "" (WebSocketMessage.text data) in
        let s := set_transcript text s in
        if truthy_bool (WebSocketMessage.isFinal data) then
          let s :=
            if (0 <? length (userRecordedAudioRef s))%nat then
              let audioBlob := new_Blob (userRecordedAudioRef s) in
              set_readers
                (readers s ++ [mkReader audioBlob (attach_user_audio text) false]) s
            else addMessage user text None now s in
          set_appState processing s
        else s
      else s
  | WebSocketMessage.ai_processing =>
      let s := set_isAiProcessing (default true (WebSocketMessage.isProcessing data)) s in
      set_streamingAiText "" s
  | WebSocketMessage.ai_stream_chunk =>
      if truthy (WebSocketMessage.text data) then
        let s := set_streamingAiText (default "" (WebSocketMessage.text data)) s in
        set_isAiProcessing false s
      else s
  | WebSocketMessage.ai_response =>
      if truthy (WebSocketMessage.text data) then
        let combinedAudio :=
          if (0 <? length (currentAiAudioChunksRef s))%nat
          then Some (join "|" (currentAiAudioChunksRef s))
          else None in
        let s := addMessage ai (default "" (WebSocketMessage.text data))
                   combinedAudio now s in
        let s := set_currentAiAudioChunksRef [] s in
        let s := set_streamingAiText "" s in
        let s := set_isAiProcessing false s in
        let s := match WebSocketMessage.emotion data with
                 | Some e => set_emotion e s
                 | None => s
                 end in
        set_appState speaking s
      else s
  | WebSocketMessage.audio =>
      if truthy (WebSocketMessage.data data) then
        let d := default "" (WebSocketMessage.data data) in
        let s := set_currentAiAudioChunksRef (currentAiAudioChunksRef s ++ [d]) s in
        match atob d with
        | Some bytes => queueAudio bytes s
        | None => s
        end
      else s
  | WebSocketMessage.user_speaking =>
      let s := set_audioQueueRef [] s in
      if isPlayingRef s then
        let s := set_isPlayingRef false s in
        set_appState listening s
      else s
  | WebSocketMessage.error | WebSocketMessage.stt_error =>
      let message :=
        if truthy (WebSocketMessage.message data)
        then default "" (WebSocketMessage.message data)
        else "Có lỗi xảy ra" in
      let s := set_error (Some message) s in
      set_appState idle s
  | WebSocketMessage.unknown => s
  end.

Definition sendChatMessage (text : string) (now : Stamp) (s : Hook) : Hook :=
  let trimmed := trim text in
  if String.eqb trimmed "" then s
  else
    let s := stopMediaRecorder s in
    let s := set_transcript "" s in
    let s := addMessage user trimmed None now s in
    let s := set_appState processing s in
    if socket_is_open s
    then perform (socket_send (chat_message trimmed)) s
    else
      let s := set_error (Some "Chưa kết nối tới server") s in
      set_appState idle s.

(** [updateSettings]; the settings object is forwarded as it is and is kept
    here as its JSON text. *)
Definition updateSettings (newSettings : string) (s : Hook) : Hook :=
  if socket_is_open s
  then perform (socket_send (update_settings newSettings)) s
  else s.

(** ** Silence detection *)

Definition SILENCE_MS : Z := 1500.

(** [sumSquares] of the loop, scaled by [128 * 128]: the sum of
    [(dataArray[i] - 128)^2]. *)
Definition sumSquares (dataArray : list Z) : Z :=
  foldl (fun acc d => acc + (d - 128) * (d - 128)) 0 dataArray.

(** [rms > RMS_THRESHOLD] with [rms = sqrt(sumSquares / dataArray.length)],
    samples [v = (d - 128) / 128] and [RMS_THRESHOLD = 0.01], compared
    exactly: [sqrt(S / (16384 n)) > 1/100] iff [10000 S > 16384 n].  For an
    empty array the source compares [NaN], which is false, as here. *)
Definition rms_above_threshold (dataArray : list Z) : bool :=
  16384 * Z.of_nat (length dataArray) <? 10000 * sumSquares dataArray.

(** The callback of [window.setInterval(..., 100)]; [now] is
    [performance.now()] and [dataArray] what [getByteTimeDomainData] wrote. *)
Definition silence_tick (now : Z) (dataArray : list Z) (s : Hook) : Hook :=
  if bool_decide (appStateRef s <> listening) then s
  else if bool_decide (mediaRecorder_state s <> Some recording) then s
  else if rms_above_threshold dataArray then
    set_lastVoiceActivityAtRef (Some now) s
  else
    match lastVoiceActivityAtRef s with
    | None => set_lastVoiceActivityAtRef (Some now) s
    | Some last =>
        if negb (didAutoStopSegmentRef s) && (SILENCE_MS <=? now - last) then
          let s := set_didAutoStopSegmentRef true s in
          let s := set_appState processing s in
          let s := match mediaRecorderRef s with
                   | Some r =>
                       if bool_decide (mediaRecorder_state s = Some recording)
                       then MediaRecorder_stop r s else s
                   | None => s
                   end in
          release_stream s
        else s
    end.

(** The silence-detection [useEffect], with dependencies
    [[appState, inputAnalyser]]: when they changed since its last run, the
    previous interval is cleared and a new one is installed if the gate
    passes. *)
Definition silence_effect (s : Hook) : Hook :=
  let deps := (appState s, inputAnalyser s) in
  if bool_decide (silenceDeps s = Some deps) then s
  else
    let s := set_silenceInterval None s in
    let s := set_silenceDeps (Some deps) s in
    match inputAnalyser s with
    | Some a =>
        if bool_decide (appState s = listening) && isConversationActiveRef s
        then set_silenceInterval (Some a) s
        else s
    | None => s
    end.

(** ** The event loop *)

(** What React does once a callback has returned: the render is committed,
    [appStateRef.current = appState] runs, then the silence-detection
    effect. *)
Definition commit (s : Hook) : Hook :=
  silence_effect (set_appStateRef (appState s) s).

(** The cleanups run at unmount.  [close()] leaves a socket that is
    already closed as it is. *)
Definition unmount (s : Hook) : Hook :=
  let s := set_isMounted false s in
  let s := match reconnectTimeoutRef s with
           | Some id => clearTimeout id s
           | None => s
           end in
  let s := match socketRef s with
           | Some CLOSED => s
           | Some _ => set_socketRef (Some CLOSING) s
           | None => s
           end in
  let s := set_isConnectingRef false s in
  set_silenceInterval None s.

Inductive Event :=
  | EvSocketOpen
  | EvSocketClose
  | EvSocketError
  | EvSocketMessage (parsed : option WebSocketMessage.t) (now : Stamp)
  | EvTimeout (id : positive)
  | EvStartRecording
  | EvStopRecording
  | EvSendChatMessage (text : string) (now : Stamp)
  | EvUpdateSettings (newSettings : string)
  | EvUserMedia (granted : bool) (now : Z)
  | EvDataAvailable (r : nat) (data : Blob)
  | EvRecorderStop (r : nat)
  | EvLoadEnd (reader : nat) (now : Stamp)
  | EvSilenceTick (now : Z) (dataArray : list Z)
  | EvDecoded (job : nat) (ok : bool)
  | EvEnded (source : nat)
  | EvUnmount
  | EvRecorderFailure (now : Z).

(** Delivery of one event to its callback.  An event the browser cannot
    produce in the current state (an [open] on a socket that is not
    connecting, the [stop] of a recorder that was not stopped, ...) leaves
    the state as it is.  [EvUserMedia true] is a microphone request granted
    with the recorder started, [EvUserMedia false] a request refused, and
    [EvRecorderFailure] a request granted whose recorder cannot be created
    or started. *)
Definition dispatch (e : Event) (s : Hook) : Hook :=
  match e with
  | EvSocketOpen =>
      if bool_decide (socketRef s = Some CONNECTING)
      then socket_onopen (set_socketRef (Some OPEN) s)
      else s
  | EvSocketClose =>
      match socketRef s with
      | Some st =>
          if bool_decide (st <> CLOSED)
          then socket_onclose (set_socketRef (Some CLOSED) s)
          else s
      | None => s
      end
  | EvSocketError =>
      match socketRef s with
      | Some st => if bool_decide (st <> CLOSED) then socket_onerror s else s
      | None => s
      end
  | EvSocketMessage parsed now =>
      match parsed with
      | Some data =>
          if socket_is_open s then handleWebSocketMessage data now s else s
      | None => s
      end
  | EvTimeout id =>
      if bool_decide (id ∈ (timers s).*1)
      then reconnect_callback (clearTimeout id s)
      else s
  | EvStartRecording => startRecording s
  | EvStopRecording => stopRecording s
  | EvSendChatMessage text now => sendChatMessage text now s
  | EvUpdateSettings newSettings => updateSettings newSettings s
  | EvUserMedia granted now =>
      match pendingUserMedia s with
      | S n =>
          let s := set_pendingUserMedia n s in
          if granted then _startMediaRecorder_resolved now s
          else _startMediaRecorder_rejected s
      | O => s
      end
  | EvDataAvailable r data =>
      match recorders s !! r with
      | Some rec =>
          if bool_decide (rec_state rec = recording) || stop_pending rec
          then ondataavailable r data s
          else s
      | None => s
      end
  | EvRecorderStop r =>
      match recorders s !! r with
      | Some rec =>
          if stop_pending rec then
            onstop r
              (set_recorders
                 (<[r := mkRecorder (rec_state rec) (chunks rec) false]>
                    (recorders s)) s)
          else s
      | None => s
      end
  | EvLoadEnd i now =>
      match readers s !! i with
      | Some rd =>
          if loaded rd then s
          else
            let s := set_readers
                       (<[i := mkReader (reader_blob rd) (onloadend rd) true]>
                          (readers s)) s in
            match onloadend rd with
            | send_audio_complete => onloadend_send rd s
            | attach_user_audio text => onloadend_attach rd text now s
            end
      | None => s
      end
  | EvSilenceTick now dataArray =>
      match silenceInterval s with
      | Some _ => silence_tick now dataArray s
      | None => s
      end
  | EvDecoded job ok =>
      match decodes s !! job with
      | Some d =>
          if bool_decide (dec_status d = decoding) then
            let s := set_decodes
                       (<[job := mkDecode (dec_buffer d)
                                   (if ok then decoded else rejected)]>
                          (decodes s)) s in
            if ok then playNextInQueue_decoded (dec_buffer d) s
            else playNextInQueue s
          else s
      | None => s
      end
  | EvEnded i =>
      match sources s !! i with
      | Some src =>
          if ended src then s
          else
            let s := set_sources
                       (<[i := mkSource (src_buffer src) true]> (sources s)) s in
            playNextInQueue s
      | None => s
      end
  | EvUnmount => unmount s
  | EvRecorderFailure now =>
      match pendingUserMedia s with
      | S n => _startMediaRecorder_failed now (set_pendingUserMedia n s)
      | O => s
      end
  end.

(** One turn of the event loop.  The component is followed up to its
    unmount: what the browser may still deliver afterwards (a microphone
    grant, recorder and playback events, whose handlers do not test
    [isMounted]) is not part of the model, and such an event leaves the
    state as it is. *)
Definition step (s : Hook) (e : Event) : Hook :=
  if isMounted s then commit (dispatch e s) else s.

Definition run (s : Hook) (trace : list Event) : Hook :=
  foldl step s trace.

(** The state once the component has mounted: the connection effect has
    called [connect()]. *)
Definition mounted : Hook := commit (connect fresh).

(** ** Notions used to state the properties *)

(** A frame of the given type with every optional field absent. *)
Definition bare_frame (ty : WebSocketMessage.tag) : WebSocketMessage.t :=
  WebSocketMessage.mk ty None None None None None None.

(** A state on which [commit] has nothing left to do: [appStateRef] mirrors
    [appState] and the silence effect has run for the current dependencies.
    Every state produced by [step] is of this kind. *)
Definition committed (s : Hook) : Prop :=
  appStateRef s = appState s /\
  silenceDeps s = Some (appState s, inputAnalyser s).

(** The reconnect attempt made when the pending reconnect timer fires. *)
Definition retry (s : Hook) : Hook :=
  match reconnectTimeoutRef s with
  | Some id => step s (EvTimeout id)
  | None => s
  end.

(** [n] unexpected closes in a row: the socket closes, and each further
    close is that of the socket opened by the retry in between, which never
    got to open. *)
Fixpoint unexpected_closes (n : nat) (s : Hook) : Hook :=
  match n with
  | O => s
  | S n' =>
      let s' := unexpected_closes n' s in
      step (match n' with O => s' | S _ => retry s' end) EvSocketClose
  end.

(** The string has no comma. *)
Fixpoint no_comma (s : string) : Prop :=
  match s with
  | EmptyString => True
  | String c rest => c <> ","%char /\ no_comma rest
  end.

(** Sample windows for the silence detector: digital silence and a loud
    square wave, [fftSize = 256] samples each. *)
Definition silent_window : list Z := repeat 128 256.
Definition loud_window : list Z := repeat 200 256.

Definition stamp0 : Stamp := mkStamp "1700000000000" "10:00".

(** A hands-free turn up to the moment the reply has been played: the user
    starts the conversation, falls silent, the reply arrives and its one
    fragment is played to the end. *)
Definition handsfree_turn : list Event :=
  [ EvSocketOpen;
    EvStartRecording;
    EvUserMedia true 0;
    EvSilenceTick 1600 silent_window;
    EvSocketMessage
      (Some (WebSocketMessage.mk WebSocketMessage.ai_response (Some "Xin chào")
               None (Some HAPPY) None None None)) stamp0;
    EvSocketMessage
      (Some (WebSocketMessage.mk WebSocketMessage.audio None None None
               (Some "TWFu") None None)) stamp0;
    EvDecoded 0 true;
    EvEnded 0 ].



(** The event is an inbound [audio] frame. *)
Definition is_audio_frame (e : Event) : bool :=
  match e with
  | EvSocketMessage (Some data) _ =>
      bool_decide (WebSocketMessage.type data = WebSocketMessage.audio)
  | _ => false
  end.

(** The event is an inbound [user_speaking] frame. *)
Definition is_user_speaking_frame (e : Event) : bool :=
  match e with
  | EvSocketMessage (Some data) _ =>
      bool_decide (WebSocketMessage.type data = WebSocketMessage.user_speaking)
  | _ => false
  end.

(** The event interrupts playback: a [user_speaking] frame that arrives
    while the playing flag is set, that is while a fragment is being decoded
    or is playing. *)
Definition interrupts (s : Hook) (e : Event) : bool :=
  is_user_speaking_frame e && isPlayingRef s.

(** No event of the trace interrupts playback. *)
Fixpoint uninterrupted (s : Hook) (trace : list Event) : Prop :=
  match trace with
  | [] => True
  | e :: rest => interrupts s e = false /\ uninterrupted (step s e) rest
  end.

(** The user message [addMessage('user', text, audioData)] builds. *)
Definition user_message (text : string) (audioData : option string)
    (now : Stamp) : Message.t :=
  {| Message.id := Date_now now;
     Message.type := user;
     Message.text := text;
     Message.timestamp := toLocaleTimeString now;
     Message.audioData := audioData |}.

(** The frames sent so far, in order. *)
Definition sent_frames (s : Hook) : list OutFrame :=
  omap (fun e => match e with socket_send f => Some f | _ => None end)
       (effects s).

(** The chunks [ondataavailable] keeps: those of positive size. *)
Definition kept_chunks (datas : list Blob) : list Blob :=
  filter (fun b : Blob => (0 < length b)%nat) datas.

(** The chunks recorder [r] has kept so far, the [chunks] array its two
    handlers close over; none for a recorder that does not exist. *)
Definition recorder_chunks (r : nat) (s : Hook) : list Blob :=
  match recorders s !! r with
  | Some rec => chunks rec
  | None => []
  end.

(** Recorder [r] can still fire [dataavailable]: it is recording, or
    [stop()] was called on it and its [stop] event is still to come. *)
Definition recorder_live (r : nat) (s : Hook) : bool :=
  match recorders s !! r with
  | Some rec => bool_decide (rec_state rec = recording) || stop_pending rec
  | None => false
  end.

(** What recorder [r] captures in one event: the payload of its
    [dataavailable] event, when it is of positive size. *)
Definition captured_by (r : nat) (s : Hook) (e : Event) : list Blob :=
  match e with
  | EvDataAvailable r' data =>
      if isMounted s && bool_decide (r' = r) && recorder_live r s
      then kept_chunks [data]
      else []
  | _ => []
  end.

(** What recorder [r] captures along a trace, in capture order. *)
Fixpoint captured (r : nat) (s : Hook) (trace : list Event) : list Blob :=
  match trace with
  | [] => []
  | e :: rest => captured_by r s e ++ captured r (step s e) rest
  end.

(** The frames sent, and the file readers created, in the turn of an
    event. *)
Definition sent_in_turn (s : Hook) (e : Event) : list OutFrame :=
  drop (length (sent_frames s)) (sent_frames (step s e)).

Definition readers_created (s : Hook) (e : Event) : list FileReader :=
  drop (length (readers s)) (readers (step s e)).

(** The event is the [loadend] of reader [k]. *)
Definition is_load_of (k : nat) (e : Event) : bool :=
  match e with
  | EvLoadEnd i _ => bool_decide (i = k)
  | _ => false
  end.

(** A capture segment during which the connection is lost: one chunk is
    captured, then the socket closes, then the user stops. *)
Definition segment_with_lost_connection : list Event :=
  [ EvSocketOpen;
    EvStartRecording;
    EvUserMedia true 0;
    EvDataAvailable 0 ["a"%byte; "b"%byte];
    EvSocketClose;
    EvStopRecording;
    EvRecorderStop 0;
    EvLoadEnd 0 stamp0 ].

Definition is_recorder_stop (e : Effect) : bool :=
  match e with
  | recorder_stop _ => true
  | _ => false
  end.

(** Number of [mediaRecorder.stop()] calls made so far. *)
Definition stop_calls (s : Hook) : nat :=
  length (List.filter is_recorder_stop (effects s)).

(** The detector is armed for the segment whose voice-activity clock was
    started at [t0]: the silence effect has passed its gate and installed the
    polling interval, the session is listening, the current recorder is
    recording and the guard flag is down. *)
Definition silence_armed (s : Hook) (t0 : Z) : Prop :=
  isMounted s = true /\
  committed s /\
  appState s = listening /\
  silenceInterval s <> None /\
  mediaRecorder_state s = Some recording /\
  didAutoStopSegmentRef s = false /\
  lastVoiceActivityAtRef s = Some t0.

(** What goes on during a capture segment: polls of the detector and
    chunks delivered by recorders. *)
Definition segment_event (e : Event) : Prop :=
  match e with
  | EvSilenceTick _ _ | EvDataAvailable _ _ => True
  | _ => False
  end.

(** The input has stayed at or below the threshold for [SILENCE_MS] or
    more: some poll of the trace reads a window at or below the threshold
    [SILENCE_MS] or more after the last voice activity before it, which is
    the most recent poll above the threshold or, when there is none, [last]. *)
Fixpoint silence_lasted (last : Z) (trace : list Event) : bool :=
  match trace with
  | [] => false
  | EvSilenceTick now dataArray :: rest =>
      if rms_above_threshold dataArray then silence_lasted now rest
      else (SILENCE_MS <=? now - last) || silence_lasted last rest
  | _ :: rest => silence_lasted last rest
  end.

(** Analyser nodes are numbered in creation order; the ones the state
    refers to have been created. *)
Definition analysers_fresh (s : Hook) : Prop :=
  (forall a, inputAnalyser s = Some a -> (a < analysers s)%nat) /\
  (forall st a, silenceDeps s = Some (st, Some a) -> (a < analysers s)%nat).

(** The detector has fired for the current segment: the session is
    processing, the recorder has been stopped and the guard flag is up. *)
Definition silence_fired (s : Hook) : Prop :=
  isMounted s = true /\
  committed s /\
  appState s = processing /\
  mediaRecorder_state s = Some inactive /\
  didAutoStopSegmentRef s = true.

(** ** The playback sequencer *)

(** Every fragment that has entered the sequencer, oldest first: those
    taken out for decoding, then those still queued. *)
Definition pipeline (s : Hook) : list ArrayBuffer :=
  (dec_buffer <$> decodes s) ++ audioQueueRef s.

(** The fragment an event enqueues: the decoded payload of an [audio] frame
    delivered on the open socket. *)
Definition enqueued_by (s : Hook) (e : Event) : list ArrayBuffer :=
  match e with
  | EvSocketMessage (Some data) _ =>
      if isMounted s && socket_is_open s
         && bool_decide (WebSocketMessage.type data = WebSocketMessage.audio)
         && truthy (WebSocketMessage.data data)
      then match atob (default "" (WebSocketMessage.data data)) with
           | Some bytes => [bytes]
           | None => []
           end
      else []
  | _ => []
  end.

(** The fragments enqueued along a trace, in arrival order. *)
Fixpoint enqueued (s : Hook) (trace : list Event) : list ArrayBuffer :=
  match trace with
  | [] => []
  | e :: rest => enqueued_by s e ++ enqueued (step s e) rest
  end.





(** An [audio] frame carrying the given base64 payload. *)
Definition audio_frame (payload : string) : Event :=
  EvSocketMessage
    (Some (WebSocketMessage.mk WebSocketMessage.audio None None None
             (Some payload) None None)) stamp0.

(** Three fragments arrive; the first decodes before the third arrives,
    the second fails to decode, the third decodes and plays. *)
Definition three_fragments : list Event :=
  [ EvSocketOpen;
    audio_frame "TWFu";
    audio_frame "TWE=";
    EvDecoded 0 true;
    audio_frame "TQ==";
    EvEnded 0;
    EvDecoded 1 false;
    EvDecoded 2 true;
    EvEnded 1 ].


(** A reply whose audio arrives after the [ai_response] frame; the last
    event, the end of the only fragment, drains the queue. *)
Definition late_audio : list Event :=
  [ EvSocketOpen;
    EvSocketMessage
      (Some (WebSocketMessage.mk WebSocketMessage.ai_response (Some "Xin chào")
               None (Some HAPPY) None None None)) stamp0;
    audio_frame "TWFu";
    EvDecoded 0 true ].

(** Playback interrupted by the user: a fragment is playing and another is
    queued when [user_speaking] arrives; the reply then continues with a new
    fragment. *)
Definition interrupted_playback : list Event :=
  [ EvSocketOpen;
    audio_frame "TWFu";
    audio_frame "TWE=";
    EvDecoded 0 true;
    EvSocketMessage (Some (bare_frame WebSocketMessage.user_speaking)) stamp0;
    audio_frame "TQ==";
    EvDecoded 1 true ].

(** ** Notions for the connection, the outbound frames and replay *)

(** The connection fields agree with the socket: a socket that is
    connecting holds the re-entrance guard; an open one shows as connected;
    once it has closed, and while the component is mounted, exactly one
    reconnect timer is pending, the one [reconnectTimeoutRef] names, with
    the backoff delay of the current attempt; in every other situation no
    timer is pending. *)
Definition connection_ok (s : Hook) : Prop :=
  match socketRef s with
  | Some CONNECTING =>
      isConnectingRef s = true /\ isConnected s = false /\ timers s = []
  | Some OPEN =>
      isConnectingRef s = false /\ isConnected s = true /\ timers s = []
  | Some CLOSING => isConnectingRef s = false /\ timers s = []
  | Some CLOSED =>
      isConnectingRef s = false /\ isConnected s = false /\
      if isMounted s
      then exists id,
             reconnectTimeoutRef s = Some id /\
             timers s = [(id, Z.min 5000 (500 * reconnectAttemptRef s))]
      else timers s = []
  | None => False
  end.

(** An outbound frame is well formed: an [audio_complete] frame carries the
    base64 text of a non-empty recording and the MIME type [audio/webm]; a
    [chat_message] frame carries a non-empty text that is the trimmed form of
    what was typed. *)
Definition frame_ok (f : OutFrame) : Prop :=
  match f with
  | audio_complete data mimeType =>
      mimeType = "audio/webm" /\
      exists blob : Blob, blob <> [] /\ data = Some (base64 blob)
  | chat_message text => text <> "" /\ exists typed, text = trim typed
  | update_settings _ => True
  end.

(** No empty chunk is buffered anywhere, no file reader holds an empty blob
    and every frame sent so far is well formed. *)
Definition capture_ok (s : Hook) : Prop :=
  Forall (Forall (fun b : Blob => b <> [])) (chunks <$> recorders s) /\
  Forall (fun b : Blob => b <> []) (userRecordedAudioRef s) /\
  Forall (fun b : Blob => b <> []) (reader_blob <$> readers s) /\
  Forall frame_ok (sent_frames s).

(** ** Replay of a message from the chat list

    [playAudio] of the [MessageList] component (in
    [src/frontend/src/components/AvatarSection.tsx]) is what reads the
    [audioData] the hook stores in a message. *)

(** [s.split(sep)] for a separator of one character; [acc] is the piece
    read so far. *)
Fixpoint split_char_aux (sep : ascii) (acc s : string) : list string :=
  match s with
  | EmptyString => [acc]
  | String c rest =>
      if Ascii.eqb c sep
      then acc :: split_char_aux sep "" rest
      else split_char_aux sep (acc +:+ String c "") rest
  end.

Definition split_char (sep : ascii) (s : string) : list string :=
  split_char_aux sep "" s.

(** What [playAudio] plays for a message's [audioData]: the pieces of
    [audioData.split('|')] in order, each through [window.atob]; a piece on
    which [atob] throws ([None]) is skipped by [playChunk]. *)
Definition playAudio_chunks (audioData : string) : list (option ArrayBuffer) :=
  atob <$> split_char "|" audioData.

(** ** White space

    The characters [String.prototype.trim] removes, the [WhiteSpace] and
    [LineTerminator] productions of ECMAScript, each as its UTF-8 text:
    U+0009 to U+000D, U+0020, U+00A0, U+1680, U+2000 to U+200A, U+2028,
    U+2029, U+202F, U+205F, U+3000 and U+FEFF. *)
Definition utf8 (bytes : list N) : string :=
  String.string_of_list_ascii (ascii_of_N <$> bytes).

Definition js_white_space : list string :=
  Eval cbv in
    utf8 <$>
      [ [9]; [10]; [11]; [12]; [13]; [32];
        [194; 160];
        [225; 154; 128];
        [226; 128; 128]; [226; 128; 129]; [226; 128; 130]; [226; 128; 131];
        [226; 128; 132]; [226; 128; 133]; [226; 128; 134]; [226; 128; 135];
        [226; 128; 136]; [226; 128; 137]; [226; 128; 138];
        [226; 128; 168]; [226; 128; 169];
        [226; 128; 175];
        [226; 129; 159];
        [227; 128; 128];
        [239; 187; 191] ]%N.

(** The text is made of white-space characters only (the empty text
    included). *)
Definition white_space_only (text : string) : Prop :=
  exists ws, Forall (fun w => w ∈ js_white_space) ws /\
             text = foldr String.append "" ws.

(** ** [config/api.ts]: where the backend is

    The module [src/frontend/src/config/api.ts] computes the URL the hook
    opens its socket on.  Its constants are functions here, of the
    environment variable and of the page's location. *)

Definition BACKEND_PORT : string := "8668".

(** The string is a non-empty run of slashes: where [/\/+$/] matches when
    tried at the start of the string. *)
Fixpoint slashes_to_end (s : string) : bool :=
  match s with
  | EmptyString => false
  | String c rest =>
      Ascii.eqb c "/" &&
      match rest with
      | EmptyString => true
      | String _ _ => slashes_to_end rest
      end
  end.

(** [s.replace(/\/+$/, '')]: the leftmost match, the whole run of slashes
    at the end of [s], is removed. *)
Fixpoint strip_trailing_slashes (s : string) : string :=
  match s with
  | EmptyString => EmptyString
  | String c rest =>
      if slashes_to_end s then EmptyString
      else String c (strip_trailing_slashes rest)
  end.

(** [s] without the prefix [p], when it starts with it. *)
Fixpoint strip_prefix (p s : string) : option string :=
  match p, s with
  | EmptyString, _ => Some s
  | String a p', String b s' =>
      if Ascii.eqb a b then strip_prefix p' s' else None
  | String _ _, EmptyString => None
  end.

(** [s.replace(/^p/, r)] for a literal [p]. *)
Definition replace_prefix (p r s : string) : string :=
  match strip_prefix p s with
  | Some rest => r +:+ rest
  | None => s
  end.

(** [resolveApiBaseUrl], as a function of [import.meta.env.VITE_API_URL]
    and of [window.location]'s [hostname], [protocol] and [origin]. *)
Definition resolveApiBaseUrl (envUrl : option string)
    (hostname protocol origin : string) : string :=
  if truthy envUrl && negb (String.eqb (trim (default "" envUrl)) "") then
    strip_trailing_slashes (default "" envUrl)
  else
    let isLocal :=
      String.eqb hostname "localhost" || String.eqb hostname "127.0.0.1" in
    if isLocal then protocol +:+ "//" +:+ hostname +:+ ":" +:+ BACKEND_PORT
    else origin.

Definition WS_CHAT_URL (API_BASE_URL : string) : string :=
  replace_prefix "https:" "wss:" (replace_prefix "http:" "ws:" API_BASE_URL)
  +:+ "/ws/chat".

Definition EMOJI_BASE_URL (API_BASE_URL : string) : string :=
  API_BASE_URL +:+ "/emojis".

Definition TTS_API_URL (API_BASE_URL : string) : string :=
  API_BASE_URL +:+ "/api/tts".

(** [n] slashes. *)
Definition slashes (n : nat) : string :=
  String.string_of_list_ascii (replicate n "/"%char).

(** What a message shows in the chat, its audio apart. *)
Definition shown (m : Message.t) : string * Role * string * string :=
  (Message.id m, Message.type m, Message.text m, Message.timestamp m).

(** ** What moves the session from one [appState] to another *)

(** The inbound frame an event delivers to the handler, if any: a parsed
    frame arriving on the open socket of a mounted component. *)
Definition delivered (s : Hook) (e : Event) : option WebSocketMessage.t :=
  match e with
  | EvSocketMessage (Some data) _ =>
      if isMounted s && socket_is_open s then Some data else None
  | _ => None
  end.

(** The event makes [playNextInQueue] run at the end of a fragment: a
    decode that failed or a source that ended. *)
Definition ends_fragment (s : Hook) (e : Event) : Prop :=
  match e with
  | EvDecoded job ok =>
      ok = false /\
      exists d, decodes s !! job = Some d /\ dec_status d = decoding
  | EvEnded i => exists src, sources s !! i = Some src /\ ended src = false
  | _ => False
  end.

(** The places that call [setAppState('listening')]: a microphone request
    granted with the recorder started, a [recording_started] frame, a
    [user_speaking] frame during playback. *)
Definition enters_listening (s : Hook) (e : Event) : Prop :=
  (exists now, e = EvUserMedia true now /\ (0 < pendingUserMedia s)%nat) \/
  (exists data, delivered s e = Some data /\
     (WebSocketMessage.type data = WebSocketMessage.recording_started \/
      (WebSocketMessage.type data = WebSocketMessage.user_speaking /\
       isPlayingRef s = true))).

(** The places that call [setAppState('speaking')]: an [ai_response] frame
    with a text, and [playNextInQueue] finding a fragment to play (on an
    [audio] frame arriving while nothing plays, or at the end of a fragment
    with more queued). *)
Definition enters_speaking (s : Hook) (e : Event) : Prop :=
  (exists data, delivered s e = Some data /\
     ((WebSocketMessage.type data = WebSocketMessage.ai_response /\
       truthy (WebSocketMessage.text data) = true) \/
      (WebSocketMessage.type data = WebSocketMessage.audio /\
       truthy (WebSocketMessage.data data) = true /\
       atob (default "" (WebSocketMessage.data data)) <> None /\
       isPlayingRef s = false))) \/
  (ends_fragment s e /\ audioQueueRef s <> []).

(** The places that call [setAppState('processing')]: a final transcript
    with a text, a typed message sent on the open socket, and the silence
    auto-stop (a poll that passes its guards, reads a window at or below the
    threshold and finds [SILENCE_MS] elapsed with the guard flag down). *)
Definition enters_processing (s : Hook) (e : Event) : Prop :=
  (exists data, delivered s e = Some data /\
     WebSocketMessage.type data = WebSocketMessage.transcript /\
     truthy (WebSocketMessage.text data) = true /\
     truthy_bool (WebSocketMessage.isFinal data) = true) \/
  (exists text now, e = EvSendChatMessage text now /\ trim text <> "" /\
     socketRef s = Some OPEN) \/
  (exists now dataArray last,
     e = EvSilenceTick now dataArray /\ silenceInterval s <> None /\
     appStateRef s = listening /\ mediaRecorder_state s = Some recording /\
     rms_above_threshold dataArray = false /\
     lastVoiceActivityAtRef s = Some last /\ SILENCE_MS <= now - last /\
     didAutoStopSegmentRef s = false).

(** The places that call [setAppState('idle')]: an [error] or [stt_error]
    frame, a typed message while the socket is not open, and the playback
    queue running dry in [speaking] with no conversation active. *)
Definition enters_idle (s : Hook) (e : Event) : Prop :=
  (exists data, delivered s e = Some data /\
     (WebSocketMessage.type data = WebSocketMessage.error \/
      WebSocketMessage.type data = WebSocketMessage.stt_error)) \/
  (exists text now, e = EvSendChatMessage text now /\ trim text <> "" /\
     socketRef s <> Some OPEN) \/
  (ends_fragment s e /\ audioQueueRef s = [] /\ appStateRef s = speaking /\
   isConversationActiveRef s = false).

(** The places that set [appState] to the given value. *)
Definition entry_of (st : AppState) : Hook -> Event -> Prop :=
  match st with
  | listening => enters_listening
  | speaking => enters_speaking
  | processing => enters_processing
  | idle => enters_idle
  end.

(** ** What makes the hook send a frame or ask for the microphone *)

(** The frames among the calls made. *)
Definition frames_of (es : list Effect) : list OutFrame :=
  omap (fun e => match e with socket_send f => Some f | _ => None end) es.

(** The event that accounts for a frame: a typed message for a
    [chat_message] with its trimmed text, [updateSettings] for an
    [update_settings] with the settings it was given, and for an
    [audio_complete] the [loadend] of a reader created by a recorder's
    [onstop], whose blob the frame carries in base64. *)
Definition frame_cause (s : Hook) (e : Event) (f : OutFrame) : Prop :=
  match f with
  | chat_message t =>
      exists text now, e = EvSendChatMessage text now /\ t = trim text /\ t <> ""
  | update_settings x => e = EvUpdateSettings x
  | audio_complete d m =>
      exists i now rd,
        e = EvLoadEnd i now /\ readers s !! i = Some rd /\
        onloadend rd = send_audio_complete /\ loaded rd = false /\
        d = Some (base64 (reader_blob rd)) /\ m = "audio/webm"
  end.

(** The two places that call [_startMediaRecorder]: [startRecording], and
    [playNextInQueue] when the queue has run dry in [speaking] while the
    conversation is active. *)
Definition requests_microphone (s : Hook) (e : Event) : Prop :=
  e = EvStartRecording \/
  (ends_fragment s e /\ audioQueueRef s = [] /\ appStateRef s = speaking /\
   isConversationActiveRef s = true).

(** ** The streamed reply *)

(** The streamed reply text and the thinking flag, as the chat shows them. *)
Definition streaming (s : Hook) : string * bool :=
  (streamingAiText s, isAiProcessing s).

(** What the three frames that deal with the streamed reply make of them:
    [ai_processing] sets the flag ([true] when the frame does not say) and
    clears the text, [ai_stream_chunk] with a text replaces the text and
    lowers the flag, [ai_response] with a text clears both. *)
Definition streaming_after (data : WebSocketMessage.t) (s : Hook)
    : string * bool :=
  match WebSocketMessage.type data with
  | WebSocketMessage.ai_processing =>
      ("", default true (WebSocketMessage.isProcessing data))
  | WebSocketMessage.ai_stream_chunk =>
      if truthy (WebSocketMessage.text data)
      then (default "" (WebSocketMessage.text data), false)
      else streaming s
  | WebSocketMessage.ai_response =>
      if truthy (WebSocketMessage.text data) then ("", false) else streaming s
  | _ => streaming s
  end.

(** * Properties *)

(** [destruct] on a state, the fields named as in the record. *)
Ltac destruct_hook s :=
  destruct s as
    [isConnected appState transcript emotion messages
     error streamingAiText isAiProcessing isConversationActive inputAnalyser
     outputAnalyser socketRef reconnectTimeoutRef reconnectAttemptRef mediaRecorderRef
     audioContextRef audioQueueRef isPlayingRef mediaStreamRef isConversationActiveRef
     lastVoiceActivityAtRef didAutoStopSegmentRef currentAiAudioChunksRef userRecordedAudioRef isConnectingRef
     appStateRef isMounted silenceDeps silenceInterval timers
     nextTimerId recorders streams analysers readers
     decodes sources pendingUserMedia effects].

Ltac unfold_hook :=
  unfold step, commit, silence_effect, dispatch, handleWebSocketMessage,
    queueAudio, playNextInQueue, playNextInQueue_decoded, sendChatMessage,
    updateSettings, silence_tick, unmount, startRecording, stopRecording,
    stopMediaRecorder, _startMediaRecorder, _startMediaRecorder_resolved,
    _startMediaRecorder_rejected, _startMediaRecorder_failed, ondataavailable, onstop, onloadend_send,
    onloadend_attach, release_stream, MediaRecorder_stop, mediaRecorder_state,
    socket_onopen, socket_onclose, socket_onerror, reconnect_callback, connect,
    setTimeout, clearTimeout, addMessage, perform, socket_is_open in *.

Lemma truthy_false (x : option string) :
  truthy x = false <-> x = None \/ x = Some "".
Proof.
  destruct x as [t|]; cbn.
  - rewrite negb_false_iff, String.eqb_eq. split; [intros ->; by right|].
    intros [?|?]; congruence.
  - split; [by left|done].
Qed.

Lemma truthy_true (x : option string) :
  truthy x = true <-> exists t, x = Some t /\ t <> "".
Proof.
  destruct x as [t|]; cbn.
  - rewrite negb_true_iff, String.eqb_neq. split; [eauto|].
    intros (t' & [= ->] & ?); done.
  - split; [done|]. intros (? & ? & _); done.
Qed.

Lemma commit_committed s : committed s -> commit s = s.
Proof.
  intros [H1 H2]. destruct_hook s; cbn in *. subst.
  unfold commit, silence_effect; cbn.
  by rewrite bool_decide_eq_true_2.
Qed.

Lemma committed_commit s : committed (commit s).
Proof.
  destruct_hook s; unfold committed, commit, silence_effect; cbn.
  repeat (case_match; cbn); try done.
  all: by match goal with H : bool_decide _ = true |- _ =>
         apply bool_decide_eq_true_1 in H end.
Qed.

Lemma step_committed s e : isMounted s = true -> committed (step s e).
Proof. intros Hm. unfold step. rewrite Hm. apply committed_commit. Qed.

Lemma fmap_insert_same {A B} (f : A -> B) (l : list A) (i : nat) (x y : A) :
  l !! i = Some x -> f y = f x -> f <$> <[i := y]> l = f <$> l.
Proof.
  intros Hl Hf. rewrite list_fmap_insert, Hf.
  apply list_insert_id. by rewrite list_lookup_fmap, Hl.
Qed.

(** ** Frames without text *)

(** C10.  An [ai_response] frame whose [text] is missing or empty changes
    nothing: the handler returns the state it was given, so no AI message is
    appended, the emotion, [appState], the streamed text, the AI-processing
    flag and the buffered inbound fragments all stay as they were; on a
    committed state the whole turn of the event loop is the identity. *)
Theorem ai_response_without_text_ignored
    (data : WebSocketMessage.t) (now : Stamp) (s : Hook) :
  WebSocketMessage.type data = WebSocketMessage.ai_response ->
  WebSocketMessage.text data = None \/ WebSocketMessage.text data = Some "" ->
  handleWebSocketMessage data now s = s /\
  (committed s -> step s (EvSocketMessage (Some data) now) = s).
Proof.
  intros Hty Htxt. apply truthy_false in Htxt.
  assert (Hh : handleWebSocketMessage data now s = s).
  { unfold handleWebSocketMessage. by rewrite Hty, Htxt. }
  split; [exact Hh|].
  intros Hc. unfold step, dispatch. rewrite Hh.
  destruct (isMounted s); [|done].
  destruct (socket_is_open s); by apply commit_committed.
Qed.

Lemma ai_response_without_text_ignored_witness :
  let data := WebSocketMessage.mk WebSocketMessage.ai_response (Some "")
                None (Some HAPPY) None None None in
  let s := step mounted EvSocketOpen in
  handleWebSocketMessage data (mkStamp "1" "10:00") s = s /\
  (committed s -> step s (EvSocketMessage (Some data) (mkStamp "1" "10:00")) = s).
Proof.
  apply ai_response_without_text_ignored; [reflexivity|by right].
Defined.

(** ** Data URLs *)

Lemma append_cons (c : ascii) (a b : string) :
  String c a +:+ b = String c (a +:+ b).
Proof. reflexivity. Qed.

Lemma string_app_assoc (a b c : string) : (a +:+ b) +:+ c = a +:+ (b +:+ c).
Proof.
  induction a as [|x a IH]; [done|]. by rewrite !append_cons, IH.
Qed.

Lemma string_app_nil_r (a : string) : a +:+ "" = a.
Proof. induction a as [|x a IH]; [done|]. by rewrite append_cons, IH. Qed.

Lemma split_comma_aux_free (acc s : string) :
  no_comma s -> split_comma_aux acc s = [acc +:+ s].
Proof.
  revert acc. induction s as [|c s IH]; intros acc Hs; cbn.
  - by rewrite string_app_nil_r.
  - destruct Hs as [Hc Hs]. apply Ascii.eqb_neq in Hc.
    rewrite Hc, IH by done. by rewrite string_app_assoc.
Qed.

Lemma split_comma_aux_app (acc s1 s2 : string) :
  no_comma s1 ->
  split_comma_aux acc (s1 +:+ String ","%char s2) =
  (acc +:+ s1) :: split_comma_aux "" s2.
Proof.
  revert acc. induction s1 as [|c s1 IH]; intros acc Hs.
  - cbn. by rewrite string_app_nil_r.
  - destruct Hs as [Hc Hs]. apply Ascii.eqb_neq in Hc.
    rewrite append_cons. cbn [split_comma_aux].
    rewrite Hc, IH by done. by rewrite string_app_assoc.
Qed.

Lemma b64_digit_not_comma n : b64_digit n <> ","%char.
Proof.
  unfold b64_digit.
  assert (Hall : Forall (fun c => c <> ","%char) b64_alphabet).
  { unfold b64_alphabet; cbn. repeat constructor; discriminate. }
  destruct (nth_in_or_default (N.to_nat (N.land n 63)) b64_alphabet "A"%char)
    as [Hin| ->]; [|discriminate].
  rewrite List.Forall_forall in Hall. by apply Hall.
Qed.

Lemma base64_no_comma_upto (n : nat) (bs : list byte) :
  (length bs <= n)%nat -> no_comma (base64 bs).
Proof.
  revert bs. induction n as [|n IH]; intros [|a [|b [|c rest]]] Hlen;
    cbn [base64 length no_comma] in *; try lia; try done.
  - repeat split; first [apply b64_digit_not_comma|discriminate].
  - repeat split; first [apply b64_digit_not_comma|discriminate].
  - repeat (split; [apply b64_digit_not_comma|]). apply IH. lia.
Qed.

Lemma base64_no_comma bs : no_comma (base64 bs).
Proof. by apply (base64_no_comma_upto (length bs)). Qed.

(** [split(',')[1]] of the data URL of a blob is the base64 of its bytes. *)
Lemma dataURL_payload_base64 (b : Blob) :
  dataURL_payload (readAsDataURL "audio/webm" b) = Some (base64 b).
Proof.
  unfold dataURL_payload, readAsDataURL, split_comma.
  change ("data:" +:+ "audio/webm" +:+ ";base64," +:+ base64 b)
    with ("data:audio/webm;base64" +:+ String ","%char (base64 b)).
  rewrite split_comma_aux_app by (cbn; repeat split; discriminate).
  rewrite split_comma_aux_free by apply base64_no_comma. done.
Qed.

(** ** Reconnect backoff *)

Lemma scheduledDelay_last s id d l :
  reconnectTimeoutRef s = Some id ->
  timers s = l ++ [(id, d)] ->
  scheduledDelay s = Some d.
Proof.
  intros Hr Ht. unfold scheduledDelay. rewrite Hr, Ht, reverse_snoc.
  rewrite filter_cons_True by done. done.
Qed.

Lemma open_spec s :
  isMounted s = true -> socketRef s = Some CONNECTING ->
  let s' := step s EvSocketOpen in
  isMounted s' = true /\ socketRef s' = Some OPEN /\
  isConnectingRef s' = false /\ reconnectAttemptRef s' = 0 /\
  isConnected s' = true.
Proof.
  intros Hm Hs. destruct_hook s; cbn in *; subst. unfold_hook; cbn.
  repeat (case_match; cbn); done.
Qed.

Lemma close_spec s st :
  isMounted s = true -> socketRef s = Some st -> st <> CLOSED ->
  let s' := step s EvSocketClose in
  isMounted s' = true /\ socketRef s' = Some CLOSED /\
  isConnectingRef s' = false /\
  reconnectAttemptRef s' = reconnectAttemptRef s + 1 /\
  reconnectTimeoutRef s' = Some (nextTimerId s) /\
  timers s' =
    timers s ++ [(nextTimerId s, Z.min 5000 (500 * (reconnectAttemptRef s + 1)))].
Proof.
  intros Hm Hs Hst. destruct_hook s; cbn in *; subst. unfold_hook; cbn.
  rewrite (bool_decide_eq_true_2 (st <> CLOSED)) by done. cbn.
  repeat (case_match; cbn); done.
Qed.

Lemma retry_spec s id :
  isMounted s = true -> isConnectingRef s = false ->
  reconnectTimeoutRef s = Some id -> id ∈ (timers s).*1 ->
  let s' := retry s in
  isMounted s' = true /\ socketRef s' = Some CONNECTING /\
  reconnectAttemptRef s' = reconnectAttemptRef s.
Proof.
  intros Hm Hc Hr Hin. unfold retry. rewrite Hr.
  destruct_hook s; cbn in *; subst. unfold_hook; cbn.
  rewrite (bool_decide_eq_true_2 (id ∈ _)) by done. cbn.
  repeat (case_match; cbn); done.
Qed.

Lemma unexpected_closes_spec s n :
  isMounted s = true -> socketRef s = Some OPEN ->
  let s' := unexpected_closes (S n) s in
  isMounted s' = true /\ socketRef s' = Some CLOSED /\
  isConnectingRef s' = false /\
  reconnectAttemptRef s' = reconnectAttemptRef s + Z.of_nat (S n) /\
  exists id l,
    reconnectTimeoutRef s' = Some id /\
    timers s' =
      l ++ [(id, Z.min 5000 (500 * (reconnectAttemptRef s + Z.of_nat (S n))))].
Proof.
  intros Hm Hs. induction n as [|n IH].
  - cbn [unexpected_closes].
    destruct (close_spec s OPEN Hm Hs) as (?&?&?&?&?&?); [done|].
    repeat split; try done. eauto.
  - destruct IH as (Hm' & Hs' & Hc' & Ha' & id & l & Hr' & Ht').
    change (unexpected_closes (S (S n)) s)
      with (step (retry (unexpected_closes (S n) s)) EvSocketClose).
    set (c := unexpected_closes (S n) s) in *.
    destruct (retry_spec c id Hm' Hc' Hr') as (Hm2 & Hs2 & Ha2).
    { rewrite Ht', fmap_app, elem_of_app. right. constructor. }
    destruct (close_spec (retry c) CONNECTING Hm2 Hs2) as (?&?&?&Ha3&?&?); [done|].
    rewrite Ha2, Ha' in *.
    replace (reconnectAttemptRef s + Z.of_nat (S (S n)))
      with (reconnectAttemptRef s + Z.of_nat (S n) + 1) by lia.
    repeat split; try done. eauto.
Qed.

(** C3.  After a successful open the attempt counter is zero; after [N]
    consecutive unexpected closes it is [N] and the reconnect scheduled by
    the [N]th close has delay [min(5000, 500 * N)] ms; the next successful
    open resets the counter, and the close after that is retried after
    500 ms. *)
Theorem reconnect_backoff (s : Hook) (N : nat) :
  isMounted s = true ->
  socketRef s = Some CONNECTING ->
  (1 <= N)%nat ->
  let opened := step s EvSocketOpen in
  let closed := unexpected_closes N opened in
  let reopened := step (retry closed) EvSocketOpen in
  reconnectAttemptRef opened = 0 /\
  reconnectAttemptRef closed = Z.of_nat N /\
  scheduledDelay closed = Some (Z.min 5000 (500 * Z.of_nat N)) /\
  reconnectAttemptRef reopened = 0 /\
  scheduledDelay (step reopened EvSocketClose) = Some 500.
Proof.
  intros Hm Hs HN. destruct N as [|n]; [lia|]. clear HN.
  destruct (open_spec s Hm Hs) as (Hm1 & Hs1 & _ & Ha1 & _).
  destruct (unexpected_closes_spec _ n Hm1 Hs1)
    as (Hm2 & Hs2 & Hc2 & Ha2 & id & l & Hr2 & Ht2).
  cbv zeta. rewrite Ha1 in *. rewrite Z.add_0_l in *.
  set (closed := unexpected_closes (S n) (step s EvSocketOpen)) in *.
  destruct (retry_spec closed id Hm2 Hc2 Hr2) as (Hm3 & Hs3 & _).
  { rewrite Ht2, fmap_app, elem_of_app. right. constructor. }
  destruct (open_spec _ Hm3 Hs3) as (Hm4 & Hs4 & _ & Ha4 & _).
  destruct (close_spec _ OPEN Hm4 Hs4) as (_ & _ & _ & _ & Hr5 & Ht5); [done|].
  repeat split; try done.
  - by eapply scheduledDelay_last.
  - eapply scheduledDelay_last; [done|]. by rewrite Ht5, Ha4.
Qed.

Lemma reconnect_backoff_witness :
  let s := mounted in
  let opened := step s EvSocketOpen in
  let closed := unexpected_closes 12 opened in
  let reopened := step (retry closed) EvSocketOpen in
  reconnectAttemptRef opened = 0 /\
  reconnectAttemptRef closed = 12 /\
  scheduledDelay closed = Some (Z.min 5000 (500 * 12)) /\
  reconnectAttemptRef reopened = 0 /\
  scheduledDelay (step reopened EvSocketClose) = Some 500.
Proof.
  apply (reconnect_backoff mounted 12); [reflexivity|reflexivity|lia].
Defined.

(** ** Microphone failure *)

(** C9, the code breaks the claim.  In a hands-free conversation the reply
    has been played, the hook asks for the microphone again and the device
    is refused: the error is shown and the conversation-active ref is
    cleared, but the state stays [speaking], it is not reset to [idle], and
    the [isConversationActive] flag the hook exports stays set.  The flag
    stays set as well when the first request of a conversation is
    refused. *)
Lemma microphone_failure_keeps_speaking :
  let s := run mounted handsfree_turn in
  let s' := step s (EvUserMedia false 5000) in
  let first := run mounted [EvSocketOpen; EvStartRecording; EvUserMedia false 0] in
  (pendingUserMedia s = 1%nat /\
   appState s = speaking /\
   error s' = Some "Không thể truy cập microphone" /\
   isConversationActiveRef s' = false /\
   appState s' = speaking /\
   appState s' <> idle /\
   isConversationActive s' = true) /\
  (error first = Some "Không thể truy cập microphone" /\
   isConversationActiveRef first = false /\
   appState first = idle /\
   isConversationActive first = true).
Proof. vm_compute. repeat split; done. Qed.

(** The [catch] block in general.  When [getUserMedia] fails, the error
    message is set, the conversation-active ref is cleared, and [appState]
    and the [isConversationActive] flag are left as they were; no recorder
    is created. *)
Theorem microphone_failure (s : Hook) (now : Z) :
  isMounted s = true ->
  (0 < pendingUserMedia s)%nat ->
  let s' := step s (EvUserMedia false now) in
  error s' = Some "Không thể truy cập microphone" /\
  isConversationActiveRef s' = false /\
  appState s' = appState s /\
  isConversationActive s' = isConversationActive s /\
  recorders s' = recorders s /\
  mediaRecorderRef s' = mediaRecorderRef s.
Proof.
  intros Hm Hp. destruct_hook s; cbn in *; subst.
  destruct pendingUserMedia as [|n]; [lia|].
  unfold_hook; cbn. repeat (case_match; cbn); done.
Qed.

Lemma microphone_failure_witness :
  let s := step (step mounted EvSocketOpen) EvStartRecording in
  let s' := step s (EvUserMedia false 0) in
  error s' = Some "Không thể truy cập microphone" /\
  isConversationActiveRef s' = false /\
  appState s' = appState s /\
  isConversationActive s' = isConversationActive s /\
  recorders s' = recorders s /\
  mediaRecorderRef s' = mediaRecorderRef s.
Proof.
  apply (microphone_failure (step (step mounted EvSocketOpen) EvStartRecording) 0);
    [reflexivity|vm_compute; lia].
Defined.

(** ** Final transcripts *)




(** ** Barge-in *)

Lemma commit_playback s :
  audioQueueRef (commit s) = audioQueueRef s /\
  isPlayingRef (commit s) = isPlayingRef s /\
  decodes (commit s) = decodes s /\
  sources (commit s) = sources s.
Proof.
  destruct_hook s; unfold commit, silence_effect; cbn.
  repeat (case_match; cbn); done.
Qed.

Lemma playNextInQueue_empty s :
  audioQueueRef s = [] ->
  audioQueueRef (playNextInQueue s) = [] /\
  decodes (playNextInQueue s) = decodes s /\
  sources (playNextInQueue s) = sources s.
Proof.
  intros Hq. destruct_hook s; cbn in *; subst. unfold_hook; cbn.
  repeat (case_match; cbn); done.
Qed.

Lemma dispatch_no_audio s e :
  is_audio_frame e = false ->
  audioQueueRef s = [] ->
  audioQueueRef (dispatch e s) = [] /\
  dec_buffer <$> decodes (dispatch e s) = dec_buffer <$> decodes s.
Proof.
  intros He Hq.
  destruct e as [ | | |parsed now|id| | |text now|settings|granted now|r data|r
                |i now|now dataArray|job ok|source| |tfail]; cbn [dispatch].
  all: try (destruct_hook s; cbn in *; subst; unfold_hook; cbn;
            repeat (case_match; cbn); done).
  (* what is left is the settling of a decode *)
  destruct (decodes s !! job) as [d|] eqn:Hd; [|done].
  case_bool_decide; [|done].
  set (s1 := set_decodes _ s).
  assert (Hq1 : audioQueueRef s1 = []) by (destruct_hook s; done).
  assert (Hd1 : dec_buffer <$> decodes s1 = dec_buffer <$> decodes s).
  { destruct_hook s; cbn in *. by eapply fmap_insert_same. }
  destruct ok.
  - destruct_hook s1; cbn in *. done.
  - destruct (playNextInQueue_empty s1 Hq1) as (-> & -> & _). done.
Qed.

Lemma step_no_audio s e :
  is_audio_frame e = false ->
  audioQueueRef s = [] ->
  audioQueueRef (step s e) = [] /\
  dec_buffer <$> decodes (step s e) = dec_buffer <$> decodes s.
Proof.
  intros He Hq. unfold step. destruct (isMounted s); [|done].
  destruct (commit_playback (dispatch e s)) as (-> & _ & -> & _).
  by apply dispatch_no_audio.
Qed.

Lemma run_no_audio tr s :
  Forall (fun e => is_audio_frame e = false) tr ->
  audioQueueRef s = [] ->
  audioQueueRef (run s tr) = [] /\
  dec_buffer <$> decodes (run s tr) = dec_buffer <$> decodes s.
Proof.
  intros Htr. revert s. induction Htr as [|e tr He _ IH]; intros s Hq; [done|].
  change (run s (e :: tr)) with (run (step s e) tr).
  destruct (step_no_audio s e He Hq) as [Hq' Hd'].
  destruct (IH _ Hq') as [-> ->]. done.
Qed.

(** C4, the claim as stated fails.  A [user_speaking] frame received while
    nothing is flagged as playing leaves [appState] as it is: the session is
    [idle] and stays [idle].  And when a fragment is playing, the handler
    clears the flag but makes no call on the source: the source has not
    ended after the frame and the log of calls is unchanged. *)
Lemma user_speaking_counterexample :
  (let s := step mounted EvSocketOpen in
   let s' := step s (EvSocketMessage
                       (Some (bare_frame WebSocketMessage.user_speaking)) stamp0) in
   isPlayingRef s = false /\ appState s' = idle /\ appState s' <> listening) /\
  (let s := run mounted [EvSocketOpen; audio_frame "TWFu"; EvDecoded 0 true] in
   let s' := step s (EvSocketMessage
                       (Some (bare_frame WebSocketMessage.user_speaking)) stamp0) in
   isPlayingRef s = true /\
   sources s' = [mkSource ["M"; "a"; "n"]%byte false] /\
   effects s' = effects s).
Proof. vm_compute. repeat split; discriminate. Qed.

(** C4, amended.  On a [user_speaking] frame the pending playback queue
    becomes empty and the playing flag is cleared; [appState] moves to
    [listening] when the flag was set and is unchanged otherwise; the handler
    makes no call on a source that is playing; and the fragments that were
    pending are never played: whatever follows, as long as no new [audio]
    frame arrives, the queue stays empty and no further fragment is taken
    out for decoding. *)
Theorem barge_in (data : WebSocketMessage.t) (now : Stamp) (s : Hook) :
  WebSocketMessage.type data = WebSocketMessage.user_speaking ->
  let s' := handleWebSocketMessage data now s in
  audioQueueRef s' = [] /\
  isPlayingRef s' = false /\
  appState s' = (if isPlayingRef s then listening else appState s) /\
  decodes s' = decodes s /\
  sources s' = sources s /\
  effects s' = effects s /\
  forall later : list Event,
    Forall (fun e => is_audio_frame e = false) later ->
    audioQueueRef (run (commit s') later) = [] /\
    dec_buffer <$> decodes (run (commit s') later) = dec_buffer <$> decodes s.
Proof.
  intros Hty. cbv zeta. unfold handleWebSocketMessage. rewrite Hty.
  set (s' := if isPlayingRef (set_audioQueueRef [] s) then _ else _).
  assert (H : audioQueueRef s' = [] /\ isPlayingRef s' = false /\
              appState s' = (if isPlayingRef s then listening else appState s) /\
              decodes s' = decodes s /\ sources s' = sources s /\
              effects s' = effects s).
  { subst s'. destruct_hook s; cbn. destruct isPlayingRef; done. }
  destruct H as (Hq & Hp & Ha & Hd & Hs & He). repeat split; try done.
  - apply run_no_audio; [done|]. by destruct (commit_playback s') as (-> & _).
  - destruct (commit_playback s') as (Hq' & _ & Hd' & _).
    destruct (run_no_audio later (commit s')) as [_ ->]; [done|congruence|].
    by rewrite Hd', Hd.
Qed.

Lemma barge_in_witness :
  let data := bare_frame WebSocketMessage.user_speaking in
  let s := run mounted
             [ EvSocketOpen;
               EvSocketMessage
                 (Some (WebSocketMessage.mk WebSocketMessage.audio None None None
                          (Some "TWFu") None None)) stamp0;
               EvSocketMessage
                 (Some (WebSocketMessage.mk WebSocketMessage.audio None None None
                          (Some "TWE=") None None)) stamp0;
               EvSocketMessage
                 (Some (WebSocketMessage.mk WebSocketMessage.audio None None None
                          (Some "TQ==") None None)) stamp0;
               EvDecoded 0 true ] in
  let s' := handleWebSocketMessage data stamp0 s in
  audioQueueRef s' = [] /\
  isPlayingRef s' = false /\
  appState s' = (if isPlayingRef s then listening else appState s) /\
  decodes s' = decodes s /\
  sources s' = sources s /\
  effects s' = effects s /\
  forall later : list Event,
    Forall (fun e => is_audio_frame e = false) later ->
    audioQueueRef (run (commit s') later) = [] /\
    dec_buffer <$> decodes (run (commit s') later) = dec_buffer <$> decodes s.
Proof.
  apply barge_in. reflexivity.
Defined.

(** The handler has no handle on the source that is playing: in
    [interrupted_playback] the first source has not ended when the next
    fragment is started, and the fragment that was queued at the time of the
    frame is never taken out. *)
Lemma interrupted_playback_sources :
  let s := run mounted interrupted_playback in
  sources s =
    [ mkSource ["M"; "a"; "n"]%byte false; mkSource ["M"]%byte false ] /\
  dec_buffer <$> decodes s = [ ["M"; "a"; "n"]; ["M"] ]%byte /\
  audioQueueRef s = [].
Proof. vm_compute. done. Qed.

(** ** End of playback *)


(** The drain-complete branch in general.  When [playNextInQueue] finds the
    queue empty while the session is still [speaking]: with the
    conversation-active ref set, [_startMediaRecorder] is called (it does
    nothing when the recorder is recording, else the microphone is
    requested and, if the request is granted and the recorder starts, a new
    recorder records and the state is [listening]); without the flag,
    [appState] becomes [idle] and the emotion [NEUTRAL].  In both cases
    nothing is flagged as playing any more. *)
Theorem drain_complete (s : Hook) :
  audioQueueRef s = [] ->
  appStateRef s = speaking ->
  let s' := playNextInQueue s in
  isPlayingRef s' = false /\
  (isConversationActiveRef s = true ->
     mediaRecorder_state s' = Some recording \/
     (pendingUserMedia s' = S (pendingUserMedia s) /\
      effects s' = effects s ++ [getUserMedia] /\
      forall now : Z,
        let s'' := dispatch (EvUserMedia true now) s' in
        appState s'' = listening /\
        mediaRecorder_state s'' = Some recording)) /\
  (isConversationActiveRef s = false ->
     appState s' = idle /\ emotion s' = NEUTRAL).
Proof.
  intros Hq Hsp. cbv zeta. unfold playNextInQueue. rewrite Hq.
  set (s1 := set_outputAnalyser None (set_isPlayingRef false s)).
  set (s2 := if (0 <? length (currentAiAudioChunksRef s1))%nat then _ else s1).
  assert (H2 : isPlayingRef s2 = false /\ appStateRef s2 = speaking /\
               isConversationActiveRef s2 = isConversationActiveRef s /\
               mediaRecorder_state s2 = mediaRecorder_state s /\
               pendingUserMedia s2 = pendingUserMedia s /\
               effects s2 = effects s).
  { subst s2 s1. destruct_hook s; unfold mediaRecorder_state; cbn in *.
    case_match; done. }
  destruct H2 as (Hp & Ha & Hc & Hr & Hn & He).
  rewrite Ha, bool_decide_eq_true_2, Hc by done.
  destruct (isConversationActiveRef s).
  - split; [|split; [|done]].
    + unfold _startMediaRecorder. case_bool_decide; [done|].
      by destruct_hook s2.
    + intros _. unfold _startMediaRecorder. case_bool_decide; [by left|right].
      rewrite <- Hn, <- He. clear. destruct_hook s2; cbn.
      split; [done|]. split; [done|].
      intros now. unfold _startMediaRecorder_resolved, mediaRecorder_state; cbn.
      rewrite lookup_app_r by done. by rewrite Nat.sub_diag.
  - split; [|split; [done|]].
    + by destruct_hook s2.
    + intros _. by destruct_hook s2.
Qed.

Lemma drain_complete_witness :
  let s := run mounted
             [ EvSocketOpen; EvStartRecording; EvUserMedia true 0;
               EvSilenceTick 1600 silent_window;
               EvSocketMessage
                 (Some (WebSocketMessage.mk WebSocketMessage.audio None None None
                          (Some "TWFu") None None)) stamp0;
               EvDecoded 0 true ] in
  let s' := playNextInQueue s in
  isPlayingRef s' = false /\
  (isConversationActiveRef s = true ->
     mediaRecorder_state s' = Some recording \/
     (pendingUserMedia s' = S (pendingUserMedia s) /\
      effects s' = effects s ++ [getUserMedia] /\
      forall now : Z,
        let s'' := dispatch (EvUserMedia true now) s' in
        appState s'' = listening /\
        mediaRecorder_state s'' = Some recording)) /\
  (isConversationActiveRef s = false ->
     appState s' = idle /\ emotion s' = NEUTRAL).
Proof.
  apply drain_complete; reflexivity.
Defined.

(** ** Capture segments *)

Lemma effects_grow s e : exists es, effects (step s e) = effects s ++ es.
Proof.
  unfold step. destruct (isMounted s); [|exists []; by rewrite app_nil_r].
  assert (Hc : forall x, effects (commit x) = effects x).
  { intros x. destruct_hook x; unfold commit, silence_effect; cbn.
    repeat (case_match; cbn); done. }
  rewrite Hc. clear Hc.
  destruct e; cbn [dispatch].
  all: destruct_hook s; unfold_hook; cbn; repeat (case_match; cbn);
         first [ by exists []; rewrite app_nil_r
               | by eexists
               | by rewrite <- ?app_assoc; eexists ].
Qed.

Lemma sent_frames_grow s e : sent_frames s `prefix_of` sent_frames (step s e).
Proof.
  destruct (effects_grow s e) as [es He]. unfold sent_frames.
  rewrite He, omap_app. by eexists.
Qed.

Lemma sent_frames_run_grow tr s : sent_frames s `prefix_of` sent_frames (run s tr).
Proof.
  revert s. induction tr as [|e tr IH]; intros s; [done|].
  change (run s (e :: tr)) with (run (step s e) tr).
  etrans; [apply sent_frames_grow|apply IH].
Qed.

Lemma run_app s tr1 tr2 : run s (tr1 ++ tr2) = run (run s tr1) tr2.
Proof. apply foldl_app. Qed.

Lemma user_media_granted_spec s now :
  isMounted s = true ->
  (0 < pendingUserMedia s)%nat ->
  let s' := step s (EvUserMedia true now) in
  isMounted s' = true /\ socketRef s' = socketRef s /\
  mediaRecorderRef s' = Some (length (recorders s)) /\
  recorders s' = recorders s ++ [mkRecorder recording [] false] /\
  readers s' = readers s /\
  effects s' = effects s /\
  isConversationActiveRef s' = isConversationActiveRef s /\
  appState s' = listening /\
  appStateRef s' = listening /\
  didAutoStopSegmentRef s' = false /\
  lastVoiceActivityAtRef s' = Some now /\
  inputAnalyser s' = Some (analysers s).
Proof.
  intros Hm Hp.
  destruct_hook s; cbn in *; subst. destruct pendingUserMedia as [|n]; [lia|].
  unfold_hook; cbn.
  repeat (case_match; cbn); done.
Qed.

Lemma sent_frames_effects s s' es :
  effects s' = effects s ++ es ->
  sent_frames s' =
    sent_frames s ++
      omap (fun e => match e with socket_send f => Some f | _ => None end) es.
Proof. intros He. unfold sent_frames. by rewrite He, omap_app. Qed.

(** A [loadend] for a reader that does not exist or has already loaded
    does nothing. *)
Lemma stale_loadend s i now :
  (forall rd, readers s !! i = Some rd -> loaded rd = true) ->
  effects (step s (EvLoadEnd i now)) = effects s.
Proof.
  intros Hrd.
  destruct_hook s; cbn in *. unfold_hook; cbn.
  destruct (readers !! i) as [rd|] eqn:Hi; cbn.
  - rewrite (Hrd rd eq_refl). repeat (case_match; cbn); done.
  - repeat (case_match; cbn); done.
Qed.

Lemma commit_capture_fields s :
  recorders (commit s) = recorders s /\
  readers (commit s) = readers s /\
  effects (commit s) = effects s /\
  socketRef (commit s) = socketRef s /\
  isMounted (commit s) = isMounted s.
Proof.
  destruct_hook s; unfold commit, silence_effect; cbn.
  repeat (case_match; cbn); done.
Qed.

Lemma isMounted_step s e : isMounted (step s e) = true -> isMounted s = true.
Proof. unfold step. destruct (isMounted s) eqn:Hm; [done|]. by rewrite Hm. Qed.

Lemma isMounted_run tr s : isMounted (run s tr) = true -> isMounted s = true.
Proof.
  revert s. induction tr as [|e tr IH]; intros s; [done|].
  intros H. by apply (isMounted_step s e), IH.
Qed.

(** The chunks of the recorder at index [r] of a list of recorders. *)
Lemma chunks_insert_same (l : list MediaRecorder) i r rec x :
  l !! i = Some rec -> chunks x = chunks rec ->
  chunks <$> <[i := x]> l !! r = chunks <$> l !! r.
Proof.
  intros Hl Hx. destruct (decide (i = r)) as [->|Hne].
  - rewrite list_lookup_insert_eq by (by eapply lookup_lt_Some).
    rewrite Hl. cbn. by rewrite Hx.
  - by rewrite list_lookup_insert_ne.
Qed.

Lemma chunks_snoc (l : list MediaRecorder) r st p :
  default [] (chunks <$> (l ++ [mkRecorder st [] p]) !! r) =
  default [] (chunks <$> l !! r).
Proof.
  destruct (decide (r < length l)%nat) as [Hlt|Hge].
  - by rewrite lookup_app_l.
  - rewrite lookup_app_r, (lookup_ge_None_2 l) by lia.
    by destruct (r - length l)%nat as [|[|k]].
Qed.

Lemma recorder_chunks_alt r s :
  recorder_chunks r s = default [] (chunks <$> recorders s !! r).
Proof. unfold recorder_chunks. by destruct (recorders s !! r). Qed.

(** An event other than a recorder's [dataavailable] leaves the chunks of
    every recorder as they are. *)
Lemma dispatch_chunks_kept e s r :
  (forall r' data, e <> EvDataAvailable r' data) ->
  recorder_chunks r (dispatch e s) = recorder_chunks r s.
Proof.
  intros He. rewrite !recorder_chunks_alt.
  destruct e as [ | | |parsed now|id| | |text now|settings|granted now|r' data|r'
                |i now|now dataArray|job ok|source| |tfail];
    try (by destruct (He r' data)).
  all: destruct_hook s; unfold_hook; cbn -[atob join trim dataURL_payload new_Blob].
  all: repeat (first [case_bool_decide | case_match];
               cbn -[atob join trim dataURL_payload new_Blob] in *; simplify_eq);
         rewrite ?chunks_snoc; try done.
  all: by erewrite chunks_insert_same by (eassumption || done).
Qed.

(** A [dataavailable] event appends its payload, when it is of positive
    size, to the chunks of the recorder that fires it. *)
Lemma dataavailable_chunks r r' data s :
  isMounted s = true ->
  recorder_chunks r (dispatch (EvDataAvailable r' data) s) =
  recorder_chunks r s ++ captured_by r s (EvDataAvailable r' data).
Proof.
  intros Hm. unfold captured_by, recorder_live, recorder_chunks, kept_chunks.
  rewrite Hm. cbn [andb dispatch].
  destruct (decide (r' = r)) as [->|Hne].
  - rewrite bool_decide_eq_true_2 by done. cbn [andb].
    destruct (recorders s !! r) as [rec|] eqn:Hl; [|by rewrite Hl].
    destruct (bool_decide (rec_state rec = recording) || stop_pending rec);
      [|by rewrite Hl, app_nil_r].
    unfold ondataavailable. rewrite Hl.
    destruct data as [|b data]; cbn.
    + by rewrite Hl, app_nil_r.
    + destruct_hook s; cbn in *.
      by rewrite list_lookup_insert_eq by (by eapply lookup_lt_Some).
  - rewrite bool_decide_eq_false_2 by done. cbn [andb]. rewrite app_nil_r.
    destruct (recorders s !! r') as [rec|] eqn:Hl; [|done].
    destruct (bool_decide (rec_state rec = recording) || stop_pending rec);
      [|done].
    unfold ondataavailable. rewrite Hl.
    destruct data as [|b data]; cbn; [done|].
    destruct_hook s; cbn in *. by rewrite list_lookup_insert_ne.
Qed.

Lemma step_recorder_chunks r s e :
  recorder_chunks r (step s e) = recorder_chunks r s ++ captured_by r s e.
Proof.
  unfold step. destruct (isMounted s) eqn:Hm.
  - assert (Hc : forall x, recorder_chunks r (commit x) = recorder_chunks r x).
    { intros x. unfold recorder_chunks.
      by destruct (commit_capture_fields x) as (-> & _). }
    rewrite Hc.
    destruct e; try (by rewrite dispatch_chunks_kept, app_nil_r).
    by apply dataavailable_chunks.
  - unfold captured_by. destruct e; try (by rewrite app_nil_r).
    rewrite Hm. cbn [andb]. by rewrite app_nil_r.
Qed.

(** The chunks a recorder holds are what it has captured, in capture
    order. *)
Lemma run_recorder_chunks r tr s :
  recorder_chunks r (run s tr) = recorder_chunks r s ++ captured r s tr.
Proof.
  revert s. induction tr as [|e tr IH]; intros s; cbn [captured].
  - by rewrite app_nil_r.
  - change (run s (e :: tr)) with (run (step s e) tr).
    by rewrite IH, step_recorder_chunks, app_assoc.
Qed.

(** Once its [stop] event has been dispatched a recorder is never touched
    again. *)
Lemma dispatch_finalized r e s cs :
  recorders s !! r = Some (mkRecorder inactive cs false) ->
  recorders (dispatch e s) !! r = Some (mkRecorder inactive cs false).
Proof.
  intros Hl.
  assert (Hlt : (r < length (recorders s))%nat) by (by eapply lookup_lt_Some).
  destruct e as [ | | |parsed now|id| | |text now|settings|granted now|r' data|r'
                |i now|now dataArray|job ok|source| |tfail].
  all: destruct_hook s; unfold_hook; cbn -[atob join trim dataURL_payload new_Blob] in *.
  all: repeat (first [case_bool_decide | case_match];
               cbn -[atob join trim dataURL_payload new_Blob] in *; simplify_eq);
         rewrite ?lookup_app_l by done; try done.
  all: match goal with
       | |- <[?i := _]> _ !! ?j = _ =>
           destruct (decide (i = j)) as [->|Hne];
             [simplify_eq; cbn in *; done
             |by rewrite list_lookup_insert_ne]
       end.
Qed.

Lemma run_finalized r tr s cs :
  recorders s !! r = Some (mkRecorder inactive cs false) ->
  recorders (run s tr) !! r = Some (mkRecorder inactive cs false).
Proof.
  revert s. induction tr as [|e tr IH]; intros s Hl; [done|].
  apply IH. unfold step. destruct (isMounted s); [|done].
  destruct (commit_capture_fields (dispatch e s)) as (-> & _).
  by apply dispatch_finalized.
Qed.

(** A file reader is left as it is by every event but its own first
    [loadend]. *)
Lemma dispatch_reader_kept k e s rd :
  readers s !! k = Some rd ->
  is_load_of k e = false \/ loaded rd = true ->
  readers (dispatch e s) !! k = Some rd.
Proof.
  intros Hl Hk.
  assert (Hlt : (k < length (readers s))%nat) by (by eapply lookup_lt_Some).
  destruct e as [ | | |parsed now|id| | |text now|settings|granted now|r' data|r'
                |i now|now dataArray|job ok|source| |tfail].
  all: destruct_hook s; unfold_hook; cbn -[atob join trim dataURL_payload new_Blob] in *.
  all: repeat (first [case_bool_decide | case_match];
               cbn -[atob join trim dataURL_payload new_Blob] in *; simplify_eq);
         rewrite ?lookup_app_l by done; try done.
  all: try (destruct Hk as [Hk|Hk]; [done|congruence]).
  all: match goal with
       | |- <[?i := _]> _ !! ?j = _ =>
           destruct (decide (i = j)) as [->|Hne];
             [destruct Hk as [Hk|Hk]; [done|congruence]
             |by rewrite list_lookup_insert_ne]
       end.
Qed.

Lemma run_reader_kept k tr s rd :
  readers s !! k = Some rd ->
  Forall (fun e => is_load_of k e = false) tr \/ loaded rd = true ->
  readers (run s tr) !! k = Some rd.
Proof.
  revert s. induction tr as [|e tr IH]; intros s Hl Hk; [done|].
  apply IH.
  - unfold step. destruct (isMounted s); [|done].
    destruct (commit_capture_fields (dispatch e s)) as (_ & -> & _).
    apply dispatch_reader_kept; [done|].
    destruct Hk as [Hk|Hk]; [left|by right]. by inversion Hk.
  - destruct Hk as [Hk|Hk]; [left|by right]. by inversion Hk.
Qed.

(** The recorder's [stop] event, in any state: when chunks were kept, one
    reader holding their concatenation is created; nothing is sent. *)
Lemma recorder_stop_event s r st cs :
  isMounted s = true ->
  recorders s !! r = Some (mkRecorder st cs true) ->
  let s' := step s (EvRecorderStop r) in
  isMounted s' = true /\
  effects s' = effects s /\
  recorders s' !! r = Some (mkRecorder st cs false) /\
  readers s' =
    readers s ++
      (if bool_decide (cs = []) then []
       else [mkReader (concat cs) send_audio_complete false]).
Proof.
  intros Hm Hl.
  assert (Hlt : (r < length (recorders s))%nat) by (by eapply lookup_lt_Some).
  cbv zeta. unfold step. rewrite Hm.
  destruct (commit_capture_fields (dispatch (EvRecorderStop r) s))
    as (-> & -> & -> & _ & ->).
  destruct_hook s; cbn in *; subst. unfold dispatch, onstop; cbn.
  rewrite !Hl; cbn. rewrite list_lookup_insert_eq by done. cbn.
  destruct cs as [|c cs]; cbn.
  - rewrite app_nil_r, list_lookup_insert_eq by done. done.
  - rewrite list_lookup_insert_eq by done. done.
Qed.

(** The [loadend] of a reader created by a recorder's [stop] event, in any
    state: the frame goes out when the socket is open at that moment. *)
Lemma reader_loadend s k blob now :
  isMounted s = true ->
  readers s !! k = Some (mkReader blob send_audio_complete false) ->
  let s' := step s (EvLoadEnd k now) in
  effects s' =
    effects s ++
      (if socket_is_open s
       then [socket_send (audio_complete (Some (base64 blob)) "audio/webm")]
       else []) /\
  readers s' !! k = Some (mkReader blob send_audio_complete true).
Proof.
  intros Hm Hl.
  assert (Hlt : (k < length (readers s))%nat) by (by eapply lookup_lt_Some).
  cbv zeta. unfold step. rewrite Hm.
  destruct (commit_capture_fields (dispatch (EvLoadEnd k now) s))
    as (_ & -> & -> & _).
  destruct_hook s; cbn in *; subst. unfold dispatch, onloadend_send, perform,
    socket_is_open; cbn -[dataURL_payload readAsDataURL].
  rewrite Hl; cbn -[dataURL_payload readAsDataURL].
  rewrite dataURL_payload_base64.
  case_bool_decide; cbn; rewrite ?app_nil_r;
    by rewrite list_lookup_insert_eq by done.
Qed.

(** A recorder whose [stop] event is pending has been stopped: its state is
    [inactive]. *)
Lemma dispatch_stopped e s :
  Forall (fun rec => stop_pending rec = true -> rec_state rec = inactive)
    (recorders s) ->
  Forall (fun rec => stop_pending rec = true -> rec_state rec = inactive)
    (recorders (dispatch e s)).
Proof.
  intros Hall.
  assert (Hin : forall i rec, recorders s !! i = Some rec ->
                  stop_pending rec = true -> rec_state rec = inactive).
  { intros i rec Hl. by apply (Forall_lookup_1 _ _ _ _ Hall Hl). }
  destruct e as [ | | |parsed now|id| | |text now|settings|granted now|r' data|r'
                |i now|now dataArray|job ok|source| |tfail].
  all: destruct_hook s; unfold_hook; cbn -[atob join trim dataURL_payload new_Blob] in *.
  all: repeat (first [case_bool_decide | case_match];
               cbn -[atob join trim dataURL_payload new_Blob] in *; simplify_eq);
         try done.
  all: try (apply Forall_app; split; [done|by repeat constructor]).
  all: apply Forall_insert; [done|]; cbn; try done.
  all: eauto.
Qed.

Lemma reachable_stopped tr r rec :
  recorders (run mounted tr) !! r = Some rec ->
  stop_pending rec = true -> rec_state rec = inactive.
Proof.
  assert (H : Forall (fun rec => stop_pending rec = true -> rec_state rec = inactive)
                (recorders (run mounted tr))).
  { assert (H0 : Forall (fun rec => stop_pending rec = true -> rec_state rec = inactive)
                   (recorders mounted)) by constructor.
    revert H0. generalize mounted.
    induction tr as [|e tr IH]; intros s Hs; [done|].
    apply IH. unfold step. destruct (isMounted s); [|done].
    destruct (commit_capture_fields (dispatch e s)) as (-> & _).
    by apply dispatch_stopped. }
  intros Hl. by apply (Forall_lookup_1 _ _ _ _ H Hl).
Qed.

(** An [audio_complete] frame is sent by nothing but the [loadend] of a
    reader created by a recorder's [stop] event. *)
Lemma dispatch_audio_complete e s d m :
  exists es,
    effects (dispatch e s) = effects s ++ es /\
    (socket_send (audio_complete d m) ∈ es ->
     exists i t blob,
       e = EvLoadEnd i t /\
       readers s !! i = Some (mkReader blob send_audio_complete false) /\
       socketRef s = Some OPEN /\
       d = Some (base64 blob) /\ m = "audio/webm").
Proof.
  destruct e as [ | | |parsed now|id| | |text now|settings|granted now|r data|r
                |i now|now dataArray|job ok|source| |tfail].
  13:{ (* a reader has loaded *)
      cbn [dispatch].
      destruct (readers s !! i) as [[blob o l]|] eqn:Hrd;
        [|exists []; rewrite app_nil_r; split; [done|by intros ?%elem_of_nil]].
      cbn [loaded onloadend reader_blob].
      destruct l; [exists []; rewrite app_nil_r; split; [done|by intros ?%elem_of_nil]|].
      destruct o as [|text].
      - unfold onloadend_send. cbn [reader_blob].
        rewrite dataURL_payload_base64.
        unfold socket_is_open, perform.
        destruct (decide (socketRef s = Some OPEN)) as [Ho|Ho].
        + rewrite bool_decide_eq_true_2 by (by destruct_hook s).
          eexists. split; [by destruct_hook s|].
          intros H%list_elem_of_singleton. injection H as -> ->.
          exists i, now, blob. done.
        + rewrite bool_decide_eq_false_2 by (by destruct_hook s).
          exists []. rewrite app_nil_r.
          split; [by destruct_hook s|by intros ?%elem_of_nil].
      - exists []. rewrite app_nil_r. split; [|by intros ?%elem_of_nil].
        unfold onloadend_attach. by destruct_hook s. }
  all: destruct_hook s; unfold_hook; cbn -[trim].
  all: repeat (first [case_bool_decide | case_match]; cbn -[trim] in *; simplify_eq).
  all: first [ by exists []; rewrite app_nil_r; split; [done|intros ?%elem_of_nil]
             | rewrite <- ?app_assoc; eexists; split; [reflexivity|];
               intros Hin;
               repeat (apply elem_of_cons in Hin as [Hin|Hin]; [discriminate Hin|]);
               by apply elem_of_nil in Hin ].
Qed.

Lemma sent_in_turn_effects s e es :
  effects (step s e) = effects s ++ es ->
  sent_in_turn s e =
    omap (fun x => match x with socket_send f => Some f | _ => None end) es.
Proof.
  intros He. unfold sent_in_turn.
  rewrite (sent_frames_effects _ _ _ He). by rewrite drop_app_length.
Qed.

Lemma audio_complete_origin s e d m :
  audio_complete d m ∈ sent_in_turn s e ->
  exists i t blob,
    e = EvLoadEnd i t /\
    readers s !! i = Some (mkReader blob send_audio_complete false) /\
    socketRef s = Some OPEN /\
    d = Some (base64 blob) /\ m = "audio/webm".
Proof.
  destruct (dispatch_audio_complete e s d m) as (es & He & Hes).
  assert (Hstep : exists es', effects (step s e) = effects s ++ es' /\
                    (socket_send (audio_complete d m) ∈ es' ->
                     socket_send (audio_complete d m) ∈ es)).
  { unfold step. destruct (isMounted s).
    - destruct (commit_capture_fields (dispatch e s)) as (_ & _ & -> & _).
      by exists es.
    - exists []. rewrite app_nil_r. split; [done|by intros ?%elem_of_nil]. }
  destruct Hstep as (es' & He' & Hin).
  rewrite (sent_in_turn_effects s e es' He'). intros Hf.
  apply Hes, Hin. apply list_elem_of_omap in Hf as (x & Hx & Hf).
  by destruct x; simplify_eq.
Qed.

(** A reader that sends is created by nothing but the [stop] event of a
    recorder on which [stop()] was called, for the chunks it holds. *)
Lemma dispatch_reader_created e s :
  length (readers (dispatch e s)) = length (readers s) \/
  exists rd,
    readers (dispatch e s) = readers s ++ [rd] /\
    (onloadend rd = send_audio_complete ->
     exists r rec,
       e = EvRecorderStop r /\ recorders s !! r = Some rec /\
       stop_pending rec = true /\ chunks rec <> [] /\
       rd = mkReader (concat (chunks rec)) send_audio_complete false).
Proof.
  destruct e as [ | | |parsed now|id| | |text now|settings|granted now|r data|r
                |i now|now dataArray|job ok|source| |tfail].
  12:{ (* the recorder's stop event *)
      cbn [dispatch].
      destruct (recorders s !! r) as [[st cs p]|] eqn:Hl; [|by left].
      cbn [stop_pending rec_state chunks]. destruct p; [|by left].
      unfold onstop.
      assert (Hlt : (r < length (recorders s))%nat) by (by eapply lookup_lt_Some).
      destruct_hook s; cbn in *.
      rewrite list_lookup_insert_eq by done. cbn.
      destruct cs as [|c cs]; [by left|]. cbn.
      right. eexists. split; [reflexivity|]. intros _.
      exists r, (mkRecorder st (c :: cs) true). done. }
  all: destruct_hook s; unfold_hook;
         cbn -[atob join trim dataURL_payload new_Blob].
  all: repeat (first [case_bool_decide | case_match];
               cbn -[atob join trim dataURL_payload new_Blob] in *; simplify_eq);
         rewrite ?length_insert; try (by left).
  all: right; eexists; (split; [reflexivity|]); by intros [=].
Qed.

Lemma reader_created_origin s e rd :
  rd ∈ readers_created s e ->
  onloadend rd = send_audio_complete ->
  exists r rec,
    e = EvRecorderStop r /\ recorders s !! r = Some rec /\
    stop_pending rec = true /\ chunks rec <> [] /\
    rd = mkReader (concat (chunks rec)) send_audio_complete false.
Proof.
  unfold readers_created, step. destruct (isMounted s).
  - destruct (commit_capture_fields (dispatch e s)) as (_ & -> & _).
    destruct (dispatch_reader_created e s) as [Hlen|(rd' & -> & Hrd)].
    + rewrite <- Hlen, drop_all. by intros ?%elem_of_nil.
    + rewrite drop_app_length. by intros ->%list_elem_of_singleton.
  - rewrite drop_all. by intros ?%elem_of_nil.
Qed.

(** C1, the claim as stated fails.  The connection is lost while the user
    is speaking: a chunk was captured and the recorder finalizes, but the
    reader's [onloadend] finds the socket not open and sends nothing. *)
Lemma captured_segment_not_sent :
  let s := run mounted segment_with_lost_connection in
  (chunks <$> recorders s !! 0%nat) = Some [["a"%byte; "b"%byte]] /\
  (loaded <$> readers s !! 0%nat) = Some true /\
  sent_frames s = [].
Proof. vm_compute. done. Qed.

(** C1, amended.  For every capture segment, that is for every recorder
    the hook creates, however it was started (by [startRecording] or by the
    resumption after playback) and stopped (by [stopRecording], by a typed
    message or by the silence detector), and whatever else happens
    meanwhile.  When the recorder's [stop] event arrives, the chunks it
    holds are the payloads of positive size it has fired, in capture order,
    and the recorder is never touched again, so none is captured afterwards;
    the [stop] event itself sends nothing.  If no chunk was captured no
    reader is created, so no frame is sent for the segment.  If at least
    one was, one reader is created for their concatenation; when it loads,
    exactly one [audio_complete] frame is sent, carrying the base64 of that
    concatenation, provided the socket is open at that moment, and none
    otherwise; the reader never sends again.  Nothing else sends an
    [audio_complete] frame: in any state, one is sent only by the first
    [loadend] of such a reader, and such a reader is created only by the
    [stop] event of a recorder that was stopped and holds a chunk. *)
Theorem audio_complete_after_finalize
    (before between later : list Event) (r : nat) (rec : MediaRecorder)
    (now later_on : Stamp) :
  let s := run mounted before in
  let reader := length (readers s) in
  let stopped := step s (EvRecorderStop r) in
  let at_load := run stopped between in
  let after_load := step at_load (EvLoadEnd reader now) in
  recorders s !! r = Some rec ->
  stop_pending rec = true ->
  Forall (fun e => is_load_of reader e = false) between ->
  isMounted at_load = true ->
  chunks rec = captured r mounted before /\
  recorders (run stopped later) !! r =
    Some (mkRecorder inactive (chunks rec) false) /\
  sent_frames stopped = sent_frames s /\
  (chunks rec = [] -> readers stopped = readers s) /\
  (chunks rec <> [] ->
     readers stopped =
       readers s ++ [mkReader (concat (chunks rec)) send_audio_complete false] /\
     sent_frames after_load =
       sent_frames at_load ++
         (if socket_is_open at_load
          then [audio_complete (Some (base64 (concat (chunks rec)))) "audio/webm"]
          else []) /\
     sent_frames (step (run after_load later) (EvLoadEnd reader later_on)) =
       sent_frames (run after_load later)) /\
  (forall (x : Hook) (e : Event) (d : option string) (m : string),
     audio_complete d m ∈ sent_in_turn x e ->
     exists i t blob,
       e = EvLoadEnd i t /\
       readers x !! i = Some (mkReader blob send_audio_complete false) /\
       socketRef x = Some OPEN /\
       d = Some (base64 blob) /\ m = "audio/webm") /\
  (forall (x : Hook) (e : Event) (rd : FileReader),
     rd ∈ readers_created x e ->
     onloadend rd = send_audio_complete ->
     exists r' rec',
       e = EvRecorderStop r' /\ recorders x !! r' = Some rec' /\
       stop_pending rec' = true /\ chunks rec' <> [] /\
       rd = mkReader (concat (chunks rec')) send_audio_complete false).
Proof.
  intros s reader stopped at_load after_load Hl Hp Hbetween Hm.
  assert (Hms : isMounted s = true).
  { apply (isMounted_step s (EvRecorderStop r)).
    by apply (isMounted_run between). }
  pose proof (reachable_stopped before r rec Hl Hp) as Hst.
  destruct rec as [st cs p]; cbn in Hp, Hst |- *. subst st p.
  destruct (recorder_stop_event s r inactive cs Hms Hl) as (_ & He & Hr & Hrd).
  fold stopped in He, Hr, Hrd.
  split; [|split; [|split; [|split; [|split; [|split]]]]].
  - pose proof (run_recorder_chunks r before mounted) as Hc.
    fold s in Hc. unfold recorder_chunks at 1 in Hc. by rewrite Hl in Hc.
  - by apply run_finalized.
  - unfold sent_frames. by rewrite He.
  - intros ->. by rewrite Hrd, app_nil_r.
  - intros Hne. rewrite bool_decide_eq_false_2 in Hrd by done.
    split; [done|].
    assert (Hk : readers stopped !! reader =
                 Some (mkReader (concat cs) send_audio_complete false)).
    { rewrite Hrd. unfold reader. by rewrite lookup_app_r, Nat.sub_diag. }
    apply (run_reader_kept reader between) in Hk; [|by left].
    fold at_load in Hk.
    destruct (reader_loadend at_load reader (concat cs) now Hm Hk) as (He2 & Hk2).
    fold after_load in He2, Hk2.
    split.
    + rewrite (sent_frames_effects _ _ _ He2). by destruct (socket_is_open at_load).
    + unfold sent_frames at 1 2. f_equal. apply stale_loadend.
      intros rd Hrd2.
      rewrite (run_reader_kept reader later after_load _ Hk2) in Hrd2
        by (by right).
      by injection Hrd2 as <-.
  - apply audio_complete_origin.
  - apply reader_created_origin.
Qed.

(** A segment begun by the resumption after playback and ended by a typed
    message; the connection is lost and found again before the reader
    loads. *)
Lemma audio_complete_after_finalize_witness :
  let before :=
    handsfree_turn ++
    [ EvUserMedia true 6000;
      EvDataAvailable 1 ["a"%byte; "b"%byte];
      EvDataAvailable 1 [];
      EvSendChatMessage "xin chào" stamp0;
      EvDataAvailable 1 ["c"%byte] ] in
  let between := [EvSocketClose; EvTimeout 1; EvSocketOpen] in
  let later := [EvStartRecording; EvUserMedia true 9000] in
  let cs := [["a"%byte; "b"%byte]; ["c"%byte]] in
  let s := run mounted before in
  let stopped := step s (EvRecorderStop 1) in
  let at_load := run stopped between in
  let after_load := step at_load (EvLoadEnd 0 stamp0) in
  cs = captured 1 mounted before /\
  recorders (run stopped later) !! 1%nat = Some (mkRecorder inactive cs false) /\
  sent_frames stopped = sent_frames s /\
  sent_frames after_load =
    sent_frames at_load ++ [audio_complete (Some "YWJj") "audio/webm"] /\
  sent_frames (step (run after_load later) (EvLoadEnd 0 stamp0)) =
    sent_frames (run after_load later).
Proof.
  destruct (audio_complete_after_finalize
              (handsfree_turn ++
               [ EvUserMedia true 6000;
                 EvDataAvailable 1 ["a"%byte; "b"%byte];
                 EvDataAvailable 1 [];
                 EvSendChatMessage "xin chào" stamp0;
                 EvDataAvailable 1 ["c"%byte] ])
              [EvSocketClose; EvTimeout 1; EvSocketOpen]
              [EvStartRecording; EvUserMedia true 9000]
              1 (mkRecorder inactive [["a"%byte; "b"%byte]; ["c"%byte]] true)
              stamp0 stamp0)
    as (H1 & H2 & H3 & _ & H5 & _).
  - vm_compute; reflexivity.
  - reflexivity.
  - repeat constructor.
  - vm_compute; reflexivity.
  - destruct H5 as (_ & H6 & H7); [discriminate|].
    split; [exact H1|]. split; [exact H2|]. split; [exact H3|].
    split; [exact H6|exact H7].
Defined.

(** ** Silence detection *)

Lemma commit_analysers s : analysers_fresh s -> analysers_fresh (commit s).
Proof.
  intros [H1 H2]. destruct_hook s; unfold analysers_fresh, commit, silence_effect in *;
    cbn in *.
  repeat (case_match; cbn); split; try done.
  all: intros st a' [= <- <-]; eauto.
Qed.

Lemma dispatch_analysers e s :
  (analysers s <= analysers (dispatch e s))%nat /\
  silenceDeps (dispatch e s) = silenceDeps s /\
  (inputAnalyser (dispatch e s) = inputAnalyser s \/
   (inputAnalyser (dispatch e s) = Some (analysers s) /\
    (analysers s < analysers (dispatch e s))%nat)).
Proof.
  destruct e; destruct_hook s; unfold_hook; cbn.
  all: repeat (case_match; cbn);
         first [ by auto | by (split; [lia|split; [done|right; split; [done|lia]]])
               | by (split; [lia|auto]) ].
Qed.

Lemma step_analysers s e : analysers_fresh s -> analysers_fresh (step s e).
Proof.
  intros Hf. unfold step. destruct (isMounted s); [|done].
  apply commit_analysers.
  destruct Hf as [H1 H2].
  destruct (dispatch_analysers e s) as (Hle & Hd & Hi).
  split.
  - intros a Ha. destruct Hi as [Hi|[Hi Hlt]]; rewrite Hi in Ha.
    + apply H1 in Ha. lia.
    + injection Ha as <-. lia.
  - intros st a Ha. rewrite Hd in Ha. apply H2 in Ha. lia.
Qed.

Lemma reachable_analysers tr : analysers_fresh (run mounted tr).
Proof.
  assert (H0 : analysers_fresh mounted) by (split; intros; discriminate).
  revert H0. generalize mounted. induction tr as [|e tr IH]; intros s Hs; [done|].
  apply IH. by apply step_analysers.
Qed.

Lemma reachable_committed tr : committed (run mounted tr).
Proof.
  assert (H0 : committed mounted) by done.
  revert H0. generalize mounted. induction tr as [|e tr IH]; intros s Hs; [done|].
  apply IH. unfold step. destruct (isMounted s); [apply committed_commit|done].
Qed.

(** The poll does nothing unless the session is listening. *)
Lemma tick_not_listening s now dataArray :
  committed s -> appState s <> listening ->
  step s (EvSilenceTick now dataArray) = s.
Proof.
  intros Hc Hl. unfold step. destruct (isMounted s); [|done].
  assert (Hd : dispatch (EvSilenceTick now dataArray) s = s).
  { cbn [dispatch]. destruct (silenceInterval s); [|done].
    unfold silence_tick. destruct Hc as [-> _].
    by rewrite bool_decide_eq_true_2. }
  rewrite Hd. by apply commit_committed.
Qed.

(** With the guard flag up the poll stops nothing and leaves [appState]. *)
Lemma tick_guarded s now dataArray :
  didAutoStopSegmentRef s = true ->
  effects (silence_tick now dataArray s) = effects s /\
  appState (silence_tick now dataArray s) = appState s /\
  recorders (silence_tick now dataArray s) = recorders s.
Proof.
  intros Hg. destruct_hook s; cbn in *; subst. unfold silence_tick; cbn.
  repeat (case_match; cbn); done.
Qed.

(** A quiet poll before the silence has lasted changes nothing. *)
Lemma tick_quiet s t0 now dataArray :
  silence_armed s t0 ->
  rms_above_threshold dataArray = false ->
  now - t0 < SILENCE_MS ->
  step s (EvSilenceTick now dataArray) = s.
Proof.
  intros (Hm & Hc & Ha & Hi & Hr & Hg & Hl) Hq Hlt.
  unfold step. rewrite Hm.
  assert (Hd : dispatch (EvSilenceTick now dataArray) s = s).
  { cbn [dispatch]. destruct (silenceInterval s); [|done].
    unfold silence_tick. destruct Hc as [Hc _].
    rewrite Hc, Ha, Hr, Hq, Hl, Hg. cbn.
    by rewrite (proj2 (Z.leb_gt _ _) Hlt). }
  rewrite Hd. by apply commit_committed.
Qed.

(** The first quiet poll after [SILENCE_MS] of silence stops the recorder
    once and moves to [processing]; the interval is cleared. *)
Lemma tick_fire s t0 now dataArray :
  silence_armed s t0 ->
  rms_above_threshold dataArray = false ->
  SILENCE_MS <= now - t0 ->
  let s' := step s (EvSilenceTick now dataArray) in
  isMounted s' = true /\ committed s' /\
  appState s' = processing /\
  mediaRecorder_state s' = Some inactive /\
  didAutoStopSegmentRef s' = true /\
  silenceInterval s' = None /\
  stop_calls s' = S (stop_calls s).
Proof.
  intros (Hm & Hc & Ha & Hi & Hr & Hg & Hl) Hq Hge.
  cbv zeta. split; [|split; [by apply step_committed|]].
  { unfold step. rewrite Hm.
    assert (H1 : forall x, isMounted (commit x) = isMounted x).
    { intros x. destruct_hook x; unfold commit, silence_effect; cbn.
      repeat (case_match; cbn); done. }
    rewrite H1. cbn [dispatch]. destruct (silenceInterval s); [|done].
    destruct_hook s; unfold_hook; cbn in *. repeat (case_match; cbn); done. }
  apply Z.leb_le in Hge.
  destruct Hc as [Hc Hd]. unfold stop_calls.
  destruct_hook s; cbn in *; subst. unfold mediaRecorder_state in *; cbn in *.
  destruct silenceInterval as [a|]; [clear Hi|done].
  destruct mediaRecorderRef as [r|]; [|done].
  destruct (recorders !! r) as [rec|] eqn:Hrec; [|done].
  assert (Hlen : (r < length recorders)%nat) by by eapply lookup_lt_Some.
  cbn in Hr. injection Hr as Hr.
  unfold step, dispatch, silence_tick, mediaRecorder_state; cbn.
  rewrite !Hrec, Hq; cbn. rewrite Hr, Hge; cbn.
  rewrite (bool_decide_eq_false_2 (listening <> listening)) by (by intros []).
  rewrite (bool_decide_eq_false_2 (Some recording <> Some recording))
    by (by intros []).
  rewrite (bool_decide_eq_true_2 (Some recording = Some recording)) by done.
  unfold MediaRecorder_stop, perform; cbn. rewrite Hrec; cbn.
  unfold release_stream, perform, commit, silence_effect; cbn.
  destruct mediaStreamRef; cbn.
  all: rewrite (bool_decide_eq_false_2 (Some _ = Some _)) by (by intros [= ?]);
    cbn; destruct inputAnalyser; cbn;
    rewrite ?(bool_decide_eq_false_2 (processing = listening)) by done; cbn;
    rewrite ?list_lookup_insert_eq by done; cbn;
    rewrite ?List.filter_app, ?length_app; cbn;
    repeat split; try done; lia.
Qed.

(** A delivered chunk leaves everything the detector looks at as it is. *)
Lemma dataavailable_dispatch s r data :
  let s' := dispatch (EvDataAvailable r data) s in
  isMounted s' = isMounted s /\
  appState s' = appState s /\
  appStateRef s' = appStateRef s /\
  inputAnalyser s' = inputAnalyser s /\
  silenceDeps s' = silenceDeps s /\
  silenceInterval s' = silenceInterval s /\
  mediaRecorder_state s' = mediaRecorder_state s /\
  didAutoStopSegmentRef s' = didAutoStopSegmentRef s /\
  lastVoiceActivityAtRef s' = lastVoiceActivityAtRef s /\
  effects s' = effects s.
Proof.
  cbv zeta. cbn [dispatch].
  destruct (recorders s !! r) as [rec|] eqn:Hrec; [|done].
  destruct (_ || _); [|done].
  unfold ondataavailable. destruct (0 <? length data)%nat; [|done].
  rewrite Hrec. unfold mediaRecorder_state.
  destruct_hook s; cbn in *. repeat split.
  destruct mediaRecorderRef as [r0|]; [|done].
  rewrite <- !list_lookup_fmap. f_equal.
  by eapply fmap_insert_same.
Qed.

Lemma dataavailable_step s r data :
  isMounted s = true -> committed s ->
  let s' := step s (EvDataAvailable r data) in
  isMounted s' = true /\ committed s' /\
  appState s' = appState s /\
  silenceInterval s' = silenceInterval s /\
  mediaRecorder_state s' = mediaRecorder_state s /\
  didAutoStopSegmentRef s' = didAutoStopSegmentRef s /\
  lastVoiceActivityAtRef s' = lastVoiceActivityAtRef s /\
  effects s' = effects s.
Proof.
  intros Hm Hc. cbv zeta. unfold step. rewrite Hm.
  destruct (dataavailable_dispatch s r data)
    as (H1 & H2 & H3 & H4 & H5 & H6 & H7 & H8 & H9 & H10).
  set (d := dispatch _ s) in *.
  assert (Hcd : committed d).
  { destruct Hc as [Hc1 Hc2]. split; congruence. }
  rewrite (commit_committed d Hcd). repeat split; try congruence; apply Hcd.
Qed.

(** A poll above the threshold only restarts the voice-activity clock. *)
Lemma tick_loud s t0 now dataArray :
  silence_armed s t0 ->
  rms_above_threshold dataArray = true ->
  silence_armed (step s (EvSilenceTick now dataArray)) now /\
  stop_calls (step s (EvSilenceTick now dataArray)) = stop_calls s.
Proof.
  intros (Hm & Hc & Ha & Hi & Hr & Hg & Hl) Hq.
  unfold step. rewrite Hm.
  assert (Hd : dispatch (EvSilenceTick now dataArray) s
               = set_lastVoiceActivityAtRef (Some now) s).
  { cbn [dispatch]. destruct (silenceInterval s); [|done].
    unfold silence_tick. destruct Hc as [Hc _].
    rewrite Hc, Ha, Hr, Hq.
    rewrite (bool_decide_eq_false_2 (listening <> listening)) by (by intros []).
    by rewrite (bool_decide_eq_false_2 (Some recording <> Some recording))
      by (by intros []). }
  rewrite Hd.
  assert (Hc' : committed (set_lastVoiceActivityAtRef (Some now) s)).
  { destruct Hc. by destruct_hook s. }
  rewrite (commit_committed _ Hc').
  unfold silence_armed, stop_calls, mediaRecorder_state in *.
  destruct_hook s; cbn in *. done.
Qed.

Lemma fired_run tr s :
  silence_fired s -> Forall segment_event tr ->
  silence_fired (run s tr) /\ stop_calls (run s tr) = stop_calls s.
Proof.
  intros Hs Htr. revert s Hs.
  induction Htr as [|e tr He _ IH]; intros s Hs; [done|].
  change (run s (e :: tr)) with (run (step s e) tr).
  pose proof Hs as (Hm & Hc & Ha & Hr & Hg).
  destruct e as [ | | |parsed now0|id| | |text now0|settings|granted now0|r data
                |r0|i now0|now dataArray|job ok|source| |tfail]; try done.
  - destruct (dataavailable_step s r data Hm Hc)
      as (H1 & H2 & H3 & H4 & H5 & H6 & H7 & H8).
    destruct (IH (step s (EvDataAvailable r data))) as [IH1 IH2].
    { repeat split; try apply H2; congruence. }
    split; [done|]. rewrite IH2. unfold stop_calls. by rewrite H8.
  - rewrite tick_not_listening; [|done|by rewrite Ha].
    by apply IH.
Qed.

Lemma armed_run tr s t0 :
  silence_armed s t0 -> Forall segment_event tr ->
  let s' := run s tr in
  stop_calls s' = (stop_calls s + if silence_lasted t0 tr then 1 else 0)%nat /\
  (if silence_lasted t0 tr then silence_fired s'
   else exists t, silence_armed s' t).
Proof.
  intros Hs Htr. revert s t0 Hs.
  induction Htr as [|e tr He Htr IH]; intros s t0 Hs.
  { cbn. split; [lia|eauto]. }
  cbv zeta. change (run s (e :: tr)) with (run (step s e) tr).
  destruct e as [ | | |parsed now0|id| | |text now0|settings|granted now0|r data
                |r0|i now0|now dataArray|job ok|source| |tfail]; try done.
  - (* a chunk *)
    pose proof Hs as (Hm & Hc & Ha & Hi & Hr & Hg & Hl).
    destruct (dataavailable_step s r data Hm Hc)
      as (H1 & H2 & H3 & H4 & H5 & H6 & H7 & H8).
    destruct (IH (step s (EvDataAvailable r data)) t0) as [IH1 IH2].
    { repeat split; try apply H2; congruence. }
    change (silence_lasted t0 (EvDataAvailable r data :: tr))
      with (silence_lasted t0 tr).
    split; [|done].
    rewrite IH1. unfold stop_calls. by rewrite H8.
  - (* a poll *)
    change (silence_lasted t0 (EvSilenceTick now dataArray :: tr))
      with (if rms_above_threshold dataArray then silence_lasted now tr
            else (SILENCE_MS <=? now - t0) || silence_lasted t0 tr).
    destruct (rms_above_threshold dataArray) eqn:Hq.
    + destruct (tick_loud s t0 now dataArray Hs Hq) as [L1 L2].
      destruct (IH _ now L1) as [IH1 IH2].
      split; [|done]. by rewrite IH1, L2.
    + destruct (SILENCE_MS <=? now - t0) eqn:Hlate; cbn [orb].
      * apply Z.leb_le in Hlate.
        destruct (tick_fire s t0 now dataArray Hs Hq Hlate)
          as (H1 & H2 & H3 & H4 & H5 & H6 & H7).
        destruct (fired_run tr (step s (EvSilenceTick now dataArray)))
          as [F1 F2]; [by unfold silence_fired|done|].
        split; [|done]. rewrite F2, H7. lia.
      * apply Z.leb_gt in Hlate.
        rewrite (tick_quiet s t0 now dataArray Hs Hq Hlate). by apply IH.
Qed.

(** A segment that begins while the conversation is active arms the
    detector: the new analyser re-runs the silence effect, which passes its
    gate. *)
Lemma segment_arms s t0 :
  analysers_fresh s ->
  isMounted s = true ->
  (0 < pendingUserMedia s)%nat ->
  isConversationActiveRef s = true ->
  silence_armed (step s (EvUserMedia true t0)) t0.
Proof.
  intros [_ Hf] Hm Hp Hc.
  assert (Hf' : silenceDeps s <> Some (listening, Some (analysers s))).
  { intros H. apply Hf in H. lia. }
  clear Hf.
  split; [|split; [by apply step_committed|]].
  { unfold step. rewrite Hm. destruct_hook s; unfold_hook; cbn in *.
    repeat (case_match; cbn); done. }
  unfold mediaRecorder_state.
  destruct_hook s; cbn in *; subst. destruct pendingUserMedia as [|n]; [lia|].
  unfold step, dispatch, _startMediaRecorder_resolved, commit, silence_effect; cbn.
  rewrite (bool_decide_eq_false_2 (silenceDeps = _)) by done. cbn.
  rewrite (bool_decide_eq_true_2 (listening = listening)) by done. cbn.
  rewrite lookup_app_r, Nat.sub_diag by done. done.
Qed.


(** What the detector does for a capture segment that begins while the
    conversation is active (in any reachable state with a microphone request
    pending): the session is [listening] with the guard flag reset and the
    detector armed.  From there, through any sequence of polls and chunks, the
    recorder is stopped exactly once if the input stays at or below the
    threshold for 1500 ms or more since the last voice activity, and not at
    all otherwise, however many polls follow; when it fires, [appState]
    becomes [processing] and the recorder is inactive.  In no reachable state
    other than [listening] does a poll do anything, a raised guard flag alone
    keeps a poll from stopping anything, and every new segment lowers it. *)
Theorem silence_auto_stop (before : list Event) (t0 : Z) (polls : list Event) :
  let s0 := run mounted before in
  isMounted s0 = true ->
  (0 < pendingUserMedia s0)%nat ->
  isConversationActiveRef s0 = true ->
  Forall segment_event polls ->
  let s := step s0 (EvUserMedia true t0) in
  let s' := run s polls in
  appState s = listening /\
  isConversationActiveRef s = true /\
  didAutoStopSegmentRef s = false /\
  silence_armed s t0 /\
  stop_calls s' =
    (stop_calls s + if silence_lasted t0 polls then 1 else 0)%nat /\
  (silence_lasted t0 polls = true ->
     appState s' = processing /\
     mediaRecorder_state s' = Some inactive /\
     didAutoStopSegmentRef s' = true) /\
  (silence_lasted t0 polls = false -> exists t, silence_armed s' t) /\
  (forall (tr : list Event) (now : Z) (dataArray : list Z),
     appState (run mounted tr) <> listening ->
     step (run mounted tr) (EvSilenceTick now dataArray) = run mounted tr) /\
  (forall (x : Hook) (now : Z) (dataArray : list Z),
     didAutoStopSegmentRef x = true ->
     effects (silence_tick now dataArray x) = effects x /\
     appState (silence_tick now dataArray x) = appState x) /\
  (forall (x : Hook) (now : Z),
     didAutoStopSegmentRef (_startMediaRecorder_resolved now x) = false).
Proof.
  intros s0 Hm Hp Hc Hq s s'.
  assert (Harm : silence_armed s t0).
  { apply segment_arms; try done. apply reachable_analysers. }
  destruct (user_media_granted_spec s0 t0 Hm Hp)
    as (_ & _ & _ & _ & _ & _ & Hc' & Ha' & _ & Hg' & _).
  destruct (armed_run polls s t0 Harm Hq) as [Hn Hs'].
  fold s' in Hn, Hs'.
  split; [done|]. split; [unfold s; by rewrite Hc'|]. split; [done|].
  split; [done|].
  split; [done|]. split; [|split; [|split; [|split]]].
  - intros Hr. rewrite Hr in Hs'. by destruct Hs' as (_ & _ & ? & ? & ?).
  - intros Hr. by rewrite Hr in Hs'.
  - intros tr now dataArray Hl. apply tick_not_listening; [|done].
    apply reachable_committed.
  - intros x now dataArray Hx.
    by destruct (tick_guarded x now dataArray Hx) as (? & ? & _).
  - intros x now. by destruct_hook x.
Qed.

Lemma silence_auto_stop_witness :
  let polls :=
    [ EvSilenceTick 9100 silent_window;
      EvDataAvailable 1 ["a"%byte];
      EvSilenceTick 10400 loud_window;
      EvSilenceTick 10600 silent_window;
      EvSilenceTick 11900 silent_window;
      EvSilenceTick 12000 silent_window;
      EvSilenceTick 13500 silent_window ] in
  let s0 := run mounted handsfree_turn in
  let s := step s0 (EvUserMedia true 9000) in
  let s' := run s polls in
  didAutoStopSegmentRef s0 = true /\
  didAutoStopSegmentRef s = false /\
  silence_lasted 9000 polls = true /\
  stop_calls s' = (stop_calls s + 1)%nat /\
  appState s' = processing.
Proof.
  pose proof (silence_auto_stop handsfree_turn 9000
    [ EvSilenceTick 9100 silent_window;
      EvDataAvailable 1 ["a"%byte];
      EvSilenceTick 10400 loud_window;
      EvSilenceTick 10600 silent_window;
      EvSilenceTick 11900 silent_window;
      EvSilenceTick 12000 silent_window;
      EvSilenceTick 13500 silent_window ]) as H.
  cbv zeta in H.
  destruct H as (_ & _ & Hg & _ & Hn & Hf & _).
  - reflexivity.
  - vm_compute. lia.
  - reflexivity.
  - repeat constructor.
  - split; [reflexivity|]. split; [exact Hg|]. split; [reflexivity|].
    split; [exact Hn|]. apply Hf. reflexivity.
Defined.

(** ** Playback order *)
















(** A trace without any [user_speaking] frame is uninterrupted. *)
Lemma no_user_speaking_uninterrupted tr s :
  Forall (fun e => is_user_speaking_frame e = false) tr -> uninterrupted s tr.
Proof.
  intros Htr. revert s. induction Htr as [|e tr He _ IH]; intros s; [done|].
  split; [|apply IH]. unfold interrupts. by rewrite He.
Qed.




(** The three fragments of [three_fragments], and what was played. *)
Lemma three_fragments_played :
  let s := run mounted three_fragments in
  enqueued mounted three_fragments =
    [ ["M"; "a"; "n"]; ["M"; "a"]; ["M"] ]%byte /\
  sources s =
    [ mkSource ["M"; "a"; "n"]%byte true; mkSource ["M"]%byte true ] /\
  audioQueueRef s = [] /\ isPlayingRef s = false.
Proof. vm_compute. done. Qed.

(** ** Audio backfill *)

Lemma backfill_populated c prev lastMsg :
  list.last prev = Some lastMsg ->
  truthy (Message.audioData lastMsg) = true ->
  backfill c prev = prev.
Proof.
  intros Hl Ht. unfold backfill. rewrite Hl, Ht. by destruct (Message.type _).
Qed.

(** What [backfill] does to the message at a given index. *)
Lemma backfill_lookup c prev i m :
  prev !! i = Some m ->
  backfill c prev !! i = Some m \/
  (Message.type m = ai /\ truthy (Message.audioData m) = false /\
   S i = length prev /\
   backfill c prev !! i =
     Some (Message.mk (Message.id m) (Message.type m) (Message.text m)
             (Message.timestamp m) (Some c))).
Proof.
  intros Hi. unfold backfill.
  destruct (list.last prev) as [lastMsg|] eqn:Hl; [|by left].
  destruct (Message.type lastMsg) eqn:Hty; [by left|].
  destruct (truthy (Message.audioData lastMsg)) eqn:Ht; [by left|].
  destruct (decide (i = pred (length prev))) as [->|Hne].
  - right. rewrite last_lookup in Hl. rewrite Hl in Hi. injection Hi as ->.
    apply lookup_lt_Some in Hl.
    rewrite list_lookup_insert_eq by done.
    repeat split; try done; try lia. by rewrite Hty.
  - left. by rewrite list_lookup_insert_ne.
Qed.

Lemma join_nonempty sep (l : list string) :
  l <> [] -> Forall (fun c => c <> "") l -> join sep l <> "".
Proof.
  intros Hne Hl. destruct Hl as [|c l Hc Hl]; [done|].
  destruct c; [done|]. by destruct l.
Qed.

Lemma playNextInQueue_messages s :
  let s' := playNextInQueue s in
  (currentAiAudioChunksRef s' = currentAiAudioChunksRef s \/
   currentAiAudioChunksRef s' = []) /\
  (messages s' = messages s \/
   (currentAiAudioChunksRef s <> [] /\
    messages s' = backfill (join "|" (currentAiAudioChunksRef s)) (messages s))).
Proof.
  destruct_hook s;
    unfold playNextInQueue, _startMediaRecorder, mediaRecorder_state, perform;
    cbn -[join backfill].
  destruct audioQueueRef; cbn -[join backfill]; [|by auto].
  destruct currentAiAudioChunksRef as [|c cs]; cbn -[join backfill];
    repeat (case_match; cbn -[join backfill]); auto.
Qed.

Lemma handleWebSocketMessage_messages data now s :
  let s' := handleWebSocketMessage data now s in
  (currentAiAudioChunksRef s' = currentAiAudioChunksRef s \/
   currentAiAudioChunksRef s' = [] \/
   exists d, d <> "" /\
     currentAiAudioChunksRef s' = currentAiAudioChunksRef s ++ [d]) /\
  (messages s' = messages s \/
   exists m, messages s' = messages s ++ [m] /\
     (Message.audioData m = None \/
      (currentAiAudioChunksRef s <> [] /\
       Message.audioData m = Some (join "|" (currentAiAudioChunksRef s))))).
Proof.
  cbv zeta. unfold handleWebSocketMessage.
  destruct (WebSocketMessage.type data); try (by auto).
  - (* transcript *)
    destruct_hook s; unfold addMessage; cbn -[new_Blob].
    repeat (case_match; cbn -[new_Blob]); eauto 10.
  - (* ai_response *)
    destruct_hook s; unfold addMessage; cbn -[join].
    destruct currentAiAudioChunksRef as [|c cs]; cbn -[join];
      repeat (case_match; cbn -[join]); split; eauto 10.
  - (* ai_stream_chunk *)
    destruct_hook s; cbn. repeat (case_match; cbn); auto.
  - (* ai_processing *)
    destruct_hook s; cbn. auto.
  - (* audio *)
    destruct (truthy (WebSocketMessage.data data)) eqn:Ht; [|by auto].
    apply truthy_true in Ht as (d & Hd & Hne). rewrite Hd.
    change (default "" (Some d)) with d.
    set (s1 := set_currentAiAudioChunksRef _ s).
    assert (H1 : currentAiAudioChunksRef s1 = currentAiAudioChunksRef s ++ [d] /\
                 messages s1 = messages s) by (by destruct_hook s).
    destruct H1 as [Hc Hm].
    destruct (atob d) as [b|]; [|rewrite Hc, Hm; eauto 10].
    unfold queueAudio.
    set (s2 := set_audioQueueRef _ s1).
    assert (H2 : currentAiAudioChunksRef s2 = currentAiAudioChunksRef s1 /\
                 messages s2 = messages s1 /\
                 audioQueueRef s2 = audioQueueRef s1 ++ [b]) by (by destruct_hook s1).
    destruct H2 as (Hc2 & Hm2 & Hq2).
    destruct (isPlayingRef s2); cbn [negb];
      [rewrite Hc2, Hm2, Hc, Hm; eauto 10|].
    assert (H3 : currentAiAudioChunksRef (playNextInQueue s2)
                   = currentAiAudioChunksRef s2 /\
                 messages (playNextInQueue s2) = messages s2).
    { unfold playNextInQueue. rewrite Hq2.
      destruct (audioQueueRef s1); cbn; by destruct_hook s2. }
    destruct H3 as [-> ->]. rewrite Hc2, Hm2, Hc, Hm. eauto 10.
  - (* recording_started *)
    destruct_hook s; cbn. auto.
  - (* error *)
    destruct_hook s; cbn. auto.
  - (* stt_error *)
    destruct_hook s; cbn. auto.
  - (* user_speaking *)
    destruct_hook s; cbn. repeat (case_match; cbn); auto.
Qed.

Lemma commit_messages s :
  messages (commit s) = messages s /\
  currentAiAudioChunksRef (commit s) = currentAiAudioChunksRef s.
Proof.
  destruct_hook s; unfold commit, silence_effect; cbn.
  repeat (case_match; cbn); done.
Qed.

(** What one turn of the event loop does to the message log and to the
    inbound fragment accumulator. *)
Lemma step_messages s e :
  let s' := step s e in
  (currentAiAudioChunksRef s' = currentAiAudioChunksRef s \/
   currentAiAudioChunksRef s' = [] \/
   exists d, d <> "" /\
     currentAiAudioChunksRef s' = currentAiAudioChunksRef s ++ [d]) /\
  (messages s' = messages s \/
   (exists m, messages s' = messages s ++ [m]) \/
   (currentAiAudioChunksRef s <> [] /\
    messages s' = backfill (join "|" (currentAiAudioChunksRef s)) (messages s))).
Proof.
  cbv zeta. unfold step. destruct (isMounted s); [|by auto].
  destruct (commit_messages (dispatch e s)) as [-> ->].
  destruct e as [ | | |parsed now|id| | |text now|settings|granted now|r data|r
                |i now|now dataArray|job ok|source| |tfail]; cbn [dispatch].
  - destruct_hook s; unfold_hook; cbn; repeat (case_match; cbn); auto.
  - destruct_hook s; unfold_hook; cbn; repeat (case_match; cbn); auto.
  - destruct_hook s; unfold_hook; cbn; repeat (case_match; cbn); auto.
  - (* inbound frame *)
    destruct parsed as [data|]; [|by auto].
    destruct (socket_is_open s); [|by auto].
    destruct (handleWebSocketMessage_messages data now s) as [H1 H2].
    split; [done|]. destruct H2 as [H2|(m & H2 & _)]; eauto.
  - destruct_hook s; unfold_hook; cbn; repeat (case_match; cbn); auto.
  - destruct_hook s; unfold_hook; cbn; repeat (case_match; cbn); auto.
  - destruct_hook s; unfold_hook; cbn; repeat (case_match; cbn); auto.
  - destruct_hook s; unfold_hook; cbn -[trim]; repeat (case_match; cbn -[trim]);
      first [by auto|by (split; [auto|right; left; eauto])].
  - destruct_hook s; unfold_hook; cbn; repeat (case_match; cbn); auto.
  - destruct_hook s; unfold_hook; cbn; repeat (case_match; cbn); auto.
  - destruct_hook s; unfold dispatch, ondataavailable; cbn;
      repeat (case_match; cbn); auto.
  - destruct_hook s; unfold dispatch, onstop; cbn -[new_Blob];
      repeat (case_match; cbn -[new_Blob]); auto.
  - destruct_hook s; unfold dispatch, onloadend_send, onloadend_attach, addMessage,
      perform, socket_is_open; cbn -[dataURL_payload];
      repeat (case_match; cbn -[dataURL_payload]);
      first [by auto|by (split; [auto|right; left; eauto])].
  - destruct_hook s; unfold dispatch, silence_tick, MediaRecorder_stop,
      release_stream, perform, mediaRecorder_state; cbn;
      repeat (case_match; cbn); auto.
  - (* decode settled *)
    destruct (decodes s !! job) as [d|]; [|by auto].
    case_bool_decide; [|by auto].
    set (s1 := set_decodes _ s).
    assert (H1 : currentAiAudioChunksRef s1 = currentAiAudioChunksRef s /\
                 messages s1 = messages s) by (by destruct_hook s).
    destruct H1 as [Hc Hm]. destruct ok.
    + rewrite <- Hc, <- Hm. by destruct_hook s1; auto.
    + destruct (playNextInQueue_messages s1) as [P1 P2].
      rewrite Hc, Hm in *. split; [tauto|tauto].
  - (* source ended *)
    destruct (sources s !! source) as [src|]; [|by auto].
    destruct (ended src); [by auto|].
    set (s1 := set_sources _ s).
    assert (H1 : currentAiAudioChunksRef s1 = currentAiAudioChunksRef s /\
                 messages s1 = messages s) by (by destruct_hook s).
    destruct H1 as [Hc Hm].
    destruct (playNextInQueue_messages s1) as [P1 P2].
    rewrite Hc, Hm in *. split; [tauto|tauto].
  - destruct_hook s; unfold_hook; cbn; repeat (case_match; cbn); auto.
  - destruct_hook s; unfold_hook; cbn; repeat (case_match; cbn); auto.
Qed.

(** The accumulated inbound fragments are never empty strings. *)
Lemma reachable_chunks tr :
  Forall (fun c => c <> "") (currentAiAudioChunksRef (run mounted tr)).
Proof.
  assert (H0 : Forall (fun c => c <> "") (currentAiAudioChunksRef mounted))
    by constructor.
  revert H0. generalize mounted. induction tr as [|e tr IH]; intros s Hs; [done|].
  apply IH. destruct (step_messages s e) as [[->|[->|(d & Hd & ->)]] _].
  - done.
  - constructor.
  - apply Forall_app. split; [done|]. by repeat constructor.
Qed.

Lemma populated_kept s e i m :
  messages s !! i = Some m ->
  truthy (Message.audioData m) = true ->
  messages (step s e) !! i = Some m.
Proof.
  intros Hi Ht.
  destruct (step_messages s e) as [_ [->|[(m' & ->)|(_ & ->)]]].
  - done.
  - rewrite lookup_app_l; [done|]. by eapply lookup_lt_Some.
  - destruct (backfill_lookup (join "|" (currentAiAudioChunksRef s)) _ _ _ Hi)
      as [H|(_ & Hf & _)]; [done|congruence].
Qed.

(** C6.  Attaching audio to a message that already has some is a no-op: the
    updater returns the list it was given when the last message is populated;
    in any state, whatever event is delivered, a message with populated
    [audioData] is found unchanged at its index afterwards; and in every
    reachable state a message is changed by an event only when it is the
    last one, an AI message without audio, and the change populates its
    [audioData], leaving the rest of it as it was, so the backfill is applied
    to a message at most once. *)
Theorem audio_backfill_once
    (trace : list Event) (e : Event) (i : nat) (m : Message.t) :
  let s := run mounted trace in
  messages s !! i = Some m ->
  (forall (c : string) (prev : list Message.t) (lastMsg : Message.t),
     list.last prev = Some lastMsg ->
     truthy (Message.audioData lastMsg) = true ->
     backfill c prev = prev) /\
  (forall (x : Hook) (e' : Event) (j : nat) (n : Message.t),
     messages x !! j = Some n ->
     truthy (Message.audioData n) = true ->
     messages (step x e') !! j = Some n) /\
  exists m',
    messages (step s e) !! i = Some m' /\
    (m' = m \/
     (Message.type m = ai /\
      S i = length (messages s) /\
      truthy (Message.audioData m) = false /\
      truthy (Message.audioData m') = true /\
      Message.id m' = Message.id m /\
      Message.type m' = Message.type m /\
      Message.text m' = Message.text m /\
      Message.timestamp m' = Message.timestamp m)).
Proof.
  intros s Hi. split; [exact backfill_populated|]. split; [exact populated_kept|].
  pose proof (reachable_chunks trace) as Hch. fold s in Hch.
  destruct (step_messages s e) as [_ [->|[(m' & ->)|(Hne & ->)]]].
  - eauto.
  - exists m. split; [|by left]. rewrite lookup_app_l; [done|].
    by eapply lookup_lt_Some.
  - destruct (backfill_lookup (join "|" (currentAiAudioChunksRef s)) _ _ _ Hi)
      as [H|(Hty & Hf & Hlast & H)]; [eauto|].
    eexists. split; [exact H|]. right. repeat split; try done.
    apply truthy_true. eexists. split; [done|]. by apply join_nonempty.
Qed.

Lemma audio_backfill_once_witness :
  let s := run mounted late_audio in
  let m := Message.mk "1700000000000" ai "Xin chào" "10:00" None in
  messages s !! 0%nat = Some m /\
  messages (step s (EvEnded 0)) !! 0%nat =
    Some (Message.mk "1700000000000" ai "Xin chào" "10:00" (Some "TWFu")) /\
  exists m',
    messages (step s (EvEnded 0)) !! 0%nat = Some m' /\
    (m' = m \/
     (Message.type m = ai /\
      1%nat = length (messages s) /\
      truthy (Message.audioData m) = false /\
      truthy (Message.audioData m') = true /\
      Message.id m' = Message.id m /\
      Message.type m' = Message.type m /\
      Message.text m' = Message.text m /\
      Message.timestamp m' = Message.timestamp m)).
Proof.
  split; [reflexivity|]. split; [reflexivity|].
  apply (audio_backfill_once late_audio (EvEnded 0) 0
           (Message.mk "1700000000000" ai "Xin chào" "10:00" None)).
  reflexivity.
Defined.
(** ** The connection *)

Lemma commit_connection s :
  socketRef (commit s) = socketRef s /\
  isConnectingRef (commit s) = isConnectingRef s /\
  isConnected (commit s) = isConnected s /\
  timers (commit s) = timers s /\
  reconnectTimeoutRef (commit s) = reconnectTimeoutRef s /\
  reconnectAttemptRef (commit s) = reconnectAttemptRef s /\
  isMounted (commit s) = isMounted s.
Proof.
  destruct_hook s; unfold commit, silence_effect; cbn.
  repeat (case_match; cbn); done.
Qed.

(** Only the socket's own events, the reconnect timer and the unmount touch
    the connection. *)
Lemma dispatch_connection_frame e s :
  match e with
  | EvSocketOpen | EvSocketClose | EvSocketError | EvTimeout _ | EvUnmount => True
  | _ =>
      socketRef (dispatch e s) = socketRef s /\
      isConnectingRef (dispatch e s) = isConnectingRef s /\
      isConnected (dispatch e s) = isConnected s /\
      timers (dispatch e s) = timers s /\
      reconnectTimeoutRef (dispatch e s) = reconnectTimeoutRef s /\
      reconnectAttemptRef (dispatch e s) = reconnectAttemptRef s /\
      isMounted (dispatch e s) = isMounted s
  end.
Proof.
  destruct e; try done; destruct_hook s; unfold_hook; cbn;
    repeat (case_match; cbn); done.
Qed.

Lemma connection_ok_same s s' :
  socketRef s' = socketRef s -> isConnectingRef s' = isConnectingRef s ->
  isConnected s' = isConnected s -> timers s' = timers s ->
  reconnectTimeoutRef s' = reconnectTimeoutRef s ->
  reconnectAttemptRef s' = reconnectAttemptRef s ->
  isMounted s' = isMounted s ->
  connection_ok s -> connection_ok s'.
Proof.
  unfold connection_ok. intros -> -> -> -> -> -> ->. done.
Qed.

Lemma dispatch_connection e s :
  isMounted s = true -> connection_ok s -> connection_ok (dispatch e s).
Proof.
  intros Hm Hok. pose proof (dispatch_connection_frame e s) as Hf.
  destruct e as [ | | |parsed now|id| | |text now|settings|granted now|r data|r
                |i now|now dataArray|job ok|source| |tfail];
    try (destruct Hf as (H1 & H2 & H3 & H4 & H5 & H6 & H7);
         by apply (connection_ok_same s)).
  - (* open *)
    unfold connection_ok in *. destruct_hook s; unfold_hook; cbn in *. subst.
    repeat (case_match; cbn in *; simplify_eq); destruct_and?; subst; done.
  - (* close *)
    unfold connection_ok in *. destruct_hook s; unfold_hook; cbn in *. subst.
    repeat (case_match; cbn in *; simplify_eq); destruct_and?; subst; cbn;
      try done; repeat split; by eexists.
  - (* error *)
    unfold connection_ok in *. destruct_hook s; unfold_hook; cbn in *. subst.
    repeat (case_match; cbn in *; simplify_eq); destruct_and?; subst; done.
  - (* the timer fires *)
    unfold connection_ok in *. destruct_hook s; cbn in *. subst.
    destruct socketRef as [[]|]; cbn; try done.
    1-3: by (destruct_and?; subst; cbn; rewrite bool_decide_eq_false_2
               by (by intros ?%elem_of_nil)).
    destruct Hok as (-> & -> & id' & -> & ->). cbn.
    case_bool_decide as Hid; [|repeat split; by eexists].
    apply list_elem_of_singleton in Hid as ->.
    unfold_hook; cbn. rewrite !decide_False by (by intros ?).
    done.
  - (* unmount *)
    unfold connection_ok in *. destruct_hook s; cbn in *. subst.
    destruct socketRef as [[]|]; cbn; try done.
    + destruct Hok as (_ & _ & ->). destruct reconnectTimeoutRef; done.
    + destruct Hok as (_ & _ & ->). destruct reconnectTimeoutRef; done.
    + destruct Hok as (_ & ->). destruct reconnectTimeoutRef; done.
    + destruct Hok as (-> & -> & id' & -> & ->). unfold_hook; cbn.
      by rewrite decide_False by (by intros ?).
Qed.

Lemma step_connection s e : connection_ok s -> connection_ok (step s e).
Proof.
  intros Hok. unfold step. destruct (isMounted s) eqn:Hm; [|done].
  destruct (commit_connection (dispatch e s)) as (H1 & H2 & H3 & H4 & H5 & H6 & H7).
  apply (connection_ok_same (dispatch e s)); try done.
  by apply dispatch_connection.
Qed.

Lemma reachable_connection tr : connection_ok (run mounted tr).
Proof.
  assert (H0 : connection_ok mounted) by (by vm_compute).
  revert H0. generalize mounted.
  induction tr as [|e tr IH]; intros s Hs; [done|].
  apply IH. by apply step_connection.
Qed.

(** X1.  In every state the hook can reach, the [isConnected] flag follows
    the socket: it is set whenever the socket is open, and when it is set the
    socket is open or is closing (after an error or the unmount, before its
    [close] event); the re-entrance guard [isConnectingRef] is held exactly
    while the socket is connecting. *)
Theorem connected_indicator (trace : list Event) :
  let s := run mounted trace in
  (socketRef s = Some OPEN -> isConnected s = true) /\
  (isConnected s = true ->
     socketRef s = Some OPEN \/ socketRef s = Some CLOSING) /\
  (isConnectingRef s = true <-> socketRef s = Some CONNECTING).
Proof.
  intros s. pose proof (reachable_connection trace) as Hok.
  fold s in Hok. unfold connection_ok in Hok.
  destruct (socketRef s) as [[]|]; [| | | |done].
  - destruct Hok as (-> & -> & _). repeat split; done.
  - destruct Hok as (-> & -> & _). repeat split; try done. by left.
  - destruct Hok as (-> & _). repeat split; try done. by right.
  - destruct Hok as (-> & -> & _). repeat split; done.
Qed.

Lemma connected_indicator_witness :
  let s := run mounted [EvSocketOpen; EvSocketError] in
  socketRef s = Some CLOSING /\ isConnected s = true /\
  isConnected (run mounted [EvSocketOpen]) = true /\
  (socketRef s = Some OPEN \/ socketRef s = Some CLOSING).
Proof.
  split; [reflexivity|]. split; [reflexivity|]. split.
  - apply (connected_indicator [EvSocketOpen]). reflexivity.
  - apply (connected_indicator [EvSocketOpen; EvSocketError]). reflexivity.
Defined.

(** X2.  In every reachable state at most one reconnect timer is pending;
    a pending timer is the one [reconnectTimeoutRef] names, the socket has
    closed, and its delay is [min(5000, 500 * attempt)].  Conversely, while
    the component is mounted a closed socket always has its retry pending,
    and when that timer fires [connect()] goes through (the re-entrance guard
    does not hold it back): a new socket is connecting and no timer is left. *)
Theorem single_reconnect_timer (trace : list Event) :
  let s := run mounted trace in
  (length (timers s) <= 1)%nat /\
  (forall id d, (id, d) ∈ timers s ->
     socketRef s = Some CLOSED /\ reconnectTimeoutRef s = Some id /\
     d = Z.min 5000 (500 * reconnectAttemptRef s)) /\
  (isMounted s = true -> socketRef s = Some CLOSED ->
     exists id,
       reconnectTimeoutRef s = Some id /\
       socketRef (step s (EvTimeout id)) = Some CONNECTING /\
       isConnectingRef (step s (EvTimeout id)) = true /\
       timers (step s (EvTimeout id)) = []).
Proof.
  intros s. pose proof (reachable_connection trace) as Hok.
  fold s in Hok. unfold connection_ok in Hok.
  destruct (socketRef s) as [[]|] eqn:Hsock; [| | | |done].
  - destruct Hok as (_ & _ & Ht). rewrite Ht. cbn.
    split; [lia|]. split; [by intros ? ? ?%elem_of_nil|done].
  - destruct Hok as (_ & _ & Ht). rewrite Ht. cbn.
    split; [lia|]. split; [by intros ? ? ?%elem_of_nil|done].
  - destruct Hok as (_ & Ht). rewrite Ht. cbn.
    split; [lia|]. split; [by intros ? ? ?%elem_of_nil|done].
  - destruct (isMounted s) eqn:Hmounted.
    2:{ destruct Hok as (_ & _ & Ht). rewrite Ht. cbn.
        split; [lia|]. split; [by intros ? ? ?%elem_of_nil|done]. }
    destruct Hok as (Hc & _ & id & Hr & Ht). rewrite Ht. cbn.
    split; [lia|]. split.
    + intros id' d [= -> ->]%list_elem_of_singleton. done.
    + intros Hm _. exists id. split; [done|].
      destruct (commit_connection (dispatch (EvTimeout id) s))
        as (H1 & H2 & _ & H4 & _).
      unfold step. rewrite Hmounted, H1, H2, H4. clear H1 H2 H4.
      destruct_hook s; cbn in *. subst. unfold_hook; cbn.
      rewrite bool_decide_eq_true_2 by (apply list_elem_of_singleton; done).
      cbn. rewrite !decide_False by (by intros ?). done.
Qed.

Lemma single_reconnect_timer_witness :
  let s := run mounted [EvSocketOpen; EvSocketClose] in
  timers s = [(1%positive, 500)] /\
  (socketRef s = Some CLOSED /\ reconnectTimeoutRef s = Some 1%positive /\
   500 = Z.min 5000 (500 * reconnectAttemptRef s)) /\
  exists id,
    reconnectTimeoutRef s = Some id /\
    socketRef (step s (EvTimeout id)) = Some CONNECTING /\
    isConnectingRef (step s (EvTimeout id)) = true /\
    timers (step s (EvTimeout id)) = [].
Proof.
  split; [reflexivity|].
  destruct (single_reconnect_timer [EvSocketOpen; EvSocketClose])
    as (_ & H2 & H3).
  split.
  - apply H2. vm_compute. left.
  - apply H3; reflexivity.
Defined.

Lemma dispatch_isMounted e s :
  isMounted (dispatch e s) = isMounted s \/ e = EvUnmount.
Proof.
  destruct e; try (by right); left; destruct_hook s; unfold_hook; cbn;
    repeat (case_match; cbn); done.
Qed.

Lemma commit_interval s :
  committed s -> silenceInterval (commit s) = silenceInterval s.
Proof. intros Hc. by rewrite commit_committed. Qed.

(** The cleanups of the connection effect and of the silence effect
    together, field by field. *)
Lemma unmount_frame s :
  committed s ->
  let s' := commit (unmount s) in
  isMounted s' = false /\
  silenceInterval s' = None /\
  isConnectingRef s' = false /\
  socketRef s' = match socketRef s with
                 | Some CLOSED => Some CLOSED
                 | Some _ => Some CLOSING
                 | None => None
                 end /\
  (timers s' = match reconnectTimeoutRef s with
               | Some id => timers (clearTimeout id s)
               | None => timers s
               end /\
   (effects s' = effects s /\
    recorders s' = recorders s /\
    mediaRecorderRef s' = mediaRecorderRef s /\
    streams s' = streams s /\
    mediaStreamRef s' = mediaStreamRef s /\
    pendingUserMedia s' = pendingUserMedia s /\
    readers s' = readers s /\
    decodes s' = decodes s /\
    sources s' = sources s /\
    audioQueueRef s' = audioQueueRef s /\
    isPlayingRef s' = isPlayingRef s)).
Proof.
  intros [Hc1 Hc2].
  assert (Hs : commit (unmount s) = set_appStateRef (appState s) (unmount s)).
  { destruct_hook s; cbn in *. subst.
    unfold commit, silence_effect, unmount, clearTimeout.
    destruct socketRef as [[]|], reconnectTimeoutRef; cbn;
      by rewrite bool_decide_eq_true_2. }
  cbv zeta. rewrite Hs. clear.
  destruct_hook s; unfold unmount, clearTimeout.
  destruct socketRef as [[]|], reconnectTimeoutRef; cbn;
    repeat (split; [reflexivity|]); reflexivity.
Qed.

(** X3.  What the cleanups do when the component unmounts, and what they
    leave alone.  In whatever reachable state the component is unmounted,
    the pending reconnect timer is cancelled, the silence poll is cleared,
    the re-entrance guard is released and the socket is closed (a socket
    that has closed already stays closed).  Nothing else is touched: no call
    is made on a recorder, on the microphone tracks or on a source, so a
    recorder that is recording keeps recording, a live stream stays live,
    and decode jobs, sources, the playback queue, file readers and a pending
    microphone request are as they were. *)
Theorem unmount_cleanup (trace : list Event) :
  let s0 := run mounted trace in
  let s := step s0 EvUnmount in
  isMounted s0 = true ->
  (isMounted s = false /\
   timers s = [] /\
   silenceInterval s = None /\
   isConnectingRef s = false /\
   socketRef s = match socketRef s0 with
                 | Some CLOSED => Some CLOSED
                 | Some _ => Some CLOSING
                 | None => None
                 end) /\
  (effects s = effects s0 /\
   recorders s = recorders s0 /\
   mediaRecorderRef s = mediaRecorderRef s0 /\
   streams s = streams s0 /\
   mediaStreamRef s = mediaStreamRef s0 /\
   pendingUserMedia s = pendingUserMedia s0 /\
   readers s = readers s0 /\
   decodes s = decodes s0 /\
   sources s = sources s0 /\
   audioQueueRef s = audioQueueRef s0 /\
   isPlayingRef s = isPlayingRef s0).
Proof.
  intros s0 s Hm. subst s.
  pose proof (reachable_connection trace) as Hok. fold s0 in Hok.
  pose proof (reachable_committed trace) as Hc. fold s0 in Hc.
  unfold step. rewrite Hm. cbn [dispatch]. clearbody s0.
  destruct (unmount_frame s0) as (F1 & F2 & F3 & F4 & F5 & F6); [done|].
  split; [|exact F6].
  split; [exact F1|]. split; [|by split; [exact F2|split; [exact F3|exact F4]]].
  rewrite F5. unfold connection_ok in Hok. clear -Hok Hm.
  assert (Hclear : forall id,
            timers (clearTimeout id s0) = filter (fun t => t.1 <> id) (timers s0))
    by (by intros id; destruct_hook s0).
  destruct (socketRef s0) as [[]|]; [| | | |done].
  - destruct Hok as (_ & _ & Ht), (reconnectTimeoutRef s0);
      by rewrite ?Hclear, Ht.
  - destruct Hok as (_ & _ & Ht), (reconnectTimeoutRef s0);
      by rewrite ?Hclear, Ht.
  - destruct Hok as (_ & Ht), (reconnectTimeoutRef s0);
      by rewrite ?Hclear, Ht.
  - rewrite Hm in Hok. destruct Hok as (_ & _ & id & -> & Ht).
    rewrite Hclear, Ht. cbn. by rewrite decide_False by (by intros ?).
Qed.

Lemma unmount_cleanup_witness :
  let s0 := run mounted [EvSocketOpen; EvStartRecording; EvUserMedia true 0;
                         EvSocketClose] in
  let s := step s0 EvUnmount in
  (isMounted s = false /\
   timers s = [] /\
   silenceInterval s = None /\
   isConnectingRef s = false /\
   socketRef s = match socketRef s0 with
                 | Some CLOSED => Some CLOSED
                 | Some _ => Some CLOSING
                 | None => None
                 end) /\
  (effects s = effects s0 /\
   recorders s = recorders s0 /\
   mediaRecorderRef s = mediaRecorderRef s0 /\
   streams s = streams s0 /\
   mediaStreamRef s = mediaStreamRef s0 /\
   pendingUserMedia s = pendingUserMedia s0 /\
   readers s = readers s0 /\
   decodes s = decodes s0 /\
   sources s = sources s0 /\
   audioQueueRef s = audioQueueRef s0 /\
   isPlayingRef s = isPlayingRef s0).
Proof.
  apply (unmount_cleanup [EvSocketOpen; EvStartRecording; EvUserMedia true 0;
                          EvSocketClose]).
  vm_compute; reflexivity.
Defined.
(** ** Base64 round trip *)

Lemma lor_add (a b k : N) :
  (a mod 2 ^ k = 0)%N -> (b < 2 ^ k)%N -> N.lor a b = (a + b)%N.
Proof.
  intros Ha Hb.
  assert (Hl : N.land a b = 0%N).
  { apply N.bits_inj; intros i. rewrite N.land_spec, N.bits_0.
    destruct (N.lt_ge_cases i k) as [Hi|Hi].
    - rewrite <- (N.mod_pow2_bits_low a k i Hi), Ha, N.bits_0. done.
    - destruct (N.eq_dec b 0%N) as [->|Hz]; [by rewrite N.bits_0, andb_false_r|].
      rewrite (N.bits_above_log2 b i), andb_false_r; [done|].
      apply N.log2_lt_pow2 in Hb; lia. }
  by rewrite <- N.lxor_lor, N.add_nocarry_lxor.
Qed.

Ltac euclid := zify; Z.to_euclidean_division_equations; lia.

Lemma land_63 (x : N) : N.land x 63 = (x mod 64)%N.
Proof. exact (N.land_ones x 6). Qed.

Lemma land_255 (x : N) : N.land x 255 = (x mod 256)%N.
Proof. exact (N.land_ones x 8). Qed.

Lemma byte_of_N_to_N (a : byte) (x : N) :
  (x mod 256)%N = Byte.to_N a -> byte_of_N x = a.
Proof.
  intros Hx. unfold byte_of_N. by rewrite land_255, Hx, Byte.of_to_N.
Qed.

(** Three bytes through four sextets and back. *)
Lemma decode_triple (a b c : byte) :
  let n := N.lor (N.lor (N.shiftl (Byte.to_N a) 16) (N.shiftl (Byte.to_N b) 8))
                 (Byte.to_N c) in
  let m := N.lor (N.lor (N.shiftl (N.land (N.shiftr n 18) 63) 18)
                        (N.shiftl (N.land (N.shiftr n 12) 63) 12))
                 (N.lor (N.shiftl (N.land (N.shiftr n 6) 63) 6) (N.land n 63)) in
  byte_of_N (N.shiftr m 16) = a /\ byte_of_N (N.shiftr m 8) = b /\
  byte_of_N m = c.
Proof.
  pose proof (Byte.to_N_bounded a). pose proof (Byte.to_N_bounded b).
  pose proof (Byte.to_N_bounded c).
  intros n m.
  assert (Hn : n = (Byte.to_N a * 65536 + Byte.to_N b * 256 + Byte.to_N c)%N).
  { subst n. rewrite !N.shiftl_mul_pow2.
    rewrite (lor_add _ (Byte.to_N b * 2 ^ 8) 16), (lor_add _ (Byte.to_N c) 8).
    - done.
    - change (2 ^ 16)%N with 65536%N; change (2 ^ 8)%N with 256%N. euclid.
    - change (2 ^ 8)%N with 256%N. lia.
    - change (2 ^ 16)%N with 65536%N. euclid.
    - change (2 ^ 16)%N with 65536%N; change (2 ^ 8)%N with 256%N. lia. }
  assert (Hm : m = n).
  { subst m. rewrite !land_63, !N.shiftr_div_pow2, !N.shiftl_mul_pow2.
    change (2 ^ 18)%N with 262144%N; change (2 ^ 12)%N with 4096%N;
      change (2 ^ 6)%N with 64%N.
    rewrite (lor_add _ (_ * 4096) 18), (lor_add (_ * 64) _ 6), (lor_add _ _ 12).
    - rewrite Hn. euclid.
    - change (2 ^ 12)%N with 4096%N. euclid.
    - change (2 ^ 12)%N with 4096%N. euclid.
    - change (2 ^ 6)%N with 64%N. euclid.
    - change (2 ^ 6)%N with 64%N. euclid.
    - change (2 ^ 18)%N with 262144%N. euclid.
    - change (2 ^ 18)%N with 262144%N. euclid. }
  rewrite Hm, Hn, !N.shiftr_div_pow2.
  change (2 ^ 16)%N with 65536%N; change (2 ^ 8)%N with 256%N.
  repeat split; apply byte_of_N_to_N; euclid.
Qed.

Lemma decode_single (a : byte) :
  let n := N.shiftl (Byte.to_N a) 16 in
  let m := N.lor (N.shiftl (N.land (N.shiftr n 18) 63) 18)
                 (N.shiftl (N.land (N.shiftr n 12) 63) 12) in
  byte_of_N (N.shiftr m 16) = a.
Proof.
  pose proof (Byte.to_N_bounded a). intros n m.
  assert (Hm : m = (Byte.to_N a * 65536)%N).
  { subst m n. rewrite !land_63, !N.shiftr_div_pow2, !N.shiftl_mul_pow2.
    change (2 ^ 18)%N with 262144%N; change (2 ^ 12)%N with 4096%N;
      change (2 ^ 16)%N with 65536%N.
    rewrite (lor_add _ _ 18).
    - euclid.
    - change (2 ^ 18)%N with 262144%N. euclid.
    - change (2 ^ 18)%N with 262144%N. euclid. }
  rewrite Hm, N.shiftr_div_pow2. change (2 ^ 16)%N with 65536%N.
  apply byte_of_N_to_N; euclid.
Qed.

Lemma decode_pair (a b : byte) :
  let n := N.lor (N.shiftl (Byte.to_N a) 16) (N.shiftl (Byte.to_N b) 8) in
  let m := N.lor (N.lor (N.shiftl (N.land (N.shiftr n 18) 63) 18)
                        (N.shiftl (N.land (N.shiftr n 12) 63) 12))
                 (N.shiftl (N.land (N.shiftr n 6) 63) 6) in
  byte_of_N (N.shiftr m 16) = a /\ byte_of_N (N.shiftr m 8) = b.
Proof.
  pose proof (Byte.to_N_bounded a). pose proof (Byte.to_N_bounded b).
  intros n m.
  assert (Hn : n = (Byte.to_N a * 65536 + Byte.to_N b * 256)%N).
  { subst n. rewrite !N.shiftl_mul_pow2. rewrite (lor_add _ _ 16).
    - done.
    - change (2 ^ 16)%N with 65536%N. euclid.
    - change (2 ^ 16)%N with 65536%N; change (2 ^ 8)%N with 256%N. lia. }
  assert (Hm : m = n).
  { subst m. rewrite !land_63, !N.shiftr_div_pow2, !N.shiftl_mul_pow2.
    change (2 ^ 18)%N with 262144%N; change (2 ^ 12)%N with 4096%N;
      change (2 ^ 6)%N with 64%N.
    rewrite (lor_add _ (_ * 4096) 18), (lor_add _ _ 12).
    - rewrite Hn. euclid.
    - change (2 ^ 12)%N with 4096%N. euclid.
    - change (2 ^ 12)%N with 4096%N. euclid.
    - change (2 ^ 18)%N with 262144%N. euclid.
    - change (2 ^ 18)%N with 262144%N. euclid. }
  rewrite Hm, Hn, !N.shiftr_div_pow2.
  change (2 ^ 16)%N with 65536%N; change (2 ^ 8)%N with 256%N.
  split; apply byte_of_N_to_N; euclid.
Qed.

(** The characters of the alphabet are not white space, padding or bars. *)
Lemma b64_alphabet_plain :
  Forall (fun c => is_ascii_whitespace c = false /\ c <> "="%char /\
                   c <> "|"%char) b64_alphabet.
Proof. unfold b64_alphabet; cbn. repeat constructor; discriminate. Qed.

Lemma b64_digit_plain n :
  is_ascii_whitespace (b64_digit n) = false /\ b64_digit n <> "="%char /\
  b64_digit n <> "|"%char.
Proof.
  pose proof b64_alphabet_plain as Hall. rewrite List.Forall_forall in Hall.
  unfold b64_digit.
  destruct (nth_in_or_default (N.to_nat (N.land n 63)) b64_alphabet "A"%char)
    as [Hin|Heq].
  - by apply Hall.
  - rewrite Heq. repeat split; discriminate.
Qed.

Lemma b64_value_digit n : b64_value (b64_digit n) = Some (N.land n 63).
Proof.
  unfold b64_digit, b64_value.
  assert (Hk : (N.to_nat (N.land n 63) < 64)%nat).
  { rewrite land_63. euclid. }
  rewrite <- (N2Nat.id (N.land n 63)) at 2.
  generalize dependent (N.to_nat (N.land n 63)). intros k Hk.
  do 64 (destruct k as [|k]; [reflexivity|]). lia.
Qed.

(** The text [base64 bs] is a run of digits followed by the padding, and
    the digits decode to [bs]. *)
Lemma base64_shape (n : nat) (bs : list byte) :
  (length bs <= n)%nat ->
  exists (ds : list N) (pad : list ascii) (k : nat),
    String.list_ascii_of_string (base64 bs) = (b64_digit <$> ds) ++ pad /\
    decode_sextets ((fun d => N.land d 63) <$> ds) = bs /\
    ((pad = [] /\ length ds = (4 * k)%nat) \/
     (pad = ["="%char] /\ length ds = (4 * k + 3)%nat) \/
     (pad = ["="%char; "="%char] /\ length ds = (4 * k + 2)%nat)).
Proof.
  revert bs. induction n as [|n IH]; intros [|a [|b [|c rest]]] Hlen;
    cbn [length] in Hlen; try lia.
  - exists [], [], 0%nat. repeat split. by left.
  - exists [], [], 0%nat. repeat split. by left.
  - eexists [_; _], _, 0%nat. split; [reflexivity|]. split.
    + cbn. f_equal. apply decode_single.
    + right; right. done.
  - eexists [_; _; _], _, 0%nat. split; [reflexivity|]. split.
    + cbn. destruct (decode_pair a b) as [Ha Hb]. cbv zeta in Ha, Hb.
      by rewrite Ha, Hb.
    + right; left. done.
  - destruct (IH rest) as (ds & pad & k & Hs & Hd & Hp); [lia|].
    eexists (_ :: _ :: _ :: _ :: ds), pad, (S k). split; [|split].
    + cbn [base64 String.list_ascii_of_string]. rewrite Hs. reflexivity.
    + rewrite !fmap_cons. cbn [decode_sextets].
      destruct (decode_triple a b c) as (Ha & Hb & Hc). cbv zeta in Ha, Hb, Hc.
      by rewrite Ha, Hb, Hc, Hd.
    + cbn [length]. destruct Hp as [[-> ->]|[[-> ->]|[-> ->]]];
        [left|right; left|right; right]; split; try done; lia.
Qed.

Lemma filter_all {A} (P : A -> Prop) `{!forall x, Decision (P x)} (l : list A) :
  Forall P l -> filter P l = l.
Proof.
  induction 1 as [|x l Hx _ IH]; [done|].
  by rewrite filter_cons_True, IH.
Qed.

Lemma mapM_b64_value (ds : list N) :
  mapM b64_value (b64_digit <$> ds) = Some ((fun d => N.land d 63) <$> ds).
Proof.
  induction ds as [|d ds IH]; [done|].
  rewrite !fmap_cons. cbn [mapM]. by rewrite b64_value_digit, IH.
Qed.

Lemma mod4 (k r : nat) : (r < 4)%nat -> ((4 * k + r) mod 4 = r)%nat.
Proof.
  intros Hr. rewrite Nat.add_comm, Nat.mul_comm, Nat.Div0.mod_add.
  by apply Nat.mod_small.
Qed.

Lemma strip_padding_digits (ds : list N) (pad : list ascii) (k : nat) :
  (pad = [] /\ length ds = (4 * k)%nat) \/
  (pad = ["="%char] /\ length ds = (4 * k + 3)%nat) \/
  (pad = ["="%char; "="%char] /\ length ds = (4 * k + 2)%nat) ->
  strip_padding ((b64_digit <$> ds) ++ pad) = b64_digit <$> ds.
Proof.
  intros Hp. unfold strip_padding.
  assert (Hlen : (length ((b64_digit <$> ds) ++ pad) mod 4 =? 0)%nat = true).
  { apply Nat.eqb_eq. rewrite length_app, length_fmap.
    destruct Hp as [[-> ->]|[[-> ->]|[-> ->]]]; cbn [length].
    - rewrite (mod4 k 0); [done|lia].
    - replace (4 * k + 3 + 1)%nat with (4 * S k + 0)%nat by lia.
      rewrite (mod4 (S k) 0); [done|lia].
    - replace (4 * k + 2 + 2)%nat with (4 * S k + 0)%nat by lia.
      rewrite (mod4 (S k) 0); [done|lia]. }
  rewrite Hlen, rev_app_distr.
  assert (Hhead : forall x r, rev (b64_digit <$> ds) = x :: r -> x <> "="%char).
  { intros x r Hr.
    assert (Hin : In x (b64_digit <$> ds)).
    { apply in_rev. rewrite Hr. by left. }
    apply list_elem_of_In, list_elem_of_fmap in Hin as (d & -> & _).
    apply b64_digit_plain. }
  destruct Hp as [[-> _]|[[-> _]|[-> _]]]; cbn [rev app].
  - destruct (rev (b64_digit <$> ds)) as [|x r] eqn:Hr; [by rewrite app_nil_r|].
    specialize (Hhead x r eq_refl). rewrite app_nil_r.
    destruct x as [[] [] [] [] [] [] [] []]; try done.
  - destruct (rev (b64_digit <$> ds)) as [|x r] eqn:Hr.
    + rewrite <- (rev_involutive (b64_digit <$> ds)), Hr. done.
    + specialize (Hhead x r eq_refl).
      rewrite <- (rev_involutive (b64_digit <$> ds)), Hr.
      destruct x as [[] [] [] [] [] [] [] []]; try done.
  - by rewrite rev_involutive.
Qed.

(** [atob] undoes [base64]. *)
Lemma atob_base64 (bs : list byte) : atob (base64 bs) = Some bs.
Proof.
  destruct (base64_shape (length bs) bs) as (ds & pad & k & Hs & Hd & Hp);
    [done|].
  unfold atob. rewrite Hs.
  rewrite filter_all.
  2:{ apply Forall_app. split.
      - apply list.Forall_forall. intros x (d & -> & _)%list_elem_of_fmap.
        apply b64_digit_plain.
      - destruct Hp as [[-> _]|[[-> _]|[-> _]]]; repeat constructor. }
  rewrite (strip_padding_digits ds pad k Hp).
  assert (Hlen : (length (b64_digit <$> ds) mod 4 =? 1)%nat = false).
  { apply Nat.eqb_neq. rewrite length_fmap.
    destruct Hp as [[_ ->]|[[_ ->]|[_ ->]]].
    - replace (4 * k)%nat with (4 * k + 0)%nat by lia. rewrite mod4; lia.
    - rewrite mod4; lia.
    - rewrite mod4; lia. }
  rewrite Hlen, mapM_b64_value. cbn. by rewrite Hd.
Qed.
(** ** Calls on the outside world *)

Lemma commit_effects s : effects (commit s) = effects s.
Proof.
  destruct_hook s; unfold commit, silence_effect; cbn.
  repeat (case_match; cbn); done.
Qed.

Ltac elem_cases H :=
  repeat match type of H with
         | _ ∈ [] => by apply elem_of_nil in H
         | _ ∈ _ :: _ => apply elem_of_cons in H as [H|H]; [simplify_eq|]
         end.

(** What one turn of the event loop adds to the log of calls. *)
Lemma step_effects s e :
  exists es,
    effects (step s e) = effects s ++ es /\
    (forall f, socket_send f ∈ es -> socketRef s = Some OPEN) /\
    (forall r, recorder_stop r ∈ es ->
       mediaRecorderRef s = Some r /\
       exists rec, recorders s !! r = Some rec /\ rec_state rec <> inactive) /\
    (length (List.filter is_recorder_stop es) <= 1)%nat.
Proof.
  unfold step. destruct (isMounted s).
  2:{ exists []. rewrite app_nil_r.
      split; [done|split; [|split]]; [| |cbn; lia]; by intros ? ?%elem_of_nil. }
  rewrite commit_effects.
  destruct e; cbn [dispatch].
  all: destruct_hook s; unfold_hook; cbn.
  all: repeat (first [case_bool_decide | case_match]; cbn in *; simplify_eq).
  all: try (exists []; rewrite app_nil_r;
            split; [done|split; [|split]]; [| |cbn; lia];
            by intros ? ?%elem_of_nil).
  all: rewrite <- ?app_assoc; eexists; (split; [reflexivity|]); cbn.
  all: (split; [|split]);
         [ intros ? Hin; elem_cases Hin; try done
         | intros ? Hin; elem_cases Hin
         | lia ].
  all: try (split; [done|eexists; split; [eassumption|done]]).
  all: split; [done|eexists; split; [eassumption|congruence]].
Qed.

(** X5.  [MediaRecorder.stop()] is never called on an inactive recorder
    (which would throw): in any state and for any event, a [stop()] made
    during the turn is made on the current recorder, which was not inactive
    at the start of the turn, and at most one is made per turn. *)
Theorem recorder_stop_guarded (s : Hook) (e : Event) (es : list Effect) :
  effects (step s e) = effects s ++ es ->
  (length (List.filter is_recorder_stop es) <= 1)%nat /\
  forall r, recorder_stop r ∈ es ->
    mediaRecorderRef s = Some r /\
    exists rec, recorders s !! r = Some rec /\ rec_state rec <> inactive.
Proof.
  intros He. destruct (step_effects s e) as (es' & He' & _ & Hr & Hn).
  rewrite He' in He. apply app_inv_head in He as ->. done.
Qed.

Lemma recorder_stop_guarded_witness :
  let s := run mounted [EvSocketOpen; EvStartRecording; EvUserMedia true 0] in
  let es := [recorder_stop 0; tracks_stop 0] in
  effects (step s EvStopRecording) = effects s ++ es /\
  effects (step (step s EvStopRecording) EvStopRecording) =
    effects (step s EvStopRecording) /\
  mediaRecorderRef s = Some 0%nat /\
  exists rec, recorders s !! 0%nat = Some rec /\ rec_state rec <> inactive.
Proof.
  split; [reflexivity|]. split; [reflexivity|].
  apply (recorder_stop_guarded
           (run mounted [EvSocketOpen; EvStartRecording; EvUserMedia true 0])
           EvStopRecording [recorder_stop 0; tracks_stop 0]).
  - reflexivity.
  - left.
Defined.

Lemma inbound_no_device (data : WebSocketMessage.t) (now : Stamp) (s : Hook) :
  let s' := handleWebSocketMessage data now s in
  effects s' = effects s /\
  recorders s' = recorders s /\
  mediaRecorderRef s' = mediaRecorderRef s /\
  streams s' = streams s /\
  mediaStreamRef s' = mediaStreamRef s /\
  pendingUserMedia s' = pendingUserMedia s /\
  socketRef s' = socketRef s /\
  isConversationActiveRef s' = isConversationActiveRef s.
Proof.
  destruct data as [ty text isFinal emo d message isProcessing].
  destruct_hook s. unfold handleWebSocketMessage. cbn -[atob join trim].
  destruct ty; cbn -[atob join trim];
    repeat (case_match; cbn -[atob join trim]); try done.
  all: unfold queueAudio, playNextInQueue; cbn -[atob join trim];
    repeat (case_match; cbn -[atob join trim] in *; simplify_eq); try done.
  all: by destruct audioQueueRef.
Qed.

(** X6.  No inbound frame touches the microphone or the socket: whatever
    the frame (an [error] or a [user_speaking] frame included), the handler
    makes no call on the outside world, leaves the recorders and the device
    streams as they are, requests no device, and does not change the
    conversation-active flag. *)
Theorem inbound_frames_touch_no_device (data : WebSocketMessage.t)
    (now : Stamp) (s : Hook) :
  let s' := handleWebSocketMessage data now s in
  effects s' = effects s /\
  recorders s' = recorders s /\
  mediaRecorderRef s' = mediaRecorderRef s /\
  streams s' = streams s /\
  mediaStreamRef s' = mediaStreamRef s /\
  pendingUserMedia s' = pendingUserMedia s /\
  socketRef s' = socketRef s /\
  isConversationActiveRef s' = isConversationActiveRef s.
Proof. apply inbound_no_device. Qed.

Lemma commit_error s : error (commit s) = error s.
Proof.
  destruct_hook s; unfold commit, silence_effect; cbn.
  repeat (case_match; cbn); done.
Qed.

(** X7.  An error message, once shown, is cleared by nothing but a
    successful (re)connection: in any state and for any event, if [error] is
    [null] after the turn then it was [null] before, or the event is the
    socket's [open]. *)
Theorem error_cleared_only_on_open (s : Hook) (e : Event) :
  error (step s e) = None -> error s = None \/ e = EvSocketOpen.
Proof.
  unfold step. destruct (isMounted s); [|by left].
  rewrite commit_error.
  destruct e; try (by right); intros H; left; revert H.
  all: destruct_hook s; unfold_hook; cbn -[atob join trim].
  all: repeat (case_match; cbn -[atob join trim] in *; simplify_eq); try done.
Qed.

Lemma error_cleared_only_on_open_witness :
  let s := run mounted [EvStartRecording; EvUserMedia false 0] in
  error s = Some "Không thể truy cập microphone" /\
  error (step s EvSocketOpen) = None /\
  (error s = None \/ EvSocketOpen = EvSocketOpen).
Proof.
  split; [reflexivity|]. split; [reflexivity|].
  apply (error_cleared_only_on_open
           (run mounted [EvStartRecording; EvUserMedia false 0]) EvSocketOpen).
  reflexivity.
Defined.
(** ** Outbound frames *)

Ltac same_insert :=
  repeat match goal with
         | H : ?l !! ?i = Some ?x |- context [?f <$> <[?i := ?y]> ?l] =>
             rewrite (fmap_insert_same f l i x y H) by done
         end.

Lemma commit_capture s :
  recorders (commit s) = recorders s /\
  userRecordedAudioRef (commit s) = userRecordedAudioRef s /\
  readers (commit s) = readers s /\
  sent_frames (commit s) = sent_frames s.
Proof.
  unfold sent_frames. rewrite commit_effects.
  destruct_hook s; unfold commit, silence_effect; cbn.
  repeat (case_match; cbn); done.
Qed.

(** The events that leave the capture buffers, the readers and the frames
    sent as they are. *)
Lemma dispatch_capture_same e s :
  match e with
  | EvSocketMessage _ _ | EvSendChatMessage _ _ | EvUpdateSettings _
  | EvUserMedia _ _ | EvDataAvailable _ _ | EvRecorderStop _
  | EvLoadEnd _ _ => True
  | _ =>
      chunks <$> recorders (dispatch e s) = chunks <$> recorders s /\
      userRecordedAudioRef (dispatch e s) = userRecordedAudioRef s /\
      readers (dispatch e s) = readers s /\
      sent_frames (dispatch e s) = sent_frames s
  end.
Proof.
  unfold sent_frames.
  destruct e; try done; destruct_hook s; unfold_hook; cbn.
  all: repeat (case_match; cbn in *; simplify_eq);
         rewrite ?omap_app; cbn; rewrite ?app_nil_r; same_insert; done.
Qed.

Lemma concat_nonempty (l : list Blob) :
  l <> [] -> Forall (fun b : Blob => b <> []) l -> concat l <> [].
Proof.
  intros Hl H. destruct H as [|b l Hb _]; [done|].
  cbn. by destruct b.
Qed.

Lemma capture_ok_same s s' :
  chunks <$> recorders s' = chunks <$> recorders s ->
  userRecordedAudioRef s' = userRecordedAudioRef s ->
  reader_blob <$> readers s' = reader_blob <$> readers s ->
  sent_frames s' = sent_frames s ->
  capture_ok s -> capture_ok s'.
Proof. unfold capture_ok. intros -> -> -> ->. done. Qed.

Lemma inbound_buffers data now s :
  let s' := handleWebSocketMessage data now s in
  (userRecordedAudioRef s' = userRecordedAudioRef s \/
   userRecordedAudioRef s' = []) /\
  (readers s' = readers s \/
   exists text,
     userRecordedAudioRef s <> [] /\
     readers s' =
       readers s ++
         [mkReader (concat (userRecordedAudioRef s)) (attach_user_audio text)
            false]).
Proof.
  destruct data as [ty text isFinal emo d message isProcessing].
  destruct_hook s. unfold handleWebSocketMessage. cbn -[atob join trim].
  destruct ty; cbn -[atob join trim];
    repeat (case_match; cbn -[atob join trim]); auto.
  all: unfold queueAudio, playNextInQueue; cbn -[atob join trim];
    repeat (case_match; cbn -[atob join trim] in *; simplify_eq); auto.
  all: try (split; [by left|right; eexists; split; [|reflexivity]; by intros ->]).
  all: by destruct audioQueueRef.
Qed.

Lemma inbound_capture data now s :
  capture_ok s -> capture_ok (handleWebSocketMessage data now s).
Proof.
  intros (H1 & H2 & H3 & H4).
  destruct (inbound_no_device data now s)
    as (He & Hr & _). cbv zeta in He, Hr.
  destruct (inbound_buffers data now s) as (Hu & Hd). cbv zeta in Hu, Hd.
  unfold capture_ok, sent_frames. rewrite He, Hr.
  split; [done|]. split; [|split; [|done]].
  - destruct Hu as [-> | ->]; [done|constructor].
  - destruct Hd as [-> |(text & Hne & ->)]; [done|].
    rewrite fmap_app. apply Forall_app. split; [done|].
    constructor; [|constructor]. by apply concat_nonempty.
Qed.

Lemma Forall_snoc {A} (P : A -> Prop) (l : list A) (x : A) :
  Forall P l -> P x -> Forall P (l ++ [x]).
Proof. intros Hl Hx. apply Forall_app. split; [done|by constructor]. Qed.

Lemma dispatch_capture e s : capture_ok s -> capture_ok (dispatch e s).
Proof.
  intros Hok. pose proof (dispatch_capture_same e s) as Hsame.
  destruct e as [ | | |parsed now|id| | |text now|settings|granted now|r data|r
                |i now|now dataArray|job ok|source| |tfail];
    try (destruct Hsame as (S1 & S2 & S3 & S4);
         apply (capture_ok_same s); by rewrite ?S3).
  - (* inbound frame *)
    cbn [dispatch]. destruct parsed as [data|]; [|done].
    destruct (socket_is_open s); [|done]. by apply inbound_capture.
  - (* typed message *)
    destruct Hok as (H1 & H2 & H3 & H4).
    cbn [dispatch]. unfold sendChatMessage.
    destruct (String.eqb (trim text) "") eqn:Ht; [done|].
    apply String.eqb_neq in Ht.
    assert (Hf : frame_ok (chat_message (trim text))) by (split; eauto).
    revert Hf. generalize (trim text). intros trimmed Hf.
    unfold capture_ok, sent_frames in *.
    destruct_hook s; unfold_hook; cbn in *.
    repeat (case_match; cbn in *; simplify_eq);
      rewrite ?omap_app; cbn; rewrite ?app_nil_r; same_insert;
      repeat split; try done; by apply Forall_snoc.
  - (* settings *)
    destruct Hok as (H1 & H2 & H3 & H4).
    unfold capture_ok, sent_frames in *.
    destruct_hook s; unfold_hook; cbn in *.
    repeat (case_match; cbn in *; simplify_eq);
      rewrite ?omap_app; cbn; rewrite ?app_nil_r;
      repeat split; try done; by apply Forall_snoc.
  - (* the device answers *)
    destruct Hok as (H1 & H2 & H3 & H4).
    unfold capture_ok, sent_frames in *.
    destruct_hook s; unfold_hook; cbn in *.
    repeat (case_match; cbn in *; simplify_eq);
      rewrite ?fmap_app; cbn; repeat split; try done.
    apply Forall_snoc; [done|constructor].
  - (* a chunk *)
    destruct Hok as (H1 & H2 & H3 & H4).
    unfold capture_ok, sent_frames in *.
    destruct_hook s; unfold_hook; cbn in *.
    repeat (case_match; cbn in *; simplify_eq); repeat split; try done.
    all: try (apply Forall_snoc; [done|]; by destruct data).
    all: rewrite list_fmap_insert; cbn; apply Forall_insert; [done|].
    all: apply Forall_snoc; [|by destruct data].
    all: match goal with
         | H : ?l !! ?i = Some ?x |- _ =>
             apply (list.Forall_lookup_1 _ _ i (chunks x)) in H1; [done|];
             by rewrite list_lookup_fmap, H
         end.
  - (* the recorder has stopped *)
    destruct Hok as (H1 & H2 & H3 & H4).
    unfold capture_ok, sent_frames in *.
    destruct_hook s; unfold_hook; cbn in *.
    repeat (case_match; cbn in *; simplify_eq); same_insert;
      repeat split; try done.
    all: rewrite ?list_lookup_insert_eq in * by (by eapply lookup_lt_Some);
      simplify_eq; cbn in *.
    all: rewrite fmap_app; apply Forall_snoc; [done|]; cbn.
    all: match goal with
         | H : ?l !! ?i = Some ?x |- _ =>
             apply (list.Forall_lookup_1 _ _ i (chunks x)) in H1;
               [|by rewrite list_lookup_fmap, H]
         end.
    all: apply concat_nonempty; [|done].
    all: match goal with H : (length ?c =? 0)%nat = false |- _ =>
           by destruct c end.
  - (* a reader has loaded *)
    destruct Hok as (H1 & H2 & H3 & H4).
    cbn [dispatch].
    destruct (readers s !! i) as [rd|] eqn:Hrd; [|done].
    destruct (loaded rd); [done|].
    assert (Hb : reader_blob rd <> []).
    { apply (list.Forall_lookup_1 _ _ i (reader_blob rd)) in H3; [done|].
      by rewrite list_lookup_fmap, Hrd. }
    unfold onloadend_send, onloadend_attach.
    rewrite dataURL_payload_base64.
    assert (Hf : frame_ok (audio_complete (Some (base64 (reader_blob rd)))
                             "audio/webm")) by (split; eauto).
    revert Hf. generalize (base64 (reader_blob rd)). intros payload Hf.
    unfold capture_ok, sent_frames in *.
    destruct rd as [blob [|text] ld].
    all: destruct_hook s; unfold_hook; cbn in *.
    all: repeat (case_match; cbn in *; simplify_eq);
      rewrite ?omap_app; cbn; rewrite ?app_nil_r; same_insert;
      repeat split; try done; try constructor; by apply Forall_snoc.
Qed.

Lemma step_capture s e : capture_ok s -> capture_ok (step s e).
Proof.
  intros Hok. unfold step. destruct (isMounted s); [|done].
  destruct (commit_capture (dispatch e s)) as (C1 & C2 & C3 & C4).
  apply (capture_ok_same (dispatch e s)); try done; try congruence.
  by apply dispatch_capture.
Qed.

Lemma reachable_capture tr : capture_ok (run mounted tr).
Proof.
  assert (H0 : capture_ok mounted) by (repeat split; constructor).
  revert H0. generalize mounted.
  induction tr as [|e tr IH]; intros s Hs; [done|].
  apply IH. by apply step_capture.
Qed.

(** X13.  Every frame the hook ever sends is well formed: an
    [audio_complete] frame carries the base64 text of a non-empty recording
    (never [undefined], never the empty text) with the MIME type
    [audio/webm], and a [chat_message] frame carries a non-empty, trimmed
    text. *)
Theorem outbound_frames_well_formed (trace : list Event) (f : OutFrame) :
  f ∈ sent_frames (run mounted trace) -> frame_ok f.
Proof.
  intros Hin. destruct (reachable_capture trace) as (_ & _ & _ & H).
  rewrite list.Forall_forall in H. by apply H.
Qed.

Lemma outbound_frames_well_formed_witness :
  let trace := [ EvSocketOpen; EvStartRecording; EvUserMedia true 0;
                 EvDataAvailable 0 []; EvDataAvailable 0 ["a"%byte; "b"%byte];
                 EvStopRecording; EvRecorderStop 0; EvLoadEnd 0 stamp0 ] in
  sent_frames (run mounted trace) = [audio_complete (Some "YWI=") "audio/webm"] /\
  frame_ok (audio_complete (Some "YWI=") "audio/webm").
Proof.
  split; [reflexivity|].
  apply (outbound_frames_well_formed
           [ EvSocketOpen; EvStartRecording; EvUserMedia true 0;
             EvDataAvailable 0 []; EvDataAvailable 0 ["a"%byte; "b"%byte];
             EvStopRecording; EvRecorderStop 0; EvLoadEnd 0 stamp0 ]).
  vm_compute. left.
Defined.
(** ** Typed messages and the stop button *)

Lemma trim_left_white_space (w rest : string) :
  w ∈ js_white_space -> trim_left (w +:+ rest) = trim_left rest.
Proof.
  unfold js_white_space. intros H.
  repeat (apply elem_of_cons in H as [->|H]; [reflexivity|]).
  by apply elem_of_nil in H.
Qed.

(** [trim] leaves nothing of a text made of white space only. *)
Lemma trim_white_space_only (text : string) :
  white_space_only text -> trim text = "".
Proof.
  intros (ws & Hws & ->).
  assert (H : trim_left (foldr String.append "" ws) = "").
  { induction Hws as [|w ws Hw _ IH]; [done|].
    cbn [foldr]. by rewrite trim_left_white_space. }
  unfold trim. by rewrite H.
Qed.

Lemma ascii_of_code (a : ascii) (n : N) :
  (N_of_ascii a =? n)%N = true -> a = ascii_of_N n.
Proof. intros H%N.eqb_eq. by rewrite <- H, ascii_N_embedding. Qed.

Ltac in_white_space :=
  unfold js_white_space;
  repeat first [apply list_elem_of_here | apply list_elem_of_further].

Lemma is_js_whitespace_in (a : ascii) :
  is_js_whitespace a = true -> String a "" ∈ js_white_space.
Proof.
  destruct a as [[] [] [] [] [] [] [] []]; try discriminate; intros _;
    in_white_space.
Qed.

Lemma is_js_whitespace2_in (a b : ascii) :
  is_js_whitespace2 a b = true -> String a (String b "") ∈ js_white_space.
Proof.
  unfold is_js_whitespace2.
  intros [->%ascii_of_code ->%ascii_of_code]%andb_true_iff. in_white_space.
Qed.

Lemma is_js_whitespace3_in (a b c : ascii) :
  is_js_whitespace3 a b c = true ->
  String a (String b (String c "")) ∈ js_white_space.
Proof.
  unfold is_js_whitespace3. cbv zeta.
  rewrite !orb_true_iff, !andb_true_iff.
  intros [[[[[[Ha Hb] Hc]|[[Ha Hb] Hc]]|[[Ha Hb] Hc]]|[[Ha Hb] Hc]]|[[Ha Hb] Hc]];
    apply ascii_of_code in Ha as ->; apply ascii_of_code in Hb as ->;
    try (apply ascii_of_code in Hc as ->; in_white_space).
  revert Hc.
  destruct c as [[] [] [] [] [] [] [] []]; vm_compute; intros Hc;
    try discriminate Hc; in_white_space.
Qed.

Lemma list_ascii_of_string_app (a b : string) :
  String.list_ascii_of_string (a +:+ b) =
  String.list_ascii_of_string a ++ String.list_ascii_of_string b.
Proof.
  induction a as [|c a IH]; [done|].
  rewrite append_cons. cbn [String.list_ascii_of_string app]. by rewrite IH.
Qed.

Lemma string_of_list_ascii_app (l1 l2 : list ascii) :
  String.string_of_list_ascii (l1 ++ l2) =
  String.string_of_list_ascii l1 +:+ String.string_of_list_ascii l2.
Proof.
  induction l1 as [|c l1 IH]; [done|].
  cbn [app String.string_of_list_ascii]. by rewrite IH.
Qed.

Lemma string_rev_app (a b : string) :
  string_rev (a +:+ b) = string_rev b +:+ string_rev a.
Proof.
  unfold string_rev.
  by rewrite list_ascii_of_string_app, rev_app_distr, string_of_list_ascii_app.
Qed.

Lemma string_rev_involutive (a : string) : string_rev (string_rev a) = a.
Proof.
  unfold string_rev.
  by rewrite String.list_ascii_of_string_of_list_ascii, rev_involutive,
    String.string_of_list_ascii_of_string.
Qed.

Lemma string_rev_empty (a : string) : string_rev a = "" -> a = "".
Proof.
  intros H. rewrite <- (string_rev_involutive a), H. done.
Qed.

(** What [trim_left] removes is a run of white-space characters. *)
Lemma trim_left_split (s : string) :
  exists ws, Forall (fun w => w ∈ js_white_space) ws /\
             s = foldr String.append "" ws +:+ trim_left s.
Proof.
  remember (String.length s) as n eqn:Hn. revert s Hn.
  induction n as [n IH] using lt_wf_ind. intros s Hn.
  assert (Hstop : exists ws, Forall (fun w => w ∈ js_white_space) ws /\
                             s = foldr String.append "" ws +:+ s)
    by (by exists []).
  destruct s as [|a rest]; [exact Hstop|].
  cbn [trim_left]. cbn [String.length] in Hn.
  destruct (is_js_whitespace a) eqn:H1.
  { destruct (IH (String.length rest) ltac:(lia) rest eq_refl)
      as (ws & Hws & Heq).
    exists (String a "" :: ws). split.
    - constructor; [by apply is_js_whitespace_in|done].
    - cbn [foldr]. rewrite string_app_assoc, <- Heq. done. }
  destruct rest as [|b rest2]; [exact Hstop|]. cbn [String.length] in Hn.
  destruct (is_js_whitespace2 a b) eqn:H2.
  { destruct (IH (String.length rest2) ltac:(lia) rest2 eq_refl)
      as (ws & Hws & Heq).
    exists (String a (String b "") :: ws). split.
    - constructor; [by apply is_js_whitespace2_in|done].
    - cbn [foldr]. rewrite string_app_assoc, <- Heq. done. }
  destruct rest2 as [|c rest3]; [exact Hstop|]. cbn [String.length] in Hn.
  destruct (is_js_whitespace3 a b c) eqn:H3; [|exact Hstop].
  destruct (IH (String.length rest3) ltac:(lia) rest3 eq_refl)
    as (ws & Hws & Heq).
  exists (String a (String b (String c "")) :: ws). split.
  - constructor; [by apply is_js_whitespace3_in|done].
  - cbn [foldr]. rewrite string_app_assoc, <- Heq. done.
Qed.

Lemma trim_left_reversed_split (s : string) :
  exists ws, Forall (fun w => w ∈ js_white_space) ws /\
             s = string_rev (foldr String.append "" ws)
                 +:+ trim_left_reversed s.
Proof.
  remember (String.length s) as n eqn:Hn. revert s Hn.
  induction n as [n IH] using lt_wf_ind. intros s Hn.
  assert (Hstop : exists ws, Forall (fun w => w ∈ js_white_space) ws /\
                             s = string_rev (foldr String.append "" ws) +:+ s)
    by (by exists []).
  assert (Hsnoc : forall w ws rest,
            rest = string_rev (foldr String.append "" ws) +:+ trim_left_reversed rest ->
            string_rev w +:+ rest =
            string_rev (foldr String.append "" (ws ++ [w]))
              +:+ trim_left_reversed rest).
  { intros w ws rest Heq. rewrite foldr_app. cbn [foldr].
    rewrite string_app_nil_r.
    assert (Hf : forall l acc, foldr String.append acc l =
                               foldr String.append "" l +:+ acc).
    { induction l as [|x l IHl]; intros acc; [done|].
      cbn [foldr]. by rewrite IHl, string_app_assoc. }
    rewrite Hf, string_rev_app, string_app_assoc, <- Heq. done. }
  destruct s as [|c rest]; [exact Hstop|].
  cbn [trim_left_reversed]. cbn [String.length] in Hn.
  destruct (is_js_whitespace c) eqn:H1.
  { destruct (IH (String.length rest) ltac:(lia) rest eq_refl)
      as (ws & Hws & Heq).
    exists (ws ++ [String c ""]). split.
    - apply Forall_app. split; [done|].
      constructor; [by apply is_js_whitespace_in|done].
    - by rewrite <- (Hsnoc (String c "") ws rest Heq). }
  destruct rest as [|b rest2]; [exact Hstop|]. cbn [String.length] in Hn.
  destruct (is_js_whitespace2 b c) eqn:H2.
  { destruct (IH (String.length rest2) ltac:(lia) rest2 eq_refl)
      as (ws & Hws & Heq).
    exists (ws ++ [String b (String c "")]). split.
    - apply Forall_app. split; [done|].
      constructor; [by apply is_js_whitespace2_in|done].
    - by rewrite <- (Hsnoc (String b (String c "")) ws rest2 Heq). }
  destruct rest2 as [|a rest3]; [exact Hstop|]. cbn [String.length] in Hn.
  destruct (is_js_whitespace3 a b c) eqn:H3; [|exact Hstop].
  destruct (IH (String.length rest3) ltac:(lia) rest3 eq_refl)
    as (ws & Hws & Heq).
  exists (ws ++ [String a (String b (String c ""))]). split.
  - apply Forall_app. split; [done|].
    constructor; [by apply is_js_whitespace3_in|done].
  - by rewrite <- (Hsnoc (String a (String b (String c ""))) ws rest3 Heq).
Qed.

(** [trim] leaves nothing exactly of the texts made of white space only. *)
Lemma trim_empty (text : string) : trim text = "" <-> white_space_only text.
Proof.
  split; [|apply trim_white_space_only].
  unfold trim. intros H%string_rev_empty.
  destruct (trim_left_split text) as (ws1 & Hws1 & H1).
  destruct (trim_left_reversed_split (string_rev (trim_left text)))
    as (ws2 & Hws2 & H2).
  rewrite H, string_app_nil_r in H2.
  apply (f_equal string_rev) in H2. rewrite !string_rev_involutive in H2.
  exists (ws1 ++ ws2). split; [by apply Forall_app|].
  rewrite H1 at 1. rewrite H2, foldr_app.
  assert (Hf : forall l acc, foldr String.append acc l =
                             foldr String.append "" l +:+ acc).
  { induction l as [|x l IHl]; intros acc; [done|].
    cbn [foldr]. by rewrite IHl, string_app_assoc. }
  symmetry. apply Hf.
Qed.

(** In particular a text of tabs, line feeds, vertical tabs, form feeds,
    carriage returns and spaces is made of white space only. *)
Lemma one_byte_white_space_only (text : string) :
  Forall (fun c => is_js_whitespace c = true)
    (String.list_ascii_of_string text) ->
  white_space_only text.
Proof.
  induction text as [|c text IH]; [by exists []|].
  cbn [String.list_ascii_of_string]. inversion 1 as [|? ? Hc Ht]; subst.
  destruct (IH Ht) as (ws & Hws & ->).
  exists (String c "" :: ws). split; [|done].
  constructor; [by apply is_js_whitespace_in|done].
Qed.

(** X8.  A typed message made only of white space (any of the characters
    [trim] removes; the empty text included) is dropped: [sendChatMessage]
    returns the state as it was, so no message is appended, the recorder is
    not stopped and nothing is sent. *)
Theorem blank_chat_message_ignored (text : string) (now : Stamp) (s : Hook) :
  white_space_only text ->
  sendChatMessage text now s = s /\
  (committed s -> step s (EvSendChatMessage text now) = s).
Proof.
  intros Hb.
  assert (Hs : sendChatMessage text now s = s).
  { unfold sendChatMessage. by rewrite (trim_white_space_only text Hb). }
  split; [done|]. intros Hc. unfold step. cbn [dispatch]. rewrite Hs.
  destruct (isMounted s); [|done]. by apply commit_committed.
Qed.

(** A tab, a space, a line feed, a no-break space (U+00A0) and an
    ideographic space (U+3000). *)
Lemma blank_chat_message_ignored_witness :
  let s := run mounted [EvSocketOpen; EvStartRecording; EvUserMedia true 0] in
  let text := utf8 [9; 32; 10; 194; 160; 227; 128; 128]%N in
  sendChatMessage text stamp0 s = s /\
  (committed s -> step s (EvSendChatMessage text stamp0) = s).
Proof.
  apply blank_chat_message_ignored.
  exists [utf8 [9]%N; utf8 [32]%N; utf8 [10]%N; utf8 [194; 160]%N;
          utf8 [227; 128; 128]%N].
  split; [|reflexivity].
  repeat constructor; in_white_space.
Defined.

(** X9.  A typed message that is not blank is appended to the chat as a
    user message with the trimmed text and no audio, the live transcript is
    cleared, and the microphone is released (the current recorder is left
    inactive, the stream ref is cleared).  With the socket open exactly one
    [chat_message] frame with the trimmed text is sent and the session is
    [processing]; otherwise nothing is sent, the message stays in the chat,
    an error is shown and the session is [idle]. *)
Theorem chat_message_sent (text : string) (now : Stamp) (s : Hook) :
  trim text <> "" ->
  let s' := sendChatMessage text now s in
  messages s' = messages s ++ [user_message (trim text) None now] /\
  transcript s' = "" /\
  mediaStreamRef s' = None /\
  (mediaRecorder_state s' = None \/ mediaRecorder_state s' = Some inactive) /\
  if socket_is_open s then
    sent_frames s' = sent_frames s ++ [chat_message (trim text)] /\
    appState s' = processing /\ error s' = error s
  else
    sent_frames s' = sent_frames s /\
    appState s' = idle /\ error s' = Some "Chưa kết nối tới server".
Proof.
  intros Ht%String.eqb_neq. unfold sendChatMessage. rewrite Ht.
  generalize (trim text). intros trimmed.
  unfold sent_frames, user_message.
  destruct_hook s; unfold_hook; cbn.
  repeat (first [case_bool_decide | case_match]; cbn in *; simplify_eq);
    rewrite ?omap_app; cbn; rewrite ?app_nil_r;
    rewrite ?list_lookup_insert_eq by (by eapply lookup_lt_Some);
    cbn; repeat split; try done; auto.
Qed.

(** The text typed is padded with a no-break space (U+00A0) and spaces in
    front and a space and an ideographic space (U+3000) behind. *)
Lemma chat_message_sent_witness :
  let online := run mounted [EvSocketOpen; EvStartRecording; EvUserMedia true 0] in
  let offline := mounted in
  let text := utf8 [194; 160; 32; 32]%N +:+ "xin chào"
              +:+ utf8 [32; 227; 128; 128]%N in
  (let s' := sendChatMessage text stamp0 online in
   messages s' = [user_message "xin chào" None stamp0] /\
   mediaRecorder_state s' = Some inactive /\
   sent_frames s' = [chat_message "xin chào"] /\
   appState s' = processing) /\
  (let s' := sendChatMessage text stamp0 offline in
   messages s' = [user_message "xin chào" None stamp0] /\
   sent_frames s' = [] /\
   appState s' = idle /\ error s' = Some "Chưa kết nối tới server").
Proof.
  split.
  - destruct (chat_message_sent
                (utf8 [194; 160; 32; 32]%N +:+ "xin chào"
                 +:+ utf8 [32; 227; 128; 128]%N) stamp0
                (run mounted [EvSocketOpen; EvStartRecording; EvUserMedia true 0]))
      as (H1 & _ & _ & _ & H5); [by vm_compute|].
    change (socket_is_open _) with true in H5. cbv iota in H5.
    destruct H5 as (H5 & H6 & _).
    split; [exact H1|]. split; [reflexivity|]. split; [exact H5|exact H6].
  - destruct (chat_message_sent
                (utf8 [194; 160; 32; 32]%N +:+ "xin chào"
                 +:+ utf8 [32; 227; 128; 128]%N) stamp0 mounted)
      as (H1 & _ & _ & _ & H5); [by vm_compute|].
    change (socket_is_open _) with false in H5. cbv iota in H5.
    destruct H5 as (H5 & H6 & H7).
    split; [exact H1|]. split; [exact H5|]. split; [exact H6|exact H7].
Defined.

Lemma stopRecording_noop (y : Hook) :
  isConversationActiveRef y = false -> isConversationActive y = false ->
  mediaStreamRef y = None ->
  mediaRecorder_state y = None \/ mediaRecorder_state y = Some inactive ->
  stopRecording y = y.
Proof.
  intros H1 H2 H3 H4.
  unfold stopRecording, stopMediaRecorder, release_stream.
  destruct_hook y; cbn in *. subst.
  destruct mediaRecorderRef as [r|]; cbn in *; [|done].
  destruct H4 as [-> | ->]; [done|].
  by rewrite bool_decide_eq_false_2 by (by intros []).
Qed.

Lemma stopRecording_spec (x : Hook) :
  let x' := stopRecording x in
  isConversationActiveRef x' = false /\
  isConversationActive x' = false /\
  mediaStreamRef x' = None /\
  (mediaRecorder_state x' = None \/ mediaRecorder_state x' = Some inactive) /\
  isMounted x' = isMounted x.
Proof.
  destruct_hook x; unfold_hook; cbn.
  repeat (first [case_bool_decide | case_match]; cbn in *; simplify_eq);
    rewrite ?list_lookup_insert_eq in * by (by eapply lookup_lt_Some);
    cbn in *; simplify_eq; repeat split; try done; auto.
Qed.

Lemma commit_recording s :
  isConversationActiveRef (commit s) = isConversationActiveRef s /\
  isConversationActive (commit s) = isConversationActive s /\
  mediaStreamRef (commit s) = mediaStreamRef s /\
  mediaRecorder_state (commit s) = mediaRecorder_state s.
Proof.
  unfold mediaRecorder_state.
  destruct_hook s; unfold commit, silence_effect; cbn.
  repeat (case_match; cbn); done.
Qed.

(** X10.  [stopRecording] is idempotent: after it the conversation is not
    active, the stream ref is cleared and the current recorder, if any, is
    inactive; calling it again changes nothing and makes no further call on
    the recorder or the tracks.  The same holds for whole turns of the event
    loop. *)
Theorem stop_recording_idempotent (s : Hook) :
  let s' := stopRecording s in
  stopRecording s' = s' /\
  isConversationActiveRef s' = false /\
  isConversationActive s' = false /\
  mediaStreamRef s' = None /\
  (mediaRecorder_state s' = None \/ mediaRecorder_state s' = Some inactive) /\
  step (step s EvStopRecording) EvStopRecording = step s EvStopRecording.
Proof.
  intros s'. destruct (stopRecording_spec s) as (H1 & H2 & H3 & H4 & H5).
  fold s' in H1, H2, H3, H4, H5.
  split; [by apply stopRecording_noop|]. repeat split; try done.
  unfold step. destruct (isMounted s) eqn:Hm; [|by rewrite Hm].
  destruct (commit_connection (dispatch EvStopRecording s))
    as (_ & _ & _ & _ & _ & _ & ->).
  cbn [dispatch]. fold s'. rewrite H5.
  destruct (commit_recording s') as (C1 & C2 & C3 & C4).
  rewrite (stopRecording_noop (commit s')) by congruence.
  apply commit_committed, committed_commit.
Qed.
(** ** The silence detector *)

Lemma dispatch_interval e s :
  silenceDeps (dispatch e s) = silenceDeps s /\
  ((silenceInterval (dispatch e s) = silenceInterval s /\
    isMounted (dispatch e s) = isMounted s) \/
   (silenceInterval (dispatch e s) = None /\
    appState (dispatch e s) = appState s /\
    inputAnalyser (dispatch e s) = inputAnalyser s)).
Proof.
  destruct e; destruct_hook s; unfold_hook; cbn -[atob join trim].
  all: repeat (case_match; cbn -[atob join trim]); auto.
Qed.

Lemma commit_interval_spec x :
  isMounted (commit x) = isMounted x /\
  appState (commit x) = appState x /\
  inputAnalyser (commit x) = inputAnalyser x /\
  silenceInterval (commit x) =
    if bool_decide (silenceDeps x = Some (appState x, inputAnalyser x))
    then silenceInterval x
    else match inputAnalyser x with
         | Some a =>
             if bool_decide (appState x = listening) && isConversationActiveRef x
             then Some a else None
         | None => None
         end.
Proof.
  destruct_hook x; unfold commit, silence_effect; cbn.
  repeat (case_match; cbn); done.
Qed.

Lemma reachable_interval tr a :
  silenceInterval (run mounted tr) = Some a ->
  appState (run mounted tr) = listening /\
  inputAnalyser (run mounted tr) = Some a /\
  isMounted (run mounted tr) = true.
Proof.
  induction tr as [|e tr IH] using rev_ind; [done|].
  rewrite run_app. cbn [run foldl].
  set (s := run mounted tr) in *.
  pose proof (reachable_committed tr) as [_ Hd]. fold s in Hd.
  unfold step. destruct (isMounted s) eqn:Hm; [|by rewrite Hm].
  destruct (commit_interval_spec (dispatch e s)) as (C1 & C2 & C3 & C4).
  destruct (dispatch_interval e s) as (D1 & D2).
  rewrite C1, C2, C3, C4. clear C1 C2 C3 C4.
  case_bool_decide as Hdeps.
  - rewrite D1, Hd in Hdeps. injection Hdeps as H1 H2.
    destruct D2 as [[-> ->]|[-> _]]; [|done].
    intros Ha. destruct (IH Ha) as (I1 & I2 & I3). rewrite <- H1, <- H2. done.
  - destruct D2 as [[_ D2]|(_ & D2 & D3)].
    + rewrite D2, Hm.
      destruct (inputAnalyser (dispatch e s)) as [a'|]; [|done].
      case_bool_decide as Hl; cbn; [|done].
      destruct (isConversationActiveRef (dispatch e s)); [|done].
      by intros [= ->].
    + rewrite D1, Hd, D2, D3 in Hdeps. done.
Qed.

(** X11.  The silence poll runs only while the session is listening: in
    every reachable state in which the polling interval is installed,
    [appState] is [listening], the interval reads the current input analyser
    and the component is mounted.  (The effect's cleanup clears the interval
    in the very turn in which [appState] leaves [listening].) *)
Theorem silence_poll_only_while_listening (trace : list Event)
    (a : AnalyserNode) :
  let s := run mounted trace in
  silenceInterval s = Some a ->
  appState s = listening /\ inputAnalyser s = Some a /\ isMounted s = true.
Proof. apply reachable_interval. Qed.

Lemma silence_poll_only_while_listening_witness :
  let s := run mounted [EvSocketOpen; EvStartRecording; EvUserMedia true 0] in
  silenceInterval s = Some 0%nat /\
  silenceInterval (step s (EvSilenceTick 1600 silent_window)) = None /\
  appState s = listening /\ inputAnalyser s = Some 0%nat /\ isMounted s = true.
Proof.
  split; [reflexivity|]. split; [reflexivity|].
  apply (silence_poll_only_while_listening
           [EvSocketOpen; EvStartRecording; EvUserMedia true 0] 0%nat).
  reflexivity.
Defined.

Lemma sumSquares_acc (acc : Z) (l : list Z) :
  foldl (fun acc d => acc + (d - 128) * (d - 128)) acc l =
  acc + sumSquares l.
Proof.
  unfold sumSquares. revert acc.
  induction l as [|d l IH]; intros acc; cbn; [lia|].
  rewrite (IH (acc + _)), (IH (0 + _)). lia.
Qed.

Lemma sumSquares_cons (d : Z) (l : list Z) :
  sumSquares (d :: l) = (d - 128) * (d - 128) + sumSquares l.
Proof.
  unfold sumSquares at 1. cbn [foldl]. rewrite sumSquares_acc. lia.
Qed.

(** X12.  Where the threshold lies, in samples: a window whose every byte
    sample is within one step of the midpoint 128 counts as silence (so does
    an empty window), and a non-empty window whose every sample is two steps
    or more away from 128 counts as voice. *)
Theorem rms_threshold_bounds (dataArray : list Z) :
  (Forall (fun d => 127 <= d <= 129) dataArray ->
   rms_above_threshold dataArray = false) /\
  (dataArray <> [] ->
   Forall (fun d => d <= 126 \/ 130 <= d) dataArray ->
   rms_above_threshold dataArray = true).
Proof.
  unfold rms_above_threshold. split.
  - intros H. apply Z.ltb_ge.
    assert (Hs : sumSquares dataArray <= Z.of_nat (length dataArray)).
    { induction H as [|d l Hd _ IH]; [done|].
      rewrite sumSquares_cons. cbn [length]. nia. }
    lia.
  - intros Hne H. apply Z.ltb_lt.
    assert (Hs : 4 * Z.of_nat (length dataArray) <= sumSquares dataArray).
    { clear Hne. induction H as [|d l Hd _ IH]; [done|].
      rewrite sumSquares_cons. cbn [length]. nia. }
    destruct dataArray; [done|]. cbn [length] in *. lia.
Qed.

Lemma rms_threshold_bounds_witness :
  rms_above_threshold (repeat 129 256) = false /\
  rms_above_threshold (repeat 126 256) = true.
Proof.
  destruct (rms_threshold_bounds (repeat 129 256)) as [H1 _].
  destruct (rms_threshold_bounds (repeat 126 256)) as [_ H2].
  split.
  - apply H1. apply List.Forall_forall. intros y ->%repeat_spec. lia.
  - apply H2; [done|]. apply List.Forall_forall. intros y ->%repeat_spec. lia.
Defined.
(** ** Inbound audio and its replay *)

Lemma base64_nonempty (bs : list byte) : bs <> [] -> base64 bs <> "".
Proof. by destruct bs as [|a [|b [|c rest]]]. Qed.

Lemma commit_audio s :
  currentAiAudioChunksRef (commit s) = currentAiAudioChunksRef s /\
  messages (commit s) = messages s /\
  pipeline (commit s) = pipeline s.
Proof.
  unfold pipeline.
  destruct_hook s; unfold commit, silence_effect; cbn.
  repeat (case_match; cbn); done.
Qed.

Lemma queueAudio_pipeline b s :
  pipeline (queueAudio b s) = pipeline s ++ [b] /\
  isPlayingRef (queueAudio b s) = true /\
  sources (queueAudio b s) = sources s /\
  currentAiAudioChunksRef (queueAudio b s) = currentAiAudioChunksRef s /\
  messages (queueAudio b s) = messages s.
Proof.
  unfold pipeline.
  destruct_hook s; unfold queueAudio, playNextInQueue; cbn.
  destruct isPlayingRef; cbn.
  - by rewrite app_assoc.
  - destruct audioQueueRef as [|b' rest]; cbn; rewrite ?fmap_app; cbn.
    + by rewrite !app_nil_r.
    + by rewrite <- !app_assoc.
Qed.

Lemma audio_frame_pipeline (data : WebSocketMessage.t) (now : Stamp)
    (s : Hook) (bs : list byte) :
  WebSocketMessage.type data = WebSocketMessage.audio ->
  WebSocketMessage.data data = Some (base64 bs) ->
  bs <> [] ->
  let s' := handleWebSocketMessage data now s in
  pipeline s' = pipeline s ++ [bs] /\
  isPlayingRef s' = true /\
  sources s' = sources s /\
  currentAiAudioChunksRef s' = currentAiAudioChunksRef s ++ [base64 bs] /\
  messages s' = messages s.
Proof.
  intros Hty Hd Hbs. unfold handleWebSocketMessage. rewrite Hty, Hd.
  assert (Ht : truthy (Some (base64 bs)) = true).
  { apply truthy_true. eexists. split; [done|]. by apply base64_nonempty. }
  rewrite Ht. change (default "" (Some (base64 bs))) with (base64 bs).
  rewrite atob_base64. cbv zeta.
  destruct (queueAudio_pipeline bs
              (set_currentAiAudioChunksRef
                 (currentAiAudioChunksRef s ++ [base64 bs]) s))
    as (H1 & H2 & H3 & H4 & H5).
  rewrite H1, H2, H3, H4, H5. by destruct_hook s.
Qed.

(** X14.  An [audio] frame whose [data] is the base64 text of the bytes
    [bs] puts exactly [bs] at the back of the playback pipeline (behind
    every fragment already taken out or queued), flags playback as running,
    starts no source by itself, and records the text for the message. *)
Theorem audio_frame_enqueues (data : WebSocketMessage.t) (now : Stamp)
    (s : Hook) (bs : list byte) :
  WebSocketMessage.type data = WebSocketMessage.audio ->
  WebSocketMessage.data data = Some (base64 bs) ->
  bs <> [] ->
  let s' := handleWebSocketMessage data now s in
  pipeline s' = pipeline s ++ [bs] /\
  isPlayingRef s' = true /\
  sources s' = sources s /\
  currentAiAudioChunksRef s' = currentAiAudioChunksRef s ++ [base64 bs] /\
  messages s' = messages s.
Proof. apply audio_frame_pipeline. Qed.

Lemma audio_frame_enqueues_witness :
  let data := WebSocketMessage.mk WebSocketMessage.audio None None None
                (Some "TWFu") None None in
  let s := run mounted [EvSocketOpen; audio_frame "TWE="; EvDecoded 0 true] in
  let s' := handleWebSocketMessage data stamp0 s in
  pipeline s = [["M"; "a"]%byte] /\
  pipeline s' = [["M"; "a"]; ["M"; "a"; "n"]]%byte /\
  audioQueueRef s' = [["M"; "a"; "n"]%byte] /\
  currentAiAudioChunksRef s' = ["TWE="; "TWFu"].
Proof.
  destruct (audio_frame_enqueues
              (WebSocketMessage.mk WebSocketMessage.audio None None None
                 (Some "TWFu") None None) stamp0
              (run mounted [EvSocketOpen; audio_frame "TWE="; EvDecoded 0 true])
              ["M"; "a"; "n"]%byte)
    as (H1 & _ & _ & H4 & _); [reflexivity|reflexivity|done|].
  split; [reflexivity|]. split; [exact H1|]. split; [reflexivity|exact H4].
Defined.

(** X15.  An [audio] frame without [data] (missing or empty) is ignored.
    One whose [data] is not base64 text ([atob] throws) is still recorded for
    the message's audio, since the text is pushed before it is decoded, but
    nothing is enqueued for playback and nothing else changes. *)
Theorem audio_frame_undecodable (data : WebSocketMessage.t) (now : Stamp)
    (s : Hook) :
  WebSocketMessage.type data = WebSocketMessage.audio ->
  (WebSocketMessage.data data = None \/ WebSocketMessage.data data = Some "" ->
   handleWebSocketMessage data now s = s) /\
  (forall d, WebSocketMessage.data data = Some d -> d <> "" ->
     atob d = None ->
     handleWebSocketMessage data now s =
       set_currentAiAudioChunksRef (currentAiAudioChunksRef s ++ [d]) s).
Proof.
  intros Hty. unfold handleWebSocketMessage. rewrite Hty. split.
  - intros Hd%truthy_false. by rewrite Hd.
  - intros d Hd Hne Ha.
    assert (Ht : truthy (WebSocketMessage.data data) = true).
    { apply truthy_true. eauto. }
    rewrite Ht, Hd. change (default "" (Some d)) with d. by rewrite Ha.
Qed.

Lemma audio_frame_undecodable_witness :
  let s := step mounted EvSocketOpen in
  let bad := WebSocketMessage.mk WebSocketMessage.audio None None None
               (Some "not base64!") None None in
  let s' := handleWebSocketMessage bad stamp0 s in
  handleWebSocketMessage (bare_frame WebSocketMessage.audio) stamp0 s = s /\
  s' = set_currentAiAudioChunksRef ["not base64!"] s /\
  pipeline s' = [] /\ isPlayingRef s' = false.
Proof.
  split; [|split; [|split; reflexivity]].
  - apply (audio_frame_undecodable (bare_frame WebSocketMessage.audio));
      [reflexivity|by left].
  - apply (audio_frame_undecodable
             (WebSocketMessage.mk WebSocketMessage.audio None None None
                (Some "not base64!") None None) stamp0
             (step mounted EvSocketOpen)); [reflexivity| |done|reflexivity].
    reflexivity.
Defined.

Lemma split_char_aux_free (sep : ascii) (acc s : string) :
  Forall (fun c => c <> sep) (String.list_ascii_of_string s) ->
  split_char_aux sep acc s = [acc +:+ s].
Proof.
  revert acc. induction s as [|c s IH]; intros acc Hs; cbn.
  - by rewrite string_app_nil_r.
  - cbn in Hs. inversion Hs as [|? ? Hc Hs']; subst.
    apply Ascii.eqb_neq in Hc. rewrite Hc, IH by done.
    by rewrite string_app_assoc.
Qed.

Lemma split_char_aux_app (sep : ascii) (acc s1 s2 : string) :
  Forall (fun c => c <> sep) (String.list_ascii_of_string s1) ->
  split_char_aux sep acc (s1 +:+ String sep s2) =
  (acc +:+ s1) :: split_char_aux sep "" s2.
Proof.
  revert acc. induction s1 as [|c s1 IH]; intros acc Hs.
  - change ("" +:+ String sep s2) with (String sep s2).
    cbn [split_char_aux]. by rewrite Ascii.eqb_refl, string_app_nil_r.
  - cbn in Hs. inversion Hs as [|? ? Hc Hs']; subst.
    apply Ascii.eqb_neq in Hc.
    rewrite append_cons. cbn [split_char_aux].
    rewrite Hc, IH by done. by rewrite string_app_assoc.
Qed.

(** Splitting a joined list gives the list back. *)
Lemma split_join (sep : ascii) (l : list string) :
  l <> [] ->
  Forall (fun s => Forall (fun c => c <> sep) (String.list_ascii_of_string s)) l ->
  split_char sep (join (String sep "") l) = l.
Proof.
  intros Hne Hl. unfold split_char.
  induction Hl as [|x l Hx Hl IH]; [done|].
  destruct l as [|y l].
  - cbn. by rewrite split_char_aux_free.
  - change (join (String sep "") (x :: y :: l))
      with (x +:+ String sep "" +:+ join (String sep "") (y :: l)).
    change (String sep "" +:+ join (String sep "") (y :: l))
      with (String sep (join (String sep "") (y :: l))).
    rewrite split_char_aux_app by done. by rewrite IH.
Qed.

Lemma base64_no_bar (bs : list byte) :
  Forall (fun c => c <> "|"%char) (String.list_ascii_of_string (base64 bs)).
Proof.
  destruct (base64_shape (length bs) bs) as (ds & pad & k & -> & _ & Hp);
    [done|].
  apply Forall_app. split.
  - apply list.Forall_forall. intros x (d & -> & _)%list_elem_of_fmap.
    apply b64_digit_plain.
  - destruct Hp as [[-> _]|[[-> _]|[-> _]]]; repeat constructor; discriminate.
Qed.

Lemma playAudio_chunks_base64 (bs : list (list byte)) :
  bs <> [] ->
  playAudio_chunks (join "|" (base64 <$> bs)) = Some <$> bs.
Proof.
  intros Hne. unfold playAudio_chunks.
  change "|"%string with (String "|"%char "").
  rewrite split_join.
  - rewrite <- list_fmap_compose. apply list_fmap_ext.
    intros i b _. cbn. apply atob_base64.
  - by destruct bs.
  - apply list.Forall_forall. intros x (b & -> & _)%list_elem_of_fmap.
    apply base64_no_bar.
Qed.

(** X16.  The recording attached to a user message replays as it was
    captured: when the reader created for a final transcript has loaded, the
    user message appended carries an audio text which the chat list's
    [playAudio] splits into a single piece that decodes to the reader's blob,
    the concatenation of the buffered chunks; the capture buffer is cleared. *)
Theorem user_audio_round_trip (s : Hook) (i : nat) (rd : FileReader)
    (text : string) (now : Stamp) :
  isMounted s = true ->
  readers s !! i = Some rd ->
  loaded rd = false ->
  onloadend rd = attach_user_audio text ->
  let s' := step s (EvLoadEnd i now) in
  exists audio,
    messages s' = messages s ++ [user_message text (Some audio) now] /\
    playAudio_chunks audio = [Some (reader_blob rd)] /\
    userRecordedAudioRef s' = [] /\
    sent_frames s' = sent_frames s.
Proof.
  intros Hm Hrd Hl Ho. exists (base64 (reader_blob rd)).
  assert (Hp : playAudio_chunks (base64 (reader_blob rd)) =
               [Some (reader_blob rd)]).
  { apply (playAudio_chunks_base64 [reader_blob rd]). done. }
  split; [|split; [done|]].
  - unfold step. rewrite Hm.
    destruct (commit_audio (dispatch (EvLoadEnd i now) s)) as (_ & -> & _).
    cbn [dispatch]. rewrite Hrd, Hl, Ho.
    unfold onloadend_attach. rewrite dataURL_payload_base64.
    generalize (base64 (reader_blob rd)). intros a.
    by destruct_hook s.
  - unfold step. rewrite Hm.
    destruct (commit_capture (dispatch (EvLoadEnd i now) s))
      as (_ & -> & _ & ->).
    cbn [dispatch]. rewrite Hrd, Hl, Ho.
    unfold onloadend_attach. rewrite dataURL_payload_base64.
    generalize (base64 (reader_blob rd)). intros a.
    by destruct_hook s.
Qed.

Lemma user_audio_round_trip_witness :
  let s := run mounted
             [ EvSocketOpen; EvStartRecording; EvUserMedia true 0;
               EvDataAvailable 0 ["M"%byte]; EvDataAvailable 0 ["a"; "n"]%byte;
               EvSocketMessage
                 (Some (WebSocketMessage.mk WebSocketMessage.transcript
                          (Some "xin chào") (Some true) None None None None))
                 stamp0 ] in
  let s' := step s (EvLoadEnd 0 stamp0) in
  readers s = [mkReader ["M"; "a"; "n"]%byte (attach_user_audio "xin chào") false] /\
  exists audio,
    messages s' = messages s ++ [user_message "xin chào" (Some audio) stamp0] /\
    playAudio_chunks audio = [Some ["M"; "a"; "n"]%byte] /\
    userRecordedAudioRef s' = [] /\
    sent_frames s' = sent_frames s.
Proof.
  split; [reflexivity|].
  apply (user_audio_round_trip _ 0%nat
           (mkReader ["M"; "a"; "n"]%byte (attach_user_audio "xin chào") false));
    reflexivity.
Defined.

Lemma run_cons s e tr : run s (e :: tr) = run (step s e) tr.
Proof. reflexivity. Qed.

Lemma run_snoc s e tr : run s (tr ++ [e]) = step (run s tr) e.
Proof. by rewrite run_app. Qed.

Lemma ai_response_with_text (text : string) (emo : option Emotion)
    (now : Stamp) (s : Hook) :
  text <> "" ->
  let data := WebSocketMessage.mk WebSocketMessage.ai_response (Some text)
                None emo None None None in
  let s' := handleWebSocketMessage data now s in
  pipeline s' = pipeline s /\
  currentAiAudioChunksRef s' = [] /\
  messages s' =
    messages s ++
      [ {| Message.id := Date_now now; Message.type := ai;
           Message.text := text;
           Message.timestamp := toLocaleTimeString now;
           Message.audioData :=
             if (0 <? length (currentAiAudioChunksRef s))%nat
             then Some (join "|" (currentAiAudioChunksRef s)) else None |} ].
Proof.
  intros Ht.
  assert (Htr : truthy (Some text) = true).
  { apply truthy_true. eauto. }
  unfold handleWebSocketMessage, pipeline.
  cbn [WebSocketMessage.type WebSocketMessage.text WebSocketMessage.emotion].
  rewrite Htr. change (default "" (Some text)) with text.
  generalize (if (0 <? length (currentAiAudioChunksRef s))%nat
              then Some (join "|" (currentAiAudioChunksRef s)) else None).
  intros audio. destruct_hook s; unfold addMessage; cbn. by destruct emo.
Qed.

(** X17.  An AI message replays the fragments accumulated for it.  At an
    [ai_response] frame with a text, in any mounted state with the socket
    open, the message appended carries the accumulated fragment texts joined
    by [|] (no audio when nothing has accumulated) and the accumulator is
    emptied; when the accumulated texts are the base64 texts of the byte
    sequences [bs], the chat list's [playAudio] splits and decodes the
    message's audio back into exactly [bs], in order.  The accumulator holds
    the texts of the [audio] frames received since it was last emptied, by
    the previous [ai_response] or by the playback queue running dry: what
    was received before that is not in the message. *)
Theorem ai_audio_round_trip (s : Hook) (bs : list (list byte))
    (text : string) (emo : option Emotion) (now : Stamp) :
  isMounted s = true ->
  socketRef s = Some OPEN ->
  currentAiAudioChunksRef s = base64 <$> bs ->
  Forall (fun b => b <> []) bs ->
  text <> "" ->
  let reply :=
    EvSocketMessage
      (Some (WebSocketMessage.mk WebSocketMessage.ai_response (Some text)
               None emo None None None)) now in
  let s' := step s reply in
  currentAiAudioChunksRef s' = [] /\
  pipeline s' = pipeline s /\
  exists audioData,
    messages s' =
      messages s ++
        [ {| Message.id := Date_now now; Message.type := ai;
             Message.text := text;
             Message.timestamp := toLocaleTimeString now;
             Message.audioData := audioData |} ] /\
    match audioData with
    | Some audio => bs <> [] /\ playAudio_chunks audio = Some <$> bs
    | None => bs = []
    end.
Proof.
  intros Hm Ho Hc Hbs Ht reply s'.
  assert (Hs : s' =
               commit (handleWebSocketMessage
                         (WebSocketMessage.mk WebSocketMessage.ai_response
                            (Some text) None emo None None None) now s)).
  { unfold s', step, reply. rewrite Hm. cbn [dispatch].
    unfold socket_is_open. by rewrite bool_decide_eq_true_2. }
  destruct (ai_response_with_text text emo now s Ht) as (R1 & R2 & R3).
  cbv zeta in R1, R2, R3.
  destruct (commit_audio (handleWebSocketMessage
                            (WebSocketMessage.mk WebSocketMessage.ai_response
                               (Some text) None emo None None None) now s))
    as (C1 & C2 & C3).
  rewrite Hs, C1, C2, C3, R1, R2, R3, Hc.
  split; [done|]. split; [done|].
  eexists. split; [done|].
  destruct bs as [|b bs]; [done|].
  cbn [fmap list_fmap length Nat.ltb Nat.leb].
  split; [done|]. by apply (playAudio_chunks_base64 (b :: bs)).
Qed.

Lemma ai_audio_round_trip_witness :
  let s := run mounted [EvSocketOpen; audio_frame "TWFu"; audio_frame "TWE=";
                        audio_frame "TQ=="] in
  let bs := [["M"; "a"; "n"]; ["M"; "a"]; ["M"]]%byte in
  let reply :=
    EvSocketMessage
      (Some (WebSocketMessage.mk WebSocketMessage.ai_response (Some "Xin chào")
               None (Some HAPPY) None None None)) stamp0 in
  let s' := step s reply in
  pipeline s = bs /\
  currentAiAudioChunksRef s' = [] /\
  pipeline s' = bs /\
  exists audioData,
    messages s' =
      [ {| Message.id := Date_now stamp0; Message.type := ai;
           Message.text := "Xin chào";
           Message.timestamp := toLocaleTimeString stamp0;
           Message.audioData := audioData |} ] /\
    match audioData with
    | Some audio => bs <> [] /\ playAudio_chunks audio = Some <$> bs
    | None => bs = []
    end.
Proof.
  split; [vm_compute; reflexivity|].
  apply (ai_audio_round_trip
           (run mounted [EvSocketOpen; audio_frame "TWFu"; audio_frame "TWE=";
                         audio_frame "TQ=="])
           [["M"; "a"; "n"]; ["M"; "a"]; ["M"]]%byte
           "Xin chào" (Some HAPPY) stamp0).
  - vm_compute; reflexivity.
  - vm_compute; reflexivity.
  - vm_compute; reflexivity.
  - repeat constructor; discriminate.
  - discriminate.
Defined.
(** ** The backend address *)

Lemma slashes_to_end_spec (s : string) :
  slashes_to_end s = true -> exists n, s = slashes (S n).
Proof.
  induction s as [|c s IH]; [done|].
  cbn [slashes_to_end]. intros [Hc Hs]%andb_true_iff.
  apply Ascii.eqb_eq in Hc as ->.
  destruct s as [|c' s'].
  - by exists 0%nat.
  - destruct (IH Hs) as [n ->]. by exists (S n).
Qed.

Lemma strip_trailing_slashes_spec (s : string) :
  exists n,
    s = strip_trailing_slashes s +:+ slashes n /\
    list.last (String.list_ascii_of_string (strip_trailing_slashes s))
      <> Some "/"%char.
Proof.
  induction s as [|c s IH].
  - by exists 0%nat.
  - cbn [strip_trailing_slashes].
    destruct (slashes_to_end (String c s)) eqn:Hs.
    + destruct (slashes_to_end_spec _ Hs) as [n ->]. exists (S n). done.
    + destruct IH as (n & Heq & Hlast). exists n. split.
      * rewrite append_cons. by rewrite <- Heq.
      * cbn [String.list_ascii_of_string].
        destruct (strip_trailing_slashes s) as [|c' r] eqn:Hr.
        -- cbn. intros [= ->].
           change ("" +:+ slashes n) with (slashes n) in Heq.
           subst s. cbn [slashes_to_end] in Hs. rewrite Ascii.eqb_refl in Hs.
           destruct n as [|n]; [done|].
           assert (Ht : slashes_to_end (slashes (S n)) = true).
           { clear. induction n as [|n IH]; [done|].
             change (slashes (S (S n))) with (String "/"%char (slashes (S n))).
             cbn [slashes_to_end]. rewrite Ascii.eqb_refl. exact IH. }
           change (slashes (S n)) with (String "/"%char (slashes n)) in Hs, Ht.
           cbn [andb] in Hs. congruence.
        -- cbn [String.list_ascii_of_string] in *. by rewrite last_cons_cons.
Qed.

(** X18.  An API base URL given by the environment is used without its
    trailing slashes: when [VITE_API_URL] is set and not blank, the base URL
    is that text with the whole run of slashes at its end removed (and
    nothing else), so it never ends in a slash and the paths appended to it
    ([/emojis], [/api/tts], [/ws/chat]) never follow a double slash; the
    page's location is not consulted. *)
Theorem api_base_url_from_env (url hostname protocol origin : string) :
  trim url <> "" ->
  let base := resolveApiBaseUrl (Some url) hostname protocol origin in
  base = strip_trailing_slashes url /\
  (exists n, url = base +:+ slashes n) /\
  list.last (String.list_ascii_of_string base) <> Some "/"%char.
Proof.
  intros Ht base.
  assert (Hb : base = strip_trailing_slashes url).
  { unfold base, resolveApiBaseUrl.
    assert (Hu : url <> "") by (by intros ->).
    assert (Htr : truthy (Some url) = true) by (apply truthy_true; eauto).
    apply String.eqb_neq in Ht.
    rewrite Htr. change (default "" (Some url)) with url. by rewrite Ht. }
  split; [done|]. rewrite Hb.
  destruct (strip_trailing_slashes_spec url) as (n & H1 & H2). eauto.
Qed.

Lemma api_base_url_from_env_witness :
  let base := resolveApiBaseUrl (Some "https://bot.example.vn/api///")
                "localhost" "http:" "http://localhost:5173" in
  base = "https://bot.example.vn/api" /\
  EMOJI_BASE_URL base = "https://bot.example.vn/api/emojis" /\
  list.last (String.list_ascii_of_string base) <> Some "/"%char.
Proof.
  destruct (api_base_url_from_env "https://bot.example.vn/api///"
              "localhost" "http:" "http://localhost:5173")
    as (H1 & _ & H3); [by vm_compute|].
  split; [exact H1|]. split; [reflexivity|exact H3].
Defined.

(** X19.  Without a usable [VITE_API_URL] (unset, empty or white space
    only, whichever white-space characters it is made of) the base URL comes
    from the page's location: on [localhost] or [127.0.0.1] it is the same
    host on port 8668, anywhere else the page's origin. *)
Theorem api_base_url_from_location (envUrl : option string)
    (hostname protocol origin : string) :
  envUrl = None \/
  (exists url, envUrl = Some url /\ white_space_only url) ->
  resolveApiBaseUrl envUrl hostname protocol origin =
    if bool_decide (hostname = "localhost" \/ hostname = "127.0.0.1")
    then protocol +:+ "//" +:+ hostname +:+ ":8668"
    else origin.
Proof.
  intros He.
  assert (Hg : truthy envUrl && negb (String.eqb (trim (default "" envUrl)) "")
               = false).
  { destruct He as [-> |(url & -> & Hb)]; [done|].
    change (default "" (Some url)) with url.
    by rewrite (trim_white_space_only url Hb), andb_false_r. }
  unfold resolveApiBaseUrl. rewrite Hg.
  case_bool_decide as Hl.
  - destruct Hl as [-> | ->]; done.
  - destruct (String.eqb_spec hostname "localhost") as [->|_]; [by destruct Hl; left|].
    destruct (String.eqb_spec hostname "127.0.0.1") as [->|_]; [by destruct Hl; right|].
    done.
Qed.

(** A value made of a space, a no-break space (U+00A0) and an ideographic
    space (U+3000); and no value at all. *)
Lemma api_base_url_from_location_witness :
  let blank := utf8 [32; 194; 160; 227; 128; 128]%N in
  resolveApiBaseUrl (Some blank) "127.0.0.1" "http:" "http://127.0.0.1:5173"
    = "http://127.0.0.1:8668" /\
  resolveApiBaseUrl None "chatbot.example.vn" "https:"
    "https://chatbot.example.vn" = "https://chatbot.example.vn".
Proof.
  split.
  - rewrite (api_base_url_from_location
               (Some (utf8 [32; 194; 160; 227; 128; 128]%N))
               "127.0.0.1" "http:" "http://127.0.0.1:5173"); [reflexivity|].
    right. eexists. split; [reflexivity|].
    exists [utf8 [32]%N; utf8 [194; 160]%N; utf8 [227; 128; 128]%N].
    split; [|reflexivity].
    repeat constructor; in_white_space.
  - rewrite (api_base_url_from_location None "chatbot.example.vn" "https:"
               "https://chatbot.example.vn"); [reflexivity|by left].
Defined.

Lemma strip_prefix_app (p rest : string) :
  strip_prefix p (p +:+ rest) = Some rest.
Proof.
  induction p as [|c p IH]; [by destruct rest|].
  rewrite append_cons. cbn [strip_prefix]. by rewrite Ascii.eqb_refl.
Qed.

Lemma strip_prefix_cons (a : ascii) (p s : string) :
  strip_prefix (String a p) (String a s) = strip_prefix p s.
Proof. cbn [strip_prefix]. by rewrite Ascii.eqb_refl. Qed.

Lemma strip_prefix_mismatch (a b : ascii) (p s : string) :
  a <> b -> strip_prefix (String a p) (String b s) = None.
Proof. intros H%Ascii.eqb_neq. cbn [strip_prefix]. by rewrite H. Qed.

Lemma strip_prefix_none_longer (p q s : string) :
  strip_prefix p s = None -> strip_prefix (p +:+ q) s = None.
Proof.
  revert s. induction p as [|a p IH]; intros s; [done|].
  rewrite append_cons. destruct s as [|b s]; [done|].
  cbn [strip_prefix]. destruct (Ascii.eqb a b); [apply IH|done].
Qed.

(** X20.  The chat socket's URL is the base URL with its scheme mapped,
    [http:] to [ws:] and [https:] to [wss:], followed by [/ws/chat]; only one
    of the two replacements ever applies, and a base URL of another scheme is
    kept as it is. *)
Theorem ws_chat_url_scheme (rest : string) :
  WS_CHAT_URL ("http:" +:+ rest) = "ws:" +:+ rest +:+ "/ws/chat" /\
  WS_CHAT_URL ("https:" +:+ rest) = "wss:" +:+ rest +:+ "/ws/chat" /\
  (forall base, strip_prefix "http" base = None ->
     WS_CHAT_URL base = base +:+ "/ws/chat") /\
  (forall hostname origin,
     hostname = "localhost" \/ hostname = "127.0.0.1" ->
     WS_CHAT_URL (resolveApiBaseUrl None hostname "http:" origin) =
       "ws://" +:+ hostname +:+ ":8668/ws/chat").
Proof.
  split; [|split; [|split]].
  - unfold WS_CHAT_URL, replace_prefix.
    rewrite (strip_prefix_app "http:" rest).
    assert (H : strip_prefix "https:" ("ws:" +:+ rest) = None).
    { rewrite append_cons. by apply strip_prefix_mismatch. }
    by rewrite H, string_app_assoc.
  - unfold WS_CHAT_URL, replace_prefix.
    assert (H : strip_prefix "http:" ("https:" +:+ rest) = None).
    { rewrite !append_cons, !strip_prefix_cons. by apply strip_prefix_mismatch. }
    by rewrite H, (strip_prefix_app "https:" rest), string_app_assoc.
  - intros base Hb. unfold WS_CHAT_URL, replace_prefix.
    assert (H1 : strip_prefix "http:" base = None).
    { revert Hb. apply strip_prefix_none_longer with (q := ":"). }
    assert (H2 : strip_prefix "https:" base = None).
    { revert Hb. apply strip_prefix_none_longer with (q := "s:"). }
    by rewrite H1, H2.
  - intros hostname origin [-> | ->].
    + change (resolveApiBaseUrl None "localhost" "http:" origin)
        with ("http:" +:+ "//localhost:8668").
      unfold WS_CHAT_URL, replace_prefix.
      rewrite (strip_prefix_app "http:" "//localhost:8668"). reflexivity.
    + change (resolveApiBaseUrl None "127.0.0.1" "http:" origin)
        with ("http:" +:+ "//127.0.0.1:8668").
      unfold WS_CHAT_URL, replace_prefix.
      rewrite (strip_prefix_app "http:" "//127.0.0.1:8668"). reflexivity.
Qed.

Lemma ws_chat_url_scheme_witness :
  WS_CHAT_URL "file:///index.html" = "file:///index.html/ws/chat" /\
  WS_CHAT_URL (resolveApiBaseUrl None "localhost" "http:" "http://localhost:5173")
    = "ws://localhost:8668/ws/chat".
Proof.
  destruct (ws_chat_url_scheme "") as (_ & _ & H3 & H4). split.
  - apply H3. reflexivity.
  - apply (H4 "localhost" "http://localhost:5173"). by left.
Defined.
(** ** The chat history and the voice-activity clock *)

Lemma backfill_shown c prev : shown <$> backfill c prev = shown <$> prev.
Proof.
  unfold backfill.
  destruct (list.last prev) as [lastMsg|] eqn:Hl; [|done].
  destruct (Message.type lastMsg) eqn:Hty; [done|].
  destruct (truthy (Message.audioData lastMsg)); [done|].
  apply (fmap_insert_same shown prev _ lastMsg).
  - by rewrite last_lookup in Hl.
  - unfold shown; cbn. by rewrite Hty.
Qed.

Lemma step_shown s e :
  (shown <$> messages s) `prefix_of` (shown <$> messages (step s e)).
Proof.
  destruct (step_messages s e) as [_ [->|[(m & ->)|(_ & ->)]]].
  - done.
  - rewrite fmap_app. by apply prefix_app_r.
  - by rewrite backfill_shown.
Qed.

(** X21.  The chat history is append-only: along any run, what the
    messages show (id, sender, text and time) is never removed, reordered or
    rewritten; later events only append messages (the audio of the last AI
    message apart, which the backfill may fill in). *)
Theorem chat_history_append_only (trace later : list Event) :
  (shown <$> messages (run mounted trace))
    `prefix_of` (shown <$> messages (run mounted (trace ++ later))).
Proof.
  rewrite run_app. generalize (run mounted trace). intros s.
  revert s. induction later as [|e later IH]; intros s; [done|].
  rewrite run_cons. etrans; [apply step_shown|apply IH].
Qed.

Lemma dispatch_clock e s :
  (inputAnalyser (dispatch e s) = inputAnalyser s \/
   lastVoiceActivityAtRef (dispatch e s) <> None) /\
  (lastVoiceActivityAtRef s <> None ->
   lastVoiceActivityAtRef (dispatch e s) <> None).
Proof.
  destruct e; destruct_hook s; unfold_hook; cbn -[atob join trim].
  all: repeat (case_match; cbn -[atob join trim]); auto.
Qed.

Lemma commit_clock s :
  inputAnalyser (commit s) = inputAnalyser s /\
  lastVoiceActivityAtRef (commit s) = lastVoiceActivityAtRef s.
Proof.
  destruct_hook s; unfold commit, silence_effect; cbn.
  repeat (case_match; cbn); done.
Qed.

Lemma reachable_clock tr :
  inputAnalyser (run mounted tr) <> None ->
  lastVoiceActivityAtRef (run mounted tr) <> None.
Proof.
  induction tr as [|e tr IH] using rev_ind; [done|].
  rewrite run_snoc. set (s := run mounted tr) in *.
  unfold step. destruct (isMounted s); [|done].
  destruct (commit_clock (dispatch e s)) as [-> ->].
  destruct (dispatch_clock e s) as [[->|H1] H2]; [|done].
  intros Ha. by apply H2, IH.
Qed.

(** X22.  The voice-activity clock is always running when the detector
    polls: in every reachable state in which the polling interval is
    installed (or just an input analyser exists), [lastVoiceActivityAtRef]
    holds a time, so the poll's branch for a missing time is never taken. *)
Theorem voice_clock_always_set (trace : list Event) :
  let s := run mounted trace in
  (inputAnalyser s <> None \/ silenceInterval s <> None) ->
  exists t, lastVoiceActivityAtRef s = Some t.
Proof.
  intros s H.
  assert (Ha : inputAnalyser s <> None).
  { destruct H as [H|H]; [done|].
    destruct (silenceInterval s) as [a|] eqn:Hi; [|done].
    destruct (reachable_interval trace a Hi) as (_ & Hin & _).
    fold s in Hin. by rewrite Hin. }
  apply reachable_clock in Ha. fold s in Ha.
  destruct (lastVoiceActivityAtRef s) as [t|]; [eauto|done].
Qed.

Lemma voice_clock_always_set_witness :
  let s := run mounted [EvSocketOpen; EvStartRecording; EvUserMedia true 250] in
  silenceInterval s = Some 0%nat /\
  exists t, lastVoiceActivityAtRef s = Some t.
Proof.
  split; [reflexivity|].
  apply (voice_clock_always_set
           [EvSocketOpen; EvStartRecording; EvUserMedia true 250]).
  right. discriminate.
Defined.
(** ** Transitions of [appState] *)

Lemma commit_appState s : appState (commit s) = appState s.
Proof.
  destruct_hook s; unfold commit, silence_effect; cbn.
  repeat (case_match; cbn); done.
Qed.

Lemma playNextInQueue_appState s :
  appState (playNextInQueue s) =
    match audioQueueRef s with
    | [] =>
        if bool_decide (appStateRef s = speaking) && negb (isConversationActiveRef s)
        then idle else appState s
    | _ :: _ => speaking
    end.
Proof.
  destruct_hook s; unfold playNextInQueue; cbn -[join].
  destruct audioQueueRef as [|b rest]; [|done].
  destruct currentAiAudioChunksRef as [|c cs]; cbn -[join].
  all: destruct (bool_decide (appStateRef = speaking)); cbn -[join]; [|done].
  all: destruct isConversationActiveRef; cbn -[join]; [|done].
  all: unfold _startMediaRecorder, perform; cbn; by case_match.
Qed.

Lemma queueAudio_appState b s :
  appState (queueAudio b s) = if isPlayingRef s then appState s else speaking.
Proof.
  unfold queueAudio.
  assert (H : isPlayingRef (set_audioQueueRef (audioQueueRef s ++ [b]) s)
              = isPlayingRef s) by (by destruct_hook s).
  rewrite H. destruct (isPlayingRef s); cbn [negb].
  - by destruct_hook s.
  - rewrite playNextInQueue_appState.
    assert (Hq : audioQueueRef (set_audioQueueRef (audioQueueRef s ++ [b]) s)
                 = audioQueueRef s ++ [b]) by (by destruct_hook s).
    rewrite Hq. by destruct (audioQueueRef s).
Qed.

Lemma inbound_appState data now s (st : AppState) :
  appState (handleWebSocketMessage data now s) = st ->
  appState s = st \/
  match st with
  | listening =>
      WebSocketMessage.type data = WebSocketMessage.recording_started \/
      (WebSocketMessage.type data = WebSocketMessage.user_speaking /\
       isPlayingRef s = true)
  | speaking =>
      (WebSocketMessage.type data = WebSocketMessage.ai_response /\
       truthy (WebSocketMessage.text data) = true) \/
      (WebSocketMessage.type data = WebSocketMessage.audio /\
       truthy (WebSocketMessage.data data) = true /\
       atob (default "" (WebSocketMessage.data data)) <> None /\
       isPlayingRef s = false)
  | processing =>
      WebSocketMessage.type data = WebSocketMessage.transcript /\
      truthy (WebSocketMessage.text data) = true /\
      truthy_bool (WebSocketMessage.isFinal data) = true
  | idle =>
      WebSocketMessage.type data = WebSocketMessage.error \/
      WebSocketMessage.type data = WebSocketMessage.stt_error
  end.
Proof.
  destruct data as [ty text isFinal emo d message isProcessing].
  destruct_hook s. unfold handleWebSocketMessage. cbn -[atob join trim].
  destruct ty; cbn -[atob join trim];
    repeat (case_match; cbn -[atob join trim] in *; simplify_eq);
    intros Hst; try (by left); try (by right; auto).
  all: rewrite queueAudio_appState in Hst; cbn in Hst;
    destruct isPlayingRef; try (by left); try done.
  right; right. auto.
Qed.

(** The events that never call [setAppState]. *)
Lemma dispatch_appState_same e s :
  match e with
  | EvSocketMessage _ _ | EvSendChatMessage _ _ | EvUserMedia _ _
  | EvSilenceTick _ _ | EvDecoded _ _ | EvEnded _ => True
  | _ => appState (dispatch e s) = appState s
  end.
Proof.
  destruct e; try done; destruct_hook s; unfold_hook; cbn;
    repeat (case_match; cbn); done.
Qed.

Lemma dispatch_appState e s st :
  isMounted s = true ->
  appState (dispatch e s) = st ->
  appState s = st \/ entry_of st s e.
Proof.
  intros Hm Hst. pose proof (dispatch_appState_same e s) as Hsame.
  destruct e as [ | | |parsed now|id| | |text now|settings|granted now|r data|r
                |i now|now dataArray|job ok|source| |tfail];
    try (left; congruence).
  - (* inbound frame *)
    cbn [dispatch] in Hst. destruct parsed as [data|]; [|by left].
    destruct (socket_is_open s) eqn:Ho; [|by left].
    assert (Hd : delivered s (EvSocketMessage (Some data) now) = Some data).
    { cbn. by rewrite Hm, Ho. }
    destruct (inbound_appState data now s st Hst) as [H|H]; [by left|right].
    destruct st; cbn [entry_of].
    + left. exists data. auto.
    + right. exists data. auto.
    + left. exists data. auto.
    + left. exists data. auto.
  - (* typed message *)
    cbn [dispatch] in Hst. unfold sendChatMessage in Hst.
    destruct (String.eqb (trim text) "") eqn:Ht; [by left|].
    apply String.eqb_neq in Ht.
    assert (Ha : appState (dispatch (EvSendChatMessage text now) s) =
                 if socket_is_open s then processing else idle).
    { cbn [dispatch]. unfold sendChatMessage.
      rewrite (proj2 (String.eqb_neq _ _) Ht).
      generalize (trim text). intros trimmed.
      destruct_hook s; unfold_hook; cbn.
      repeat (case_match; cbn in *; simplify_eq); done. }
    cbn [dispatch] in Ha. unfold sendChatMessage in Ha.
    rewrite (proj2 (String.eqb_neq _ _) Ht) in Ha. rewrite Ha in Hst.
    unfold socket_is_open in Hst. case_bool_decide as Ho; subst st; right.
    + right; left. eauto.
    + right; left. eauto.
  - (* the device answers *)
    destruct granted.
    + assert (Ha : appState (dispatch (EvUserMedia true now) s) =
                   match pendingUserMedia s with
                   | O => appState s | S _ => listening end).
      { destruct_hook s; cbn. by destruct pendingUserMedia. }
      rewrite Ha in Hst. destruct (pendingUserMedia s) eqn:Hp; [by left|].
      subst st. right. left. exists now. split; [done|lia].
    + left. rewrite <- Hst. destruct_hook s; cbn. by destruct pendingUserMedia.
  - (* a poll *)
    cbn [dispatch] in Hst.
    destruct (silenceInterval s) as [a|] eqn:Hi; [|by left].
    unfold silence_tick in Hst.
    case_bool_decide as H1; [by left|].
    case_bool_decide as H2; [by left|].
    destruct (rms_above_threshold dataArray) eqn:Hq.
    { left. rewrite <- Hst. by destruct_hook s. }
    destruct (lastVoiceActivityAtRef s) as [last|] eqn:Hl.
    2:{ left. rewrite <- Hst. by destruct_hook s. }
    destruct (negb (didAutoStopSegmentRef s) && (SILENCE_MS <=? now - last))
      eqn:Hg; [|by left].
    apply andb_true_iff in Hg as [Hg1 Hg2].
    apply negb_true_iff in Hg1. apply Z.leb_le in Hg2.
    assert (Ha : st = processing).
    { rewrite <- Hst. clear.
      destruct_hook s; unfold_hook; cbn. repeat (case_match; cbn); done. }
    clear Hst. subst st. right. right; right.
    exists now, dataArray, last. rewrite Hi. repeat split; done.
  - (* a decode settles *)
    cbn [dispatch] in Hst.
    destruct (decodes s !! job) as [d|] eqn:Hd; [|by left].
    case_bool_decide as Hdec; [|by left].
    destruct ok.
    { left. rewrite <- Hst. clear. destruct_hook s; cbn. done. }
    rewrite playNextInQueue_appState in Hst.
    assert (He : ends_fragment s (EvDecoded job false)).
    { split; [done|]. eauto. }
    revert Hst. generalize He. clear He Hd Hdec.
    destruct_hook s; cbn. intros He.
    destruct audioQueueRef as [|b rest]; cbn.
    + case_bool_decide as Hs; cbn; [|by left].
      destruct isConversationActiveRef; cbn; [by left|].
      intros <-. right. right; right. done.
    + intros <-. right. right. done.
  - (* a source ends *)
    cbn [dispatch] in Hst.
    destruct (sources s !! source) as [src|] eqn:Hsrc; [|by left].
    destruct (ended src) eqn:Hend; [by left|].
    rewrite playNextInQueue_appState in Hst.
    assert (He : ends_fragment s (EvEnded source)) by (cbn; eauto).
    revert Hst. generalize He. clear He Hsrc Hend.
    destruct_hook s; cbn. intros He.
    destruct audioQueueRef as [|b rest]; cbn.
    + case_bool_decide as Hs; cbn; [|by left].
      destruct isConversationActiveRef; cbn; [by left|].
      intros <-. right. right; right. done.
    + intros <-. right. right. done.
Qed.

Lemma entry_appState e s st :
  isMounted s = true -> entry_of st s e -> appState (dispatch e s) = st.
Proof.
  intros Hm He.
  assert (Hdel : forall data, delivered s e = Some data ->
            exists now, e = EvSocketMessage (Some data) now /\
                        socket_is_open s = true).
  { intros data Hd. destruct e; try done. destruct parsed as [d|]; [|done].
    cbn in Hd. rewrite Hm in Hd. cbn in Hd.
    destruct (socket_is_open s); [|done]. injection Hd as ->. eauto. }
  assert (Hend : ends_fragment s e ->
            exists x, dispatch e s = playNextInQueue x /\
              audioQueueRef x = audioQueueRef s /\
              appStateRef x = appStateRef s /\
              isConversationActiveRef x = isConversationActiveRef s /\
              appState x = appState s).
  { intros Hf. destruct e; try done.
    - destruct Hf as (-> & d & Hd & Hs). cbn [dispatch]. rewrite Hd.
      rewrite bool_decide_eq_true_2 by done.
      eexists. split; [reflexivity|]. by destruct_hook s.
    - destruct Hf as (src & Hsrc & Hs). cbn [dispatch]. rewrite Hsrc, Hs.
      eexists. split; [reflexivity|]. by destruct_hook s. }
  destruct st; cbn [entry_of] in He.
  - (* idle *)
    destruct He as [(data & Hd & Hty)|[(text & now & -> & Ht & Ho)|(Hf & Hq & Hs & Hc)]].
    + destruct (Hdel data Hd) as (now & -> & Ho). cbn [dispatch]. rewrite Ho.
      unfold handleWebSocketMessage. destruct Hty as [-> | ->]; by destruct_hook s.
    + cbn [dispatch]. unfold sendChatMessage.
      rewrite (proj2 (String.eqb_neq _ _) Ht).
      generalize (trim text). intros trimmed.
      destruct_hook s; unfold_hook; cbn in *.
      repeat (case_match; cbn in *; simplify_eq); try done.
      all: by match goal with H : bool_decide _ = true |- _ =>
             apply bool_decide_eq_true_1 in H end.
    + destruct (Hend Hf) as (x & -> & X1 & X2 & X3 & X4).
      rewrite playNextInQueue_appState, X1, X2, X3, Hq, Hs, Hc.
      by rewrite bool_decide_eq_true_2.
  - (* listening *)
    destruct He as [(now & -> & Hp)|(data & Hd & Hty)].
    + destruct_hook s; cbn in *. by destruct pendingUserMedia; [lia|].
    + destruct (Hdel data Hd) as (now & -> & Ho). cbn [dispatch]. rewrite Ho.
      unfold handleWebSocketMessage.
      destruct Hty as [-> |[-> Hp]]; [by destruct_hook s|].
      destruct_hook s; cbn in *. by subst.
  - (* processing *)
    destruct He as [(data & Hd & Hty & Ht & Hf)|[(text & now & -> & Ht & Ho)
      |(now & dataArray & last & -> & Hi & Ha & Hr & Hq & Hl & Hg & Hs)]].
    + destruct (Hdel data Hd) as (now & -> & Ho). cbn [dispatch]. rewrite Ho.
      unfold handleWebSocketMessage. rewrite Hty, Ht, Hf.
      destruct_hook s; unfold addMessage; cbn -[new_Blob].
      by case_match.
    + cbn [dispatch]. unfold sendChatMessage.
      rewrite (proj2 (String.eqb_neq _ _) Ht).
      generalize (trim text). intros trimmed.
      destruct_hook s; unfold_hook; cbn in *. subst.
      repeat (case_match; cbn in *; simplify_eq); try done.
    + cbn [dispatch]. destruct (silenceInterval s); [|done].
      unfold silence_tick. rewrite Ha, Hr, Hq, Hl, Hs.
      rewrite (bool_decide_eq_false_2 (listening <> listening)) by (by intros []).
      rewrite (bool_decide_eq_false_2 (Some recording <> Some recording))
        by (by intros []).
      apply Z.leb_le in Hg. rewrite Hg. cbn [negb andb].
      clear. destruct_hook s; unfold_hook; cbn. repeat (case_match; cbn); done.
  - (* speaking *)
    destruct He as [(data & Hd & [(Hty & Ht)|(Hty & Ht & Ha & Hp)])|(Hf & Hq)].
    + destruct (Hdel data Hd) as (now & -> & Ho). cbn [dispatch]. rewrite Ho.
      unfold handleWebSocketMessage. rewrite Hty, Ht.
      destruct_hook s; unfold addMessage; cbn -[join]. by case_match.
    + destruct (Hdel data Hd) as (now & -> & Ho). cbn [dispatch]. rewrite Ho.
      unfold handleWebSocketMessage. rewrite Hty, Ht.
      destruct (atob (default "" (WebSocketMessage.data data))) as [b|]; [|done].
      rewrite queueAudio_appState.
      destruct_hook s; cbn in *. by subst.
    + destruct (Hend Hf) as (x & -> & X1 & X2 & X3 & X4).
      rewrite playNextInQueue_appState, X1. by destruct (audioQueueRef s).
Qed.

(** X23.  [appState] moves exactly at the places that set it.  In any
    mounted state and for any event: if one of the causes listed for a state
    holds, the session is in that state after the turn; and if the session
    is in a state after the turn, it was in it before or one of its causes
    holds.  The causes are, for [listening]: a microphone request granted
    with the recorder started (a request that is refused, or granted with a
    recorder that cannot be created or started, leaves the state as it is),
    a [recording_started] frame, a [user_speaking] frame during playback; for
    [speaking]: an [ai_response] frame with a text, a decodable [audio] frame
    while nothing plays, the end of a fragment with more queued; for
    [processing]: a final transcript with a text, a typed message on the open
    socket, the silence auto-stop; for [idle]: an [error] or [stt_error]
    frame, a typed message while the socket is not open, the queue running
    dry in [speaking] with no conversation active. *)
Theorem appState_transitions (s : Hook) (e : Event) (st : AppState) :
  isMounted s = true ->
  (entry_of st s e -> appState (step s e) = st) /\
  (appState (step s e) = st -> appState s = st \/ entry_of st s e).
Proof.
  intros Hm. unfold step. rewrite Hm, commit_appState. split.
  - by apply entry_appState.
  - by apply dispatch_appState.
Qed.

Lemma appState_transitions_witness :
  let s := run mounted
             [ EvSocketOpen; audio_frame "TWFu"; EvDecoded 0 true ] in
  appState s = speaking /\
  entry_of idle s (EvEnded 0) /\
  appState (step s (EvEnded 0)) = idle /\
  (appState s = listening \/
   entry_of listening s
     (EvSocketMessage (Some (bare_frame WebSocketMessage.user_speaking)) stamp0)).
Proof.
  assert (He : entry_of idle
                 (run mounted [EvSocketOpen; audio_frame "TWFu"; EvDecoded 0 true])
                 (EvEnded 0)).
  { right; right. split; [|by vm_compute]. eexists. split; reflexivity. }
  split; [reflexivity|]. split; [exact He|]. split.
  - apply (appState_transitions
             (run mounted [EvSocketOpen; audio_frame "TWFu"; EvDecoded 0 true])
             (EvEnded 0) idle); [reflexivity|exact He].
  - apply (appState_transitions
             (run mounted [EvSocketOpen; audio_frame "TWFu"; EvDecoded 0 true])
             (EvSocketMessage (Some (bare_frame WebSocketMessage.user_speaking))
                stamp0) listening); reflexivity.
Defined.
(** ** What accounts for a frame and for a microphone request *)

Lemma dispatch_sends e s :
  exists es,
    effects (dispatch e s) = effects s ++ es /\
    (frames_of es = [] \/
     exists f, frames_of es = [f] /\ socketRef s = Some OPEN /\
               frame_cause s e f).
Proof.
  unfold frames_of.
  destruct e as [ | | |parsed now|id| | |text now|settings|granted now|r data|r
                |i now|now dataArray|job ok|source| |tfail].
  8:{ (* typed message *)
      cbn [dispatch]. unfold sendChatMessage.
      destruct (String.eqb (trim text) "") eqn:Ht.
      { exists []. rewrite app_nil_r. auto. }
      apply String.eqb_neq in Ht.
      assert (Hc : frame_cause s (EvSendChatMessage text now)
                     (chat_message (trim text))) by (cbn; eauto).
      revert Hc. generalize (trim text). intros trimmed Hc.
      destruct_hook s; unfold_hook; cbn in *.
      repeat (first [case_bool_decide | case_match]; cbn in *; simplify_eq);
        first [ by exists []; rewrite app_nil_r; auto
              | rewrite <- ?app_assoc; eexists; (split; [reflexivity|]); cbn;
                eauto ]. }
  12:{ (* a reader has loaded *)
      cbn [dispatch].
      destruct (readers s !! i) as [rd|] eqn:Hrd;
        [|exists []; rewrite app_nil_r; auto].
      destruct (loaded rd) eqn:Hl; [exists []; rewrite app_nil_r; auto|].
      destruct (onloadend rd) as [|text] eqn:Ho.
      - unfold onloadend_send. rewrite dataURL_payload_base64.
        assert (Hc : frame_cause s (EvLoadEnd i now)
                  (audio_complete (Some (base64 (reader_blob rd))) "audio/webm")).
        { exists i, now, rd. repeat split; done. }
        revert Hc. generalize (base64 (reader_blob rd)). intros payload Hc.
        clear Hrd Hl Ho.
        destruct_hook s; unfold_hook; cbn in *.
        repeat (first [case_bool_decide | case_match]; cbn in *; simplify_eq);
          first [ by exists []; rewrite app_nil_r; auto
                | eexists; (split; [reflexivity|]); cbn; eauto ].
      - exists []. rewrite app_nil_r. split; [|by left].
        unfold onloadend_attach. by destruct_hook s. }
  all: destruct_hook s; unfold_hook; cbn.
  all: repeat (first [case_bool_decide | case_match]; cbn in *; simplify_eq).
  all: try (exists []; rewrite app_nil_r; by auto).
  all: rewrite <- ?app_assoc; eexists; (split; [reflexivity|]); cbn; eauto.
  right. eexists. repeat split.
Qed.

Lemma frames_of_sent_frames s s' es :
  effects s' = effects s ++ es -> sent_frames s' = sent_frames s ++ frames_of es.
Proof. intros H. unfold sent_frames, frames_of. by rewrite H, omap_app. Qed.

(** X4.  Every frame sent is accounted for: in any state and for any
    event, a turn of the event loop sends at most one frame, only if the
    socket was open when the turn began, and the frame names its cause: a
    [chat_message] is the trimmed, non-empty text of the message typed in
    that turn, an [update_settings] carries the settings given to
    [updateSettings] in that turn, and an [audio_complete] is the base64 text
    of the blob of the recorder's reader that loaded in that turn. *)
Theorem sends_accounted (s : Hook) (e : Event) (es : list Effect) :
  effects (step s e) = effects s ++ es ->
  (length (frames_of es) <= 1)%nat /\
  forall f, f ∈ frames_of es ->
    socketRef s = Some OPEN /\ frame_cause s e f.
Proof.
  intros He.
  assert (Hd : frames_of es = [] \/
               exists f, frames_of es = [f] /\ socketRef s = Some OPEN /\
                         frame_cause s e f).
  { revert He. unfold step. destruct (isMounted s).
    - rewrite commit_effects. intros He.
      destruct (dispatch_sends e s) as (es' & He' & H).
      rewrite He' in He. by apply app_inv_head in He as ->.
    - intros He. rewrite <- (app_nil_r (effects s)) in He at 1.
      apply app_inv_head in He as <-. by left. }
  destruct Hd as [-> |(f & -> & Ho & Hc)].
  - split; [cbn; lia|]. by intros f ?%elem_of_nil.
  - split; [cbn; lia|]. by intros f' ->%list_elem_of_singleton.
Qed.

Lemma sends_accounted_witness :
  let s := run mounted
             [ EvSocketOpen; EvStartRecording; EvUserMedia true 0;
               EvDataAvailable 0 ["a"%byte; "b"%byte] ] in
  let e := EvSendChatMessage " xin chào " stamp0 in
  let es := [recorder_stop 0; tracks_stop 0;
             socket_send (chat_message "xin chào")] in
  effects (step s e) = effects s ++ es /\
  socketRef s = Some OPEN /\
  frame_cause s e (chat_message "xin chào").
Proof.
  split; [reflexivity|].
  apply (sends_accounted
           (run mounted
              [ EvSocketOpen; EvStartRecording; EvUserMedia true 0;
                EvDataAvailable 0 ["a"%byte; "b"%byte] ])
           (EvSendChatMessage " xin chào " stamp0)
           [recorder_stop 0; tracks_stop 0;
            socket_send (chat_message "xin chào")]).
  - reflexivity.
  - left.
Defined.


Lemma startMediaRecorder_effects s :
  effects (_startMediaRecorder s) =
    effects s ++
      (if bool_decide (mediaRecorder_state s = Some recording) then []
       else [getUserMedia]).
Proof.
  unfold _startMediaRecorder. case_bool_decide.
  - by rewrite app_nil_r.
  - by destruct_hook s.
Qed.

Lemma playNextInQueue_effects s :
  effects (playNextInQueue s) =
    effects s ++
      (if bool_decide (audioQueueRef s = [] /\ appStateRef s = speaking /\
                       isConversationActiveRef s = true /\
                       mediaRecorder_state s <> Some recording)
       then [getUserMedia] else []).
Proof.
  destruct_hook s.
  unfold playNextInQueue, _startMediaRecorder, perform, mediaRecorder_state;
    cbn -[join].
  destruct audioQueueRef as [|b rest].
  2:{ rewrite bool_decide_eq_false_2 by (by intros [? _]).
      by rewrite app_nil_r. }
  destruct currentAiAudioChunksRef as [|c cs]; cbn -[join].
  all: destruct isConversationActiveRef; cbn -[join].
  all: repeat (case_bool_decide; cbn -[join] in * ); destruct_and?;
         rewrite ?app_nil_r; try done.
  all: exfalso; naive_solver.
Qed.

(** The events that never ask for the microphone. *)
Lemma dispatch_no_request e s :
  match e with
  | EvStartRecording | EvDecoded _ _ | EvEnded _ => True
  | _ => exists es, effects (dispatch e s) = effects s ++ es /\ getUserMedia ∉ es
  end.
Proof.
  destruct e as [ | | |parsed now|id| | |text now|settings|granted now|r data|r
                |i now|now dataArray|job ok|source| |tfail]; try done.
  4:{ (* inbound frame *)
      cbn [dispatch]. exists [].
      destruct parsed as [data|];
        [|by rewrite app_nil_r; split; [|apply not_elem_of_nil]].
      destruct (socket_is_open s);
        [|by rewrite app_nil_r; split; [|apply not_elem_of_nil]].
      destruct (inbound_no_device data now s) as (-> & _).
      by rewrite app_nil_r; split; [|apply not_elem_of_nil]. }
  all: destruct_hook s; unfold_hook; cbn -[trim dataURL_payload].
  all: repeat (first [case_bool_decide | case_match];
               cbn -[trim dataURL_payload] in *; simplify_eq).
  all: try (exists []; rewrite app_nil_r; split; [done|apply not_elem_of_nil]).
  all: rewrite <- ?app_assoc; eexists; (split; [reflexivity|]).
  all: intros Hin; cbn in Hin; elem_cases Hin.
Qed.

Lemma dispatch_request e s :
  exists es,
    effects (dispatch e s) = effects s ++ es /\
    (getUserMedia ∈ es <->
       requests_microphone s e /\ mediaRecorder_state s <> Some recording).
Proof.
  pose proof (dispatch_no_request e s) as Hno.
  destruct e as [ | | |parsed now|id| | |text now|settings|granted now|r data|r
                |i now|now dataArray|job ok|source| |tfail];
    try (destruct Hno as (es & He & Hn); exists es; split; [done|];
         split; [done|]; by intros [[?|[[] _]] _]).
  - (* startRecording *)
    cbn [dispatch]. unfold startRecording.
    rewrite startMediaRecorder_effects.
    assert (Hr : mediaRecorder_state
                   (set_isConversationActive true
                      (set_isConversationActiveRef true s))
                 = mediaRecorder_state s) by (by destruct_hook s).
    assert (He : effects (set_isConversationActive true
                            (set_isConversationActiveRef true s))
                 = effects s) by (by destruct_hook s).
    rewrite Hr, He. eexists. split; [reflexivity|].
    case_bool_decide as Hrec.
    + split; [by intros ?%elem_of_nil|]. by intros [_ ?].
    + split; [|intros _; left]. intros _. split; [by left|done].
  - (* a decode settles *)
    cbn [dispatch].
    destruct (decodes s !! job) as [d|] eqn:Hd.
    2:{ exists []. rewrite app_nil_r. split; [done|].
        split; [by intros ?%elem_of_nil|].
        intros [[?|[(_ & d & ? & _) _]] _]; congruence. }
    case_bool_decide as Hdec.
    2:{ exists []. rewrite app_nil_r. split; [done|].
        split; [by intros ?%elem_of_nil|].
        intros [[?|[(_ & d' & ? & ?) _]] _]; congruence. }
    destruct ok.
    { exists [source_start (length (sources s))]. split.
      - by destruct_hook s.
      - split; [intros Hin; elem_cases Hin|].
        by intros [[?|[(? & _) _]] _]. }
    rewrite playNextInQueue_effects.
    set (x := set_decodes _ s).
    assert (Hx : effects x = effects s /\ audioQueueRef x = audioQueueRef s /\
                 appStateRef x = appStateRef s /\
                 isConversationActiveRef x = isConversationActiveRef s /\
                 mediaRecorder_state x = mediaRecorder_state s).
    { subst x. unfold mediaRecorder_state. by destruct_hook s. }
    destruct Hx as (-> & -> & -> & -> & ->).
    eexists. split; [reflexivity|].
    case_bool_decide as Hg.
    + split; [|intros _; left]. intros _.
      destruct Hg as (G1 & G2 & G3 & G4). split; [|done].
      right. split; [split; eauto|done].
    + split; [by intros ?%elem_of_nil|].
      intros [[?|(_ & G1 & G2 & G3)] G4]; [done|]. by destruct Hg.
  - (* a source ends *)
    cbn [dispatch].
    destruct (sources s !! source) as [src|] eqn:Hsrc.
    2:{ exists []. rewrite app_nil_r. split; [done|].
        split; [by intros ?%elem_of_nil|].
        intros [[?|[(src & ? & _) _]] _]; congruence. }
    destruct (ended src) eqn:Hend.
    { exists []. rewrite app_nil_r. split; [done|].
      split; [by intros ?%elem_of_nil|].
      intros [[?|[(src' & ? & ?) _]] _]; congruence. }
    rewrite playNextInQueue_effects.
    set (x := set_sources _ s).
    assert (Hx : effects x = effects s /\ audioQueueRef x = audioQueueRef s /\
                 appStateRef x = appStateRef s /\
                 isConversationActiveRef x = isConversationActiveRef s /\
                 mediaRecorder_state x = mediaRecorder_state s).
    { subst x. unfold mediaRecorder_state. by destruct_hook s. }
    destruct Hx as (-> & -> & -> & -> & ->).
    eexists. split; [reflexivity|].
    case_bool_decide as Hg.
    + split; [|intros _; left]. intros _.
      destruct Hg as (G1 & G2 & G3 & G4). split; [|done].
      right. split; [cbn; eauto|done].
    + split; [by intros ?%elem_of_nil|].
      intros [[?|(_ & G1 & G2 & G3)] G4]; [done|]. by destruct Hg.
Qed.

(** X24.  The microphone is asked for at two places only: in any mounted
    state and for any event, [getUserMedia] is called during the turn exactly
    when the current recorder is not recording and either the event is
    [startRecording], or a fragment ends (its decode fails or its source
    ends) with the queue empty, the session [speaking] and the conversation
    active.  No inbound frame, timer or poll opens the microphone. *)
Theorem microphone_request_origin (s : Hook) (e : Event) (es : list Effect) :
  isMounted s = true ->
  effects (step s e) = effects s ++ es ->
  (getUserMedia ∈ es <->
     requests_microphone s e /\ mediaRecorder_state s <> Some recording).
Proof.
  intros Hm He. unfold step in He. rewrite Hm, commit_effects in He.
  destruct (dispatch_request e s) as (es' & He' & H).
  rewrite He' in He. by apply app_inv_head in He as ->.
Qed.

Lemma microphone_request_origin_witness :
  let s := run mounted
             [ EvSocketOpen; EvStartRecording; EvUserMedia true 0;
               EvSilenceTick 1600 silent_window;
               EvSocketMessage
                 (Some (WebSocketMessage.mk WebSocketMessage.ai_response
                          (Some "Xin chào") None None None None None)) stamp0;
               audio_frame "TWFu"; EvDecoded 0 true ] in
  effects (step s (EvEnded 0)) = effects s ++ [getUserMedia] /\
  requests_microphone s (EvEnded 0) /\
  mediaRecorder_state s <> Some recording.
Proof.
  split; [reflexivity|].
  apply (microphone_request_origin
           (run mounted
              [ EvSocketOpen; EvStartRecording; EvUserMedia true 0;
                EvSilenceTick 1600 silent_window;
                EvSocketMessage
                  (Some (WebSocketMessage.mk WebSocketMessage.ai_response
                           (Some "Xin chào") None None None None None)) stamp0;
                audio_frame "TWFu"; EvDecoded 0 true ])
           (EvEnded 0) [getUserMedia]).
  - reflexivity.
  - reflexivity.
  - left.
Defined.
(** ** The streamed reply *)

Lemma commit_streaming s : streaming (commit s) = streaming s.
Proof.
  unfold streaming.
  destruct_hook s; unfold commit, silence_effect; cbn.
  repeat (case_match; cbn); done.
Qed.

Lemma inbound_streaming data now s :
  streaming (handleWebSocketMessage data now s) = streaming_after data s.
Proof.
  unfold streaming, streaming_after.
  destruct data as [ty text isFinal emo d message isProcessing].
  destruct_hook s. unfold handleWebSocketMessage. cbn -[atob join trim].
  destruct ty; cbn -[atob join trim];
    repeat (case_match; cbn -[atob join trim] in *; simplify_eq); try done.
  all: unfold queueAudio, playNextInQueue; cbn -[atob join trim];
    repeat (case_match; cbn -[atob join trim] in *; simplify_eq); try done.
  all: by destruct audioQueueRef.
Qed.

Lemma dispatch_streaming_same e s :
  match e with
  | EvSocketMessage _ _ => True
  | _ => streaming (dispatch e s) = streaming s
  end.
Proof.
  unfold streaming.
  destruct e; try done; destruct_hook s; unfold_hook; cbn -[trim join];
    repeat (case_match; cbn -[trim join]); done.
Qed.

(** X25.  The streamed reply text and the thinking flag are moved by three
    frames only: in any state and for any event, after the turn they are what
    [ai_processing], [ai_stream_chunk] (with a text) or [ai_response] (with a
    text) makes of them when such a frame is delivered, and what they were in
    every other case; no error frame, barge-in, typed message or socket event
    clears them. *)
Theorem streaming_indicator (s : Hook) (e : Event) :
  streaming (step s e) =
    match delivered s e with
    | Some data => streaming_after data s
    | None => streaming s
    end.
Proof.
  unfold step. destruct (isMounted s) eqn:Hm.
  2:{ destruct e; try done. cbn. rewrite Hm. by destruct parsed. }
  rewrite commit_streaming.
  pose proof (dispatch_streaming_same e s) as Hsame.
  destruct e; try done.
  cbn [dispatch delivered]. rewrite Hm. cbn [andb].
  destruct parsed as [data|]; [|done].
  destruct (socket_is_open s); [|done].
  apply inbound_streaming.
Qed.
(** ** Releasing the microphone *)

Lemma commit_stream s : mediaStreamRef (commit s) = mediaStreamRef s.
Proof.
  destruct_hook s; unfold commit, silence_effect; cbn.
  repeat (case_match; cbn); done.
Qed.

Lemma dispatch_release e s :
  exists es,
    effects (dispatch e s) = effects s ++ es /\
    forall r, recorder_stop r ∈ es ->
      mediaStreamRef (dispatch e s) = None /\
      forall st, mediaStreamRef s = Some st -> tracks_stop st ∈ es.
Proof.
  destruct e; cbn [dispatch].
  all: destruct_hook s; unfold_hook; cbn -[trim dataURL_payload atob join].
  all: repeat (first [case_bool_decide | case_match];
               cbn -[trim dataURL_payload atob join] in *; simplify_eq).
  all: try (exists []; rewrite app_nil_r; split; [done|];
            by intros ? ?%elem_of_nil).
  all: rewrite <- ?app_assoc; eexists; (split; [reflexivity|]); cbn.
  all: intros ? Hin; elem_cases Hin.
  all: split; [done|]; intros ? ?; simplify_eq; repeat constructor.
Qed.

(** X26.  Whenever the hook stops the recorder it lets go of the
    microphone in the same turn: in any state and for any event, if
    [MediaRecorder.stop()] is called during the turn, then the tracks of the
    stream [mediaStreamRef] held are stopped in that turn as well, and the
    ref is [null] afterwards. *)
Theorem stop_releases_stream (s : Hook) (e : Event) (es : list Effect)
    (r : nat) :
  effects (step s e) = effects s ++ es ->
  recorder_stop r ∈ es ->
  mediaStreamRef (step s e) = None /\
  forall st, mediaStreamRef s = Some st -> tracks_stop st ∈ es.
Proof.
  unfold step. destruct (isMounted s).
  - rewrite commit_effects, commit_stream. intros He Hin.
    destruct (dispatch_release e s) as (es' & He' & H).
    rewrite He' in He. apply app_inv_head in He as ->. by apply (H r).
  - intros He Hin. rewrite <- (app_nil_r (effects s)) in He at 1.
    apply app_inv_head in He as <-. by apply elem_of_nil in Hin.
Qed.

Lemma stop_releases_stream_witness :
  let s := run mounted [EvSocketOpen; EvStartRecording; EvUserMedia true 0] in
  let e := EvSilenceTick 1500 silent_window in
  mediaStreamRef s = Some 0%nat /\
  effects (step s e) = effects s ++ [recorder_stop 0; tracks_stop 0] /\
  mediaStreamRef (step s e) = None /\
  (forall st, mediaStreamRef s = Some st ->
     tracks_stop st ∈ [recorder_stop 0; tracks_stop 0]).
Proof.
  split; [reflexivity|]. split; [reflexivity|].
  apply (stop_releases_stream
           (run mounted [EvSocketOpen; EvStartRecording; EvUserMedia true 0])
           (EvSilenceTick 1500 silent_window)
           [recorder_stop 0; tracks_stop 0] 0%nat).
  - reflexivity.
  - left.
Defined.
